(** * GNSS timing core of the LoRa gateway HAL: [libloragw/src/loragw_gps.c]

    A shallow embedding of the frame decoders ([lgw_parse_ubx],
    [lgw_parse_nmea] and their helpers), of the time-base estimator
    ([lgw_gps_sync], [lgw_cnt2utc], [lgw_utc2cnt], [lgw_cnt2gps],
    [lgw_gps2cnt]), of the fix state store ([lgw_gps_get]) and of the
    data flow of [lgw_gps_enable], followed by the properties of the
    specification (C1 to C10) and by further properties of the code (X1 to
    X28). The inversion of the conversions and the value of the GPS time
    rest on a rounding-error analysis of the binary64 operations, derived
    from their specification in the Standard Library ([SpecFloat],
    [FloatAxioms]).

    Not embedded: [lgw_gps_disable] and the terminal settings of
    [lgw_gps_enable], which are calls of the system with constants of its
    headers, and the messages of the debug log.

    Conventions.
    - A byte of a buffer is its unsigned value in [0, 255]; a [char] compared
      with a character constant is compared through that value.
    - [uint32_t] arithmetic is written with its reduction modulo [2^32];
      [time_t] and [long] are mathematical integers (signed overflow is
      undefined in C and is not modelled).
    - The conversion of a [double] to [int32_t] is undefined in C when the
      integral part of the number is not a value of the type; the
      embedding makes it the distinguished result [Unrepresentable].
    - [double] is IEEE binary64, every operation rounded to nearest even:
      the primitive floats of the Standard Library.
    - A read of a buffer outside [0, buff_size) is undefined in C; the
      embedding makes it the distinguished result [OutOfRange].
    - The functions of the C library and of the system ([sscanf],
      [mktime], [time], [open], [tcgetattr], [tcsetattr]) are not
      embedded: what they return is a parameter. *)

From Stdlib Require Import ZArith List Bool Lia Strings.Byte Floats.
From Stdlib Require Import Reals Lra Psatz.

Set Warnings "-inexact-float".
Import ListNotations.
Open Scope Z_scope.

(* ------------------------------------------------------------------------- *)
(** ** Buffer reads *)

Inductive res (A : Type) : Type :=
| Ret (a : A)
| OutOfRange (idx : Z).
Arguments Ret {A} a.
Arguments OutOfRange {A} idx.

Definition bind {A B : Type} (m : res A) (k : A -> res B) : res B :=
  match m with
  | Ret a => k a
  | OutOfRange i => OutOfRange i
  end.

Notation "x <- m ;; k" := (bind m (fun x => k))
  (at level 61, m at next level, right associativity).

(** Unsigned value of a byte, [(uint8_t)c]. *)
Definition u8 (b : byte) : Z := Z.of_N (Byte.to_N b).

(** [serial_buff[i]], as an unsigned value. *)
Definition rd (buf : list byte) (i : Z) : res Z :=
  if i <? 0 then OutOfRange i
  else match nth_error buf (Z.to_nat i) with
       | Some b => Ret (u8 b)
       | None => OutOfRange i
       end.

(** Two's complement reading of the low [w] bits, for the stores into
    [int32_t] and [int16_t] variables. *)
Definition to_signed (w : Z) (x : Z) : Z :=
  let m := x mod 2 ^ w in
  if m <? 2 ^ (w - 1) then m else m - 2 ^ w.

Definition wrap32 (x : Z) : Z := x mod 2 ^ 32.

(* ------------------------------------------------------------------------- *)
(** ** Message kinds and the fix variables *)

(** Modelled from the spec: [enum gps_msg] is declared in [loragw_gps.h],
    which is not among the sources; these are the kinds the code returns
    (spec section 4.B). *)
Inductive gps_msg : Type :=
| UNKNOWN
| IGNORED
| INVALID
| INCOMPLETE
| NMEA_RMC
| NMEA_GGA
| UBX_NAV_TIMEGPS.

(** The file-scope variables holding the result of the parsing. [gps_fra]
    is a C [float]; it is kept as the binary64 number of the same value. *)
Record gps_vars : Type := mk_gps_vars {
  gps_yea : Z;        (* year (2 or 4 digits) *)
  gps_mon : Z;        (* month (1-12) *)
  gps_day : Z;        (* day of the month (1-31) *)
  gps_hou : Z;        (* hours (0-23) *)
  gps_min : Z;        (* minutes (0-59) *)
  gps_sec : Z;        (* seconds (0-60) *)
  gps_fra : float;    (* fractions of seconds (<1) *)
  gps_time_ok : bool;
  gps_week : Z;       (* GPS week number of the navigation epoch *)
  gps_iTOW : Z;       (* GPS time of week in milliseconds *)
  gps_fTOW : Z;       (* fractional part of iTOW in nanosec *)
  gps_dla : Z;        (* degrees of latitude *)
  gps_mla : float;    (* minutes of latitude *)
  gps_ola : Z;        (* orientation (N-S) of latitude *)
  gps_dlo : Z;        (* degrees of longitude *)
  gps_mlo : float;    (* minutes of longitude *)
  gps_olo : Z;        (* orientation (E-W) of longitude *)
  gps_alt : Z;        (* altitude *)
  gps_pos_ok : bool;
  gps_mod : Z;        (* GPS mode (N no fix, A autonomous, D differential) *)
  gps_sat : Z         (* number of satellites used for fix *)
}.

(** The initial values of the file-scope variables. *)
Definition gps_vars_init : gps_vars :=
  mk_gps_vars 0 0 0 0 0 0 0%float false 0 0 0
              0 0%float 0 0 0%float 0 0 false (u8 "N") 0.

Definition set_time_ok (g : gps_vars) (ok : bool) : gps_vars :=
  mk_gps_vars (gps_yea g) (gps_mon g) (gps_day g) (gps_hou g) (gps_min g)
    (gps_sec g) (gps_fra g) ok (gps_week g) (gps_iTOW g) (gps_fTOW g)
    (gps_dla g) (gps_mla g) (gps_ola g) (gps_dlo g) (gps_mlo g) (gps_olo g)
    (gps_alt g) (gps_pos_ok g) (gps_mod g) (gps_sat g).

Definition set_timegps (g : gps_vars) (itow ftow week : Z) : gps_vars :=
  mk_gps_vars (gps_yea g) (gps_mon g) (gps_day g) (gps_hou g) (gps_min g)
    (gps_sec g) (gps_fra g) (gps_time_ok g) week itow ftow
    (gps_dla g) (gps_mla g) (gps_ola g) (gps_dlo g) (gps_mlo g) (gps_olo g)
    (gps_alt g) (gps_pos_ok g) (gps_mod g) (gps_sat g).

(* ------------------------------------------------------------------------- *)
(** ** [lgw_parse_ubx] *)

(** The 8-bit Fletcher loop: [n] further iterations from loop index [i],
    each reading [serial_buff[i+2]]. *)
Fixpoint ubx_fletcher (buf : list byte) (n : nat) (i : Z) (ck_a ck_b : Z)
  : res (Z * Z) :=
  match n with
  | O => Ret (ck_a, ck_b)
  | S n' =>
      b <- rd buf (i + 2) ;;
      let ck_a := (ck_a + b) mod 256 in
      let ck_b := (ck_b + ck_a) mod 256 in
      ubx_fletcher buf n' (i + 1) ck_a ck_b
  end.

(** [a && b] on two reads, the second made only when the first test holds. *)
Definition rd_both (buf : list byte) (i : Z) (x : Z) (j : Z) (y : Z)
  : res bool :=
  a <- rd buf i ;;
  if a =? x then (b <- rd buf j ;; Ret (b =? y)) else Ret false.

(** Little-endian assembly, as the chain of [|=] with shifts. *)
Definition le32 (b0 b1 b2 b3 : Z) : Z :=
  Z.lor (Z.lor (Z.lor b0 (Z.shiftl b1 8)) (Z.shiftl b2 16)) (Z.shiftl b3 24).

(** The NAV-TIMEGPS branch: validity test on byte 17, then the decoding. *)
Definition ubx_nav_timegps (buf : list byte) (g : gps_vars) : res gps_vars :=
  b17 <- rd buf 17 ;;
  let valid := negb (Z.land b17 3 =? 0) in   (* bool valid = c & 0x3 *)
  if valid then
    b6 <- rd buf 6 ;; b7 <- rd buf 7 ;; b8 <- rd buf 8 ;; b9 <- rd buf 9 ;;
    let itow := wrap32 (le32 b6 b7 b8 b9) in
    b10 <- rd buf 10 ;; b11 <- rd buf 11 ;;
    b12 <- rd buf 12 ;; b13 <- rd buf 13 ;;
    let ftow := to_signed 32 (le32 b10 b11 b12 b13) in
    b14 <- rd buf 14 ;; b15 <- rd buf 15 ;;
    let week := to_signed 16 (Z.lor b14 (Z.shiftl b15 8)) in
    Ret (set_time_ok (set_timegps g itow ftow week) true)
  else
    Ret (set_time_ok g false).

(** [lgw_parse_ubx serial_buff buff_size &msg_size], with [buff_size] the
    length of the buffer; [None] is the null pointer. The result is the
    returned kind, the value left in [*msg_size] and the fix variables. *)
Definition lgw_parse_ubx (serial_buff : option (list byte)) (g : gps_vars)
  : res (gps_msg * Z * gps_vars) :=
  match serial_buff with
  | None => Ret (IGNORED, 0, g)
  | Some buf =>
      let buff_size := Z.of_nat (length buf) in
      if buff_size <? 8 then Ret (IGNORED, 0, g)
      else
        sync <- rd_both buf 0 0xB5 1 0x62 ;;
        if sync then
          b4 <- rd buf 4 ;;
          b5 <- rd buf 5 ;;
          let payload_length := Z.lor b4 (Z.shiftl b5 8) in
          let msg_size := 6 + payload_length + 2 in
          if msg_size <=? buff_size then
            ck_a_rcv <- rd buf (msg_size - 2) ;;
            ck_b_rcv <- rd buf (msg_size - 1) ;;
            ck <- ubx_fletcher buf (Z.to_nat (4 + payload_length)) 0 0 0 ;;
            if (fst ck =? ck_a_rcv) && (snd ck =? ck_b_rcv) then
              timegps <- rd_both buf 2 0x01 3 0x20 ;;
              if timegps then
                g' <- ubx_nav_timegps buf g ;;
                Ret (UBX_NAV_TIMEGPS, msg_size, g')
              else
                nak <- rd_both buf 2 0x05 3 0x00 ;;
                if nak then Ret (IGNORED, msg_size, g)
                else
                  ack <- rd_both buf 2 0x05 3 0x01 ;;
                  if ack then Ret (IGNORED, msg_size, g)
                  else Ret (IGNORED, msg_size, g)
            else Ret (INVALID, msg_size, g)
          else Ret (INCOMPLETE, msg_size, g)
        else Ret (IGNORED, 0, g)
  end.

(* ------------------------------------------------------------------------- *)
(** ** NMEA helpers *)

Definition nibble_to_hexchar (a : Z) : Z :=
  if a <? 10 then u8 "0" + a
  else if a <? 16 then u8 "A" + (a - 10)
  else u8 "?".

(** The loop of [nmea_checksum] at index [i], [rest] being the bytes of the
    buffer from [i] on: xor until ['*'], giving the index of the ['*'] and
    the running xor; [None] when the index reaches [buff_size] first. *)
Fixpoint nmea_xor (rest : list byte) (i : Z) (check_num : Z)
  : option (Z * Z) :=
  match rest with
  | [] => None
  | c :: rest' =>
      if u8 c =? u8 "*" then Some (i, check_num)
      else nmea_xor rest' (i + 1) (Z.lxor check_num (u8 c))
  end.

(** [nmea_checksum nmea_string buff_size checksum]: [None] is the return
    value -1; otherwise the returned position and the two characters
    written to [checksum]. *)
Definition nmea_checksum (nmea_string : list byte) : option (Z * Z * Z) :=
  let buff_size := Z.of_nat (length nmea_string) in
  if buff_size <=? 1 then None
  else
    let i :=
      match nmea_string with
      | c :: _ => if u8 c =? u8 "$" then 1 else 0
      | [] => 0
      end in
    match nmea_xor (skipn (Z.to_nat i) nmea_string) i 0 with
    | None => None
    | Some (i, check_num) =>
        Some (i + 1,
              nibble_to_hexchar (check_num / 16),
              nibble_to_hexchar (check_num mod 16))
    end.

Definition validate_nmea_checksum (serial_buff : list byte) : res bool :=
  let buff_size := Z.of_nat (length serial_buff) in
  match nmea_checksum serial_buff with
  | None => Ret false
  | Some (checksum_index, c0, c1) =>
      if checksum_index >=? buff_size - 2 then Ret false
      else
        a <- rd serial_buff checksum_index ;;
        if a =? c0 then
          (b <- rd serial_buff (checksum_index + 1) ;; Ret (b =? c1))
        else Ret false
  end.

(** [match_label s label size wildcard], [label] being the [size] characters
    still to compare and [i] the loop index. *)
Fixpoint match_label (s : list byte) (label : list byte) (i : Z)
  (wildcard : Z) : res bool :=
  match label with
  | [] => Ret true
  | l :: label' =>
      if u8 l =? wildcard then match_label s label' (i + 1) wildcard
      else
        c <- rd s i ;;
        if u8 l =? c then match_label s label' (i + 1) wildcard
        else Ret false
  end.

Fixpoint store (s : list byte) (i : nat) (v : byte) : list byte :=
  match s, i with
  | [], _ => []
  | _ :: s', O => v :: s'
  | c :: s', S i' => c :: store s' i' v
  end.

(** The loop of [str_chop] at string index [i] and result index [j], [rest]
    being the characters from [i] on: the count, the characters after the
    replacements and the token indexes stored so far. *)
Fixpoint str_chop_loop (rest : list byte) (i j : Z) (separator max_idx : Z)
  (idx_ary : list Z) : Z * list byte * list Z :=
  match rest with
  | [] => (j, [], idx_ary)
  | c :: rest' =>
      if u8 c =? 0 then (j, rest, idx_ary)
      else if u8 c =? separator then
        if j >=? max_idx then (j, x00 :: rest', idx_ary)
        else
          let '(n, r, a) :=
            str_chop_loop rest' (i + 1) (j + 1) separator max_idx
                          (idx_ary ++ [i + 1]) in
          (n, x00 :: r, a)
      else
        let '(n, r, a) :=
          str_chop_loop rest' (i + 1) j separator max_idx idx_ary in
        (n, c :: r, a)
  end.

(** [str_chop s buff_size separator idx_ary max_idx] on non-null arrays:
    the returned count, the string afterwards and the entries of [idx_ary]
    that were filled, in order. *)
Definition str_chop (s : list byte) (buff_size : Z) (separator : Z)
  (max_idx : Z) : Z * list byte * list Z :=
  if (buff_size <? 0) || (separator =? 0) || (max_idx <? 0) then (-1, s, [])
  else if (buff_size =? 0) || (max_idx =? 0) then (0, s, [])
  else
    let s := store s (Z.to_nat (buff_size - 1)) x00 in
    str_chop_loop s 0 1 separator max_idx [0].

(** The C string starting at [s + k]. *)
Fixpoint c_str (s : list byte) : list byte :=
  match s with
  | [] => []
  | c :: s' => if u8 c =? 0 then [] else c :: c_str s'
  end.

Definition token (parser_buf : list byte) (k : Z) : list byte :=
  c_str (skipn (Z.to_nat k) parser_buf).

Definition str_index (idx_ary : list Z) (k : nat) : Z := nth k idx_ary 0.

Definition set_rmc (g : gps_vars) (mode : Z) (hms : Z * Z * Z * float)
  (dmy : Z * Z * Z) (ok : bool) : gps_vars :=
  let '(hou, mi, sec, fra) := hms in
  let '(day, mon, yea) := dmy in
  mk_gps_vars yea mon day hou mi sec fra ok
    (gps_week g) (gps_iTOW g) (gps_fTOW g)
    (gps_dla g) (gps_mla g) (gps_ola g) (gps_dlo g) (gps_mlo g) (gps_olo g)
    (gps_alt g) (gps_pos_ok g) mode (gps_sat g).

Definition set_gga (g : gps_vars) (sat : Z) (la : Z * float) (ola : Z)
  (lo : Z * float) (olo : Z) (alt : Z) (ok : bool) : gps_vars :=
  mk_gps_vars (gps_yea g) (gps_mon g) (gps_day g) (gps_hou g) (gps_min g)
    (gps_sec g) (gps_fra g) (gps_time_ok g)
    (gps_week g) (gps_iTOW g) (gps_fTOW g)
    (fst la) (snd la) ola (fst lo) (snd lo) olo alt ok (gps_mod g) sat.

Definition label_RMC : list byte := ["$"; "G"; "?"; "R"; "M"; "C"]%byte.
Definition label_GGA : list byte := ["$"; "G"; "?"; "G"; "G"; "A"]%byte.

(* ------------------------------------------------------------------------- *)
(** ** [lgw_parse_nmea] *)

Section ParseNmea.

(** The conversions of the C library. Each takes the string scanned and the
    current values of the variables it may assign, and gives the value
    returned by [sscanf] with the variables afterwards. *)
Variable sscanf_time :                       (* "%2hd%2hd%2hd%4f" *)
  list byte -> Z * Z * Z * float -> Z * (Z * Z * Z * float).
Variable sscanf_date :                       (* "%2hd%2hd%2hd" *)
  list byte -> Z * Z * Z -> Z * (Z * Z * Z).
Variable sscanf_hd :                         (* "%hd" *)
  list byte -> Z -> Z * Z.
Variable sscanf_lat :                        (* "%2hd%10lf" *)
  list byte -> Z * float -> Z * (Z * float).
Variable sscanf_lon :                        (* "%3hd%10lf" *)
  list byte -> Z * float -> Z * (Z * float).

Definition parse_rmc (serial_buff : list byte) (g : gps_vars)
  : res (gps_msg * gps_vars) :=
  let buff_size := Z.of_nat (length serial_buff) in
  let parser_buf := serial_buff ++ [x00] in
  let '(nb_fields, parser_buf, idx) := str_chop parser_buf buff_size (u8 ",") 30 in
  if negb (nb_fields =? 13) && negb (nb_fields =? 14) then Ret (IGNORED, g)
  else
    m <- rd parser_buf (str_index idx 12) ;;
    let mode :=
      if negb (m =? u8 "N") && negb (m =? u8 "A") && negb (m =? u8 "D")
      then u8 "N" else m in
    let '(i, hms) :=
      sscanf_time (token parser_buf (str_index idx 1))
                  (gps_hou g, gps_min g, gps_sec g, gps_fra g) in
    let '(j, dmy) :=
      sscanf_date (token parser_buf (str_index idx 9))
                  (gps_day g, gps_mon g, gps_yea g) in
    let ok :=
      if (i =? 4) && (j =? 3)
      then (mode =? u8 "A") || (mode =? u8 "D")
      else false in
    Ret (NMEA_RMC, set_rmc g mode hms dmy ok).

Definition parse_gga (serial_buff : list byte) (g : gps_vars)
  : res (gps_msg * gps_vars) :=
  let buff_size := Z.of_nat (length serial_buff) in
  let parser_buf := serial_buff ++ [x00] in
  let '(nb_fields, parser_buf, idx) := str_chop parser_buf buff_size (u8 ",") 30 in
  if negb (nb_fields =? 15) then Ret (IGNORED, g)
  else
    let '(_, sat) := sscanf_hd (token parser_buf (str_index idx 7)) (gps_sat g) in
    let '(i, la) :=
      sscanf_lat (token parser_buf (str_index idx 2)) (gps_dla g, gps_mla g) in
    ola <- rd parser_buf (str_index idx 3) ;;
    let '(j, lo) :=
      sscanf_lon (token parser_buf (str_index idx 4)) (gps_dlo g, gps_mlo g) in
    olo <- rd parser_buf (str_index idx 5) ;;
    let '(k, alt) := sscanf_hd (token parser_buf (str_index idx 9)) (gps_alt g) in
    let ok :=
      (i =? 2) && (j =? 2) && (k =? 1)
      && ((ola =? u8 "N") || (ola =? u8 "S"))
      && ((olo =? u8 "E") || (olo =? u8 "W")) in
    Ret (NMEA_GGA, set_gga g sat la ola lo olo alt ok).

(** [lgw_parse_nmea serial_buff buff_size], with [buff_size] the length of
    the buffer; [None] is the null pointer. *)
Definition lgw_parse_nmea (serial_buff : option (list byte)) (g : gps_vars)
  : res (gps_msg * gps_vars) :=
  match serial_buff with
  | None => Ret (UNKNOWN, g)
  | Some buf =>
      let buff_size := Z.of_nat (length buf) in
      if buff_size >? 255 then Ret (INVALID, g)
      else if buff_size <? 8 then Ret (UNKNOWN, g)
      else
        v <- validate_nmea_checksum buf ;;
        if negb v then Ret (INVALID, g)
        else
          rmc <- match_label buf label_RMC 0 (u8 "?") ;;
          if rmc then parse_rmc buf g
          else
            gga <- match_label buf label_GGA 0 (u8 "?") ;;
            if gga then parse_gga buf g
            else Ret (IGNORED, g)
  end.

End ParseNmea.

(* ------------------------------------------------------------------------- *)
(** ** Time reference *)

Definition TS_CPS : float := 1E6.
Definition PLUS_10PPM : float := 1.00001.
Definition MINUS_10PPM : float := 0.99999.

(** [(double)z] for an integer [z] with [|z| < 2^63]. *)
Definition double_of_Z (z : Z) : float :=
  if z <? 0 then (- of_uint63 (Uint63.of_Z (- z)))%float
  else of_uint63 (Uint63.of_Z z).

(** [(long)x] and [(time_t)x]: truncation toward zero of a finite [x]
    (the conversion of an infinity or of a NaN is undefined in C; it is 0
    here). *)
Definition Z_of_double (x : float) : Z :=
  match Prim2SF x with
  | S754_finite s m e =>
      let v := if 0 <=? e then Z.pos m * 2 ^ e else Z.pos m / 2 ^ (- e) in
      if s then - v else v
  | _ => 0
  end.

(** [(uint32_t)x]. *)
Definition uint32_of_double (x : float) : Z := wrap32 (Z_of_double x).

(** [modf x &intpart]: the fractional part and [intpart], for [|x| < 2^63].
    The difference of a number and its integral part is a binary64 number,
    so the rounded subtraction is the exact fractional part. *)
Definition modf (x : float) : float * float :=
  let intpart := double_of_Z (Z_of_double x) in
  ((x - intpart)%float, intpart).

Record timespec : Type := mk_timespec { tv_sec : Z; tv_nsec : Z }.

(** Modelled from the spec: [struct tref] is declared in [loragw_gps.h],
    which is not among the sources; these are the fields the code uses
    (spec section 3, time reference tuple). *)
Record tref : Type := mk_tref {
  systime : Z;          (* system time when solved *)
  count_us : Z;         (* reference concentrator internal timestamp *)
  utc : timespec;       (* reference UTC time *)
  gps : timespec;       (* reference GPS time *)
  xtal_err : float      (* raw clock error *)
}.

(** Modelled from the spec: [LGW_GPS_SUCCESS] and [LGW_GPS_ERROR] are
    defined in [loragw_gps.h], which is not among the sources; the spec
    has one success value and one opaque error sentinel. *)
Inductive status : Type :=
| LGW_GPS_SUCCESS
| LGW_GPS_ERROR.

(** The two [static] flags of [lgw_gps_sync]. *)
Record aber_hist : Type := mk_aber_hist {
  aber_min1 : bool;     (* was the value at sync N-1 aberrant *)
  aber_min2 : bool      (* was the value at sync N-2 aberrant *)
}.

Definition aber_hist_init : aber_hist := mk_aber_hist false false.

(** [(ref->xtal_err > PLUS_10PPM) || (ref->xtal_err < MINUS_10PPM)]. *)
Definition out_of_range (x : float) : bool :=
  (PLUS_10PPM <? x)%float || (x <? MINUS_10PPM)%float.

Definition sync_cnt_diff (ref : tref) (cnt : Z) : float :=
  (double_of_Z (wrap32 (cnt - count_us ref)) / TS_CPS)%float.

Definition sync_utc_diff (ref : tref) (t : timespec) : float :=
  (double_of_Z (tv_sec t - tv_sec (utc ref))
   + 1E-9 * double_of_Z (tv_nsec t - tv_nsec (utc ref)))%float.

Definition sync_slope (ref : tref) (cnt : Z) (t : timespec) : float :=
  (sync_cnt_diff ref cnt / sync_utc_diff ref t)%float.

(** The value given to [aber_n0]. *)
Definition sync_aber_n0 (ref : tref) (cnt : Z) (t : timespec) : bool :=
  if negb (sync_utc_diff ref t =? 0)%float
  then out_of_range (sync_slope ref cnt t)
  else true.

(** [lgw_gps_sync ref count_us utc gps_time]: [now] is the value of
    [time(NULL)], [None] the null pointer; the result is the returned
    status, the reference afterwards and the static flags afterwards. *)
Definition lgw_gps_sync (now : Z) (ref : option tref) (cnt : Z)
  (utc_time gps_time : timespec) (h : aber_hist)
  : status * option tref * aber_hist :=
  match ref with
  | None => (LGW_GPS_ERROR, None, h)
  | Some r =>
      let slope := sync_slope r cnt utc_time in
      let aber_n0 := sync_aber_n0 r cnt utc_time in
      let h' := mk_aber_hist aber_n0 (aber_min1 h) in
      if negb aber_n0 then
        (LGW_GPS_SUCCESS,
         Some (mk_tref now cnt utc_time gps_time slope), h')
      else if aber_n0 && aber_min1 h && aber_min2 h then
        (LGW_GPS_SUCCESS,
         Some (mk_tref now cnt utc_time gps_time
                 (if out_of_range (xtal_err r) then 1%float else xtal_err r)),
         h')
      else (LGW_GPS_ERROR, Some r, h')
  end.

(** The test guarding the four conversions. *)
Definition ref_refused (ref : tref) : bool :=
  (systime ref =? 0) || out_of_range (xtal_err ref).

(** The body shared by [lgw_cnt2utc] and [lgw_cnt2gps]: the time [t0] of the
    reference moved by the counter difference. *)
Definition cnt2time (ref : tref) (cnt : Z) (t0 : timespec) : timespec :=
  let delta_sec :=
    (double_of_Z (wrap32 (cnt - count_us ref)) / (TS_CPS * xtal_err ref))%float in
  let '(fractpart, intpart) := modf delta_sec in
  let tmp := tv_nsec t0 + Z_of_double (fractpart * 1E9)%float in
  if tmp <? 1000000000
  then mk_timespec (tv_sec t0 + Z_of_double intpart) tmp
  else mk_timespec (tv_sec t0 + Z_of_double intpart + 1) (tmp - 1000000000).

(** The body shared by [lgw_utc2cnt] and [lgw_gps2cnt]. *)
Definition time2cnt (ref : tref) (t t0 : timespec) : Z :=
  let delta_sec := double_of_Z (tv_sec t - tv_sec t0) in
  let delta_sec :=
    (delta_sec + 1E-9 * double_of_Z (tv_nsec t - tv_nsec t0))%float in
  wrap32 (count_us ref
          + uint32_of_double (delta_sec * TS_CPS * xtal_err ref)%float).

(** In the four conversions the last argument is the object behind the
    output pointer ([None]: null pointer) and the second component of the
    result is that object afterwards. *)
Definition lgw_cnt2utc (ref : tref) (cnt : Z) (out : option timespec)
  : status * option timespec :=
  match out with
  | None => (LGW_GPS_ERROR, None)
  | Some _ =>
      if ref_refused ref then (LGW_GPS_ERROR, out)
      else (LGW_GPS_SUCCESS, Some (cnt2time ref cnt (utc ref)))
  end.

Definition lgw_utc2cnt (ref : tref) (t : timespec) (out : option Z)
  : status * option Z :=
  match out with
  | None => (LGW_GPS_ERROR, None)
  | Some _ =>
      if ref_refused ref then (LGW_GPS_ERROR, out)
      else (LGW_GPS_SUCCESS, Some (time2cnt ref t (utc ref)))
  end.

Definition lgw_cnt2gps (ref : tref) (cnt : Z) (out : option timespec)
  : status * option timespec :=
  match out with
  | None => (LGW_GPS_ERROR, None)
  | Some _ =>
      if ref_refused ref then (LGW_GPS_ERROR, out)
      else (LGW_GPS_SUCCESS, Some (cnt2time ref cnt (gps ref)))
  end.

Definition lgw_gps2cnt (ref : tref) (t : timespec) (out : option Z)
  : status * option Z :=
  match out with
  | None => (LGW_GPS_ERROR, None)
  | Some _ =>
      if ref_refused ref then (LGW_GPS_ERROR, out)
      else (LGW_GPS_SUCCESS, Some (time2cnt ref t (gps ref)))
  end.

Definition tref_zero : tref :=
  mk_tref 0 0 (mk_timespec 0 0) (mk_timespec 0 0) 0%float.

(* ------------------------------------------------------------------------- *)
(** ** [lgw_gps_get] *)

(** Modelled from the spec: [struct coord_s] is declared in [loragw_gps.h],
    which is not among the sources; these are the fields the code assigns
    (spec section 3: latitude, longitude, altitude in metres). *)
Record coord_s : Type := mk_coord_s {
  lat : float;          (* latitude, positive for North *)
  lon : float;          (* longitude, positive for East *)
  alt : Z               (* altitude in metres *)
}.

(** The fields of [struct tm] that the code sets after clearing the
    structure; the others are zero. *)
Record tm : Type := mk_tm {
  tm_year : Z;
  tm_mon : Z;
  tm_mday : Z;
  tm_hour : Z;
  tm_min : Z;
  tm_sec : Z
}.

(** The conversion of a [double] to an integer type is undefined in C when
    the number is not finite or when its integral part is not a value of
    the type; the embedding makes it the distinguished result
    [Unrepresentable]. *)
Inductive conv (A : Type) : Type :=
| Conv (a : A)
| Unrepresentable (x : float).
Arguments Conv {A} a.
Arguments Unrepresentable {A} x.

(** [(int32_t)x]. *)
Definition int32_of_double (x : float) : conv Z :=
  let v := Z_of_double x in
  if is_finite x && (- 2 ^ 31 <=? v) && (v <? 2 ^ 31) then Conv v
  else Unrepresentable x.

(** The broken-down time handed to [mktime]. *)
Definition get_tm (g : gps_vars) : tm :=
  mk_tm (if gps_yea g <? 100 then gps_yea g + 100 else gps_yea g - 1900)
        (gps_mon g - 1) (gps_day g) (gps_hou g) (gps_min g) (gps_sec g).

(** The block [if (gps_time != NULL)]: [None] when it returns the error
    value, otherwise the object behind the pointer afterwards. *)
Definition get_gps_time (g : gps_vars) (gps_time : option timespec)
  : option (option timespec) :=
  match gps_time with
  | None => Some None
  | Some _ =>
      if negb (gps_time_ok g) then None
      else
        let '(fractpart, intpart) :=
          modf (double_of_Z (gps_iTOW g) / 1E3
                + double_of_Z (gps_fTOW g) / 1E9)%float in
        Some (Some (mk_timespec
                      (Z_of_double intpart + gps_week g * 604800)
                      (Z_of_double (fractpart * 1E9)%float)))
  end.

(** The block [if (loc != NULL)]. *)
Definition get_loc (g : gps_vars) (loc : option coord_s)
  : option (option coord_s) :=
  match loc with
  | None => Some None
  | Some _ =>
      if negb (gps_pos_ok g) then None
      else
        Some (Some (mk_coord_s
          ((double_of_Z (gps_dla g) + gps_mla g / 60)
           * (if (gps_ola g =? u8 "N")%Z then 1 else -1))%float
          ((double_of_Z (gps_dlo g) + gps_mlo g / 60)
           * (if (gps_olo g =? u8 "E")%Z then 1 else -1))%float
          (gps_alt g)))
  end.

(** The block [if (err != NULL)]. *)
Definition get_err (err : option coord_s) : option coord_s :=
  match err with
  | None => None
  | Some _ => Some (mk_coord_s 0 0 0)
  end.

Section GpsGet.

(** [mktime] of the C library, as a function of the fields set, and the
    global [timezone] of the C library. *)
Variable mktime : tm -> Z.
Variable timezone : Z.

(** The block [if (utc != NULL)]: [Conv None] when it returns the error
    value, otherwise the object behind the pointer afterwards; the result
    is [Unrepresentable] when [(int32_t)(gps_fra * 1e9)] is undefined. *)
Definition get_utc (g : gps_vars) (utc : option timespec)
  : conv (option (option timespec)) :=
  match utc with
  | None => Conv (Some None)
  | Some _ =>
      if negb (gps_time_ok g) then Conv None
      else
        let y := mktime (get_tm g) - timezone in
        if y =? -1 then Conv None
        else
          match int32_of_double (gps_fra g * 1E9)%float with
          | Conv nsec => Conv (Some (Some (mk_timespec y nsec)))
          | Unrepresentable x => Unrepresentable x
          end
  end.

(** [lgw_gps_get utc gps_time loc err] on the fix variables [g]: each
    argument is the object behind the pointer ([None]: null pointer); the
    result is the returned status and the four objects afterwards, or
    [Unrepresentable] when the conversion of the UTC block is undefined. *)
Definition lgw_gps_get (g : gps_vars) (utc gps_time : option timespec)
  (loc err : option coord_s)
  : conv (status * option timespec * option timespec
          * option coord_s * option coord_s) :=
  match get_utc g utc with
  | Unrepresentable x => Unrepresentable x
  | Conv None => Conv (LGW_GPS_ERROR, utc, gps_time, loc, err)
  | Conv (Some utc') =>
      match get_gps_time g gps_time with
      | None => Conv (LGW_GPS_ERROR, utc', gps_time, loc, err)
      | Some gps_time' =>
          match get_loc g loc with
          | None => Conv (LGW_GPS_ERROR, utc', gps_time', loc, err)
          | Some loc' =>
              Conv (LGW_GPS_SUCCESS, utc', gps_time', loc', get_err err)
          end
      end
  end.

End GpsGet.

(* ------------------------------------------------------------------------- *)
(** ** [lgw_gps_enable] *)

Definition UBX_MSG_NAVTIMEGPS_LEN : Z := 16.

(** The UBX CFG-MSG command that enables the output of NAV-TIMEGPS. *)
Definition ubx_cmd_timegps : list byte :=
  [xb5; x62;                                  (* UBX sync chars *)
   x06; x01;                                  (* CFG-MSG class and ID *)
   x08; x00;                                  (* payload length *)
   x01; x20; x00; x01; x01; x00; x00; x00;    (* enable NAV-TIMEGPS *)
   x32; x94].                                 (* checksum *)

(** The values returned by the system calls of [lgw_gps_enable]. *)
Record tty_calls : Type := mk_tty_calls {
  open_ret : Z;         (* open(tty_path, O_RDWR | O_NOCTTY) *)
  tcgetattr_ret : Z;    (* tcgetattr(gps_tty_dev, &ttyopt) *)
  tcsetattr_ret : Z     (* tcsetattr(gps_tty_dev, TCSANOW, &ttyopt) *)
}.

(** The fix variables after the initialisation that ends
    [lgw_gps_enable]. *)
Definition set_enabled (g : gps_vars) : gps_vars :=
  mk_gps_vars (gps_yea g) (gps_mon g) (gps_day g) (gps_hou g) (gps_min g)
    (gps_sec g) (gps_fra g) false (gps_week g) (gps_iTOW g) (gps_fTOW g)
    (gps_dla g) (gps_mla g) (gps_ola g) (gps_dlo g) (gps_mlo g) (gps_olo g)
    (gps_alt g) false (u8 "N") (gps_sat g).

(** [lgw_gps_enable tty_path gps_family target_brate fd_ptr]: [gps_family]
    and [target_brate] only select messages of the log; [fd_ptr] is the
    object behind the pointer. The result is the returned status, the
    object behind [fd_ptr] afterwards, the bytes handed to [write] and the
    fix variables. The terminal settings go to the system and do not come
    back into the program. *)
Definition lgw_gps_enable (tty_path : option (list byte)) (fd_ptr : option Z)
  (sys : tty_calls) (g : gps_vars)
  : status * option Z * list byte * gps_vars :=
  match tty_path, fd_ptr with
  | None, _ => (LGW_GPS_ERROR, fd_ptr, [], g)
  | Some _, None => (LGW_GPS_ERROR, None, [], g)
  | Some _, Some _ =>
      let gps_tty_dev := open_ret sys in
      if gps_tty_dev <=? 0 then (LGW_GPS_ERROR, fd_ptr, [], g)
      else if negb (tcgetattr_ret sys =? 0)
      then (LGW_GPS_ERROR, Some gps_tty_dev, [], g)
      else if negb (tcsetattr_ret sys =? 0)
      then (LGW_GPS_ERROR, Some gps_tty_dev, [], g)
      else (LGW_GPS_SUCCESS, Some gps_tty_dev,
            firstn (Z.to_nat UBX_MSG_NAVTIMEGPS_LEN) ubx_cmd_timegps,
            set_enabled g)
  end.

(* ------------------------------------------------------------------------- *)
(** ** Vocabulary of the specification and sample inputs *)

(** A NAV-TIMEGPS frame (16-byte payload) with iTOW = 0x0ABCDE00, fTOW = 0,
    week = 2200, leapS = 18, the validity byte 0x01 at offset 17 (towValid
    set, weekValid clear), tAcc = 0 and its Fletcher checksum 0x88 0xC9. *)
Definition timegps_frame_tow_only : list byte :=
  [xb5; x62; x01; x20; x10; x00;
   x00; xde; xbc; x0a;  x00; x00; x00; x00;  x98; x08;  x12; x01;
   x00; x00; x00; x00;
   x88; xc9].

(** A checksum-valid frame of class 0x01 and ID 0x20 with an empty payload. *)
Definition timegps_frame_empty : list byte :=
  [xb5; x62; x01; x20; x00; x00; x21; x64].

(** The first ['*'] of a buffer sits at index [p]. *)
Definition first_star (buf : list byte) (p : nat) : Prop :=
  nth_error buf p = Some "*"%byte /\
  forall q, (q < p)%nat -> nth_error buf q <> Some "*"%byte.

(** ["$GPGGA,092725.00,4717.11399,N,00833.91590,E,1,08,1.01,499.6,M,48.0,M,,*5B"],
    the valid GGA sentence quoted in the source, without line terminator. *)
Definition gga_sentence : list byte :=
  ["$"; "G"; "P"; "G"; "G"; "A"; ","; "0"; "9"; "2"; "7"; "2"; "5"; ".";
   "0"; "0"; ","; "4"; "7"; "1"; "7"; "."; "1"; "1"; "3"; "9"; "9"; ",";
   "N"; ","; "0"; "0"; "8"; "3"; "3"; "."; "9"; "1"; "5"; "9"; "0"; ",";
   "E"; ","; "1"; ","; "0"; "8"; ","; "1"; "."; "0"; "1"; ","; "4"; "9";
   "9"; "."; "6"; ","; "M"; ","; "4"; "8"; "."; "0"; ","; "M"; ","; ",";
   "*"; "5"; "B"]%byte.

(** ["$A*41"]: a 5-byte buffer ending with its matching checksum. *)
Definition short_sentence : list byte := ["$"; "A"; "*"; "4"; "1"]%byte.

(** [x] lies in the open interval (0.99999, 1.00001). *)
Definition in_window (x : float) : bool :=
  (MINUS_10PPM <? x)%float && (x <? PLUS_10PPM)%float.

(** The sample is aberrant in the words of the specification: [utc_diff] is
    zero or the slope is not in the open interval (0.99999, 1.00001). *)
Definition aberrant_spec (ref : tref) (cnt : Z) (t : timespec) : bool :=
  (sync_utc_diff ref t =? 0)%float || negb (in_window (sync_slope ref cnt t)).

(** The sample is aberrant as the code tests it: [utc_diff] is zero, or the
    slope is strictly above 1.00001 or strictly below 0.99999. *)
Definition aberrant_strict (ref : tref) (cnt : Z) (t : timespec) : Prop :=
  (sync_utc_diff ref t =? 0)%float = true
  \/ (PLUS_10PPM <? sync_slope ref cnt t)%float = true
  \/ (sync_slope ref cnt t <? MINUS_10PPM)%float = true.

(** A reference whose stored [xtal_err] equals the bound 1.00001. *)
Definition tref_on_bound : tref :=
  mk_tref 1700000000 0 (mk_timespec 0 0) (mk_timespec 0 0) PLUS_10PPM.

(** The distance between two values of the 32-bit counter, which wraps:
    the smaller of the two differences modulo 2^32, in microseconds. *)
Definition counter_distance (a b : Z) : Z :=
  Z.min (wrap32 (a - b)) (wrap32 (b - a)).


(** A reference taken 0.5 s before the counter wraps. *)
Definition tref_before_wrap : tref :=
  mk_tref 1700000000 (2 ^ 32 - 500000) (mk_timespec 1700000000 0)
    (mk_timespec 1384035218 0) 1%float.

(** The reference is refused as the code tests it: [systime] is zero, or
    [xtal_err] is strictly above 1.00001 or strictly below 0.99999. *)
Definition refused_strict (ref : tref) : Prop :=
  systime ref = 0
  \/ (PLUS_10PPM <? xtal_err ref)%float = true
  \/ (xtal_err ref <? MINUS_10PPM)%float = true.

(** A conversion called on the output object [old] is guarded by [bad]: it
    returns the error value and leaves the object as it was exactly when
    [bad] holds, and returns success otherwise. *)
Definition guarded_by {A : Type} (bad : Prop) (old : A)
  (result : status * option A) : Prop :=
  (fst result = LGW_GPS_ERROR <-> bad)
  /\ (bad -> result = (LGW_GPS_ERROR, Some old))
  /\ (~ bad -> fst result = LGW_GPS_SUCCESS).

(* ------------------------------------------------------------------------- *)
(** ** Real values of binary64 numbers *)

Definition bpow (e : Z) : R := powerRZ 2 e.

Definition sgn (s : bool) : R := if s then (-1)%R else 1%R.

(** The real number a finite [spec_float] stands for. *)
Definition SF2R (f : spec_float) : R :=
  match f with
  | S754_finite s m e => (sgn s * (IZR (Z.pos m) * bpow e))%R
  | _ => 0%R
  end.

(** The real value of a [double]. *)
Definition fval (x : float) : R := SF2R (Prim2SF x).

(** The relative error of one rounding, [2^-52]. *)
Definition eps : R := (/ 4503599627370496)%R.

(** A zero or a normal number whose exponent is within [-B, B]. *)
Definition sf_bounded (B : Z) (f : spec_float) : Prop :=
  match f with
  | S754_zero _ => True
  | S754_finite _ m e => Z.pos (digits2_pos m) = 53 /\ - B <= e <= B
  | _ => False
  end.

Definition fl_bounded (B : Z) (x : float) : Prop := sf_bounded B (Prim2SF x).

(** A zero or a normal number whose exponent is between [lo] and [hi]. *)
Definition shaped (lo hi : Z) (f : spec_float) : Prop :=
  match f with
  | S754_zero _ => True
  | S754_finite _ m e => Z.pos (digits2_pos m) = 53 /\ lo <= e <= hi
  | _ => False
  end.

(** A reference taken one second after the counter wrapped. *)
Definition tref_after_wrap : tref :=
  mk_tref 1700000000 1000000 (mk_timespec 1700000000 0)
    (mk_timespec 1384035218 0) 1%float.

(* ------------------------------------------------------------------------- *)
(** ** Vocabulary of the further properties *)

(** The unsigned value of the byte at index [i], and 0 where there is none. *)
Definition byte_at (buf : list byte) (i : Z) : Z :=
  match nth_error buf (Z.to_nat i) with
  | Some b => u8 b
  | None => 0
  end.

(** The sum of the [n] bytes from index [i] on. *)
Fixpoint range_sum (buf : list byte) (n : nat) (i : Z) : Z :=
  match n with
  | O => 0
  | S n' => byte_at buf i + range_sum buf n' (i + 1)
  end.

(** The loop of the 8-bit Fletcher checksum over bytes that are all within
    the buffer. *)
Fixpoint fletcher (buf : list byte) (n : nat) (i : Z) (ck_a ck_b : Z)
  : Z * Z :=
  match n with
  | O => (ck_a, ck_b)
  | S n' =>
      let ck_a := (ck_a + byte_at buf (i + 2)) mod 256 in
      let ck_b := (ck_b + ck_a) mod 256 in
      fletcher buf n' (i + 1) ck_a ck_b
  end.

(** The payload length and the total size announced by a UBX header. *)
Definition ubx_payload_length (buf : list byte) : Z :=
  byte_at buf 4 + 256 * byte_at buf 5.

Definition ubx_msg_size (buf : list byte) : Z :=
  6 + ubx_payload_length buf + 2.

(** A buffer that starts with a complete UBX frame whose Fletcher checksum
    matches: the tests made before the class and the ID are looked at. *)
Definition ubx_frame_ok (buf : list byte) : bool :=
  let ck := fletcher buf (Z.to_nat (4 + ubx_payload_length buf)) 0 0 0 in
  (8 <=? Z.of_nat (length buf))
  && (byte_at buf 0 =? 0xB5) && (byte_at buf 1 =? 0x62)
  && (ubx_msg_size buf <=? Z.of_nat (length buf))
  && (fst ck =? byte_at buf (ubx_msg_size buf - 2))
  && (snd ck =? byte_at buf (ubx_msg_size buf - 1)).

(** The class and ID of NAV-TIMEGPS. *)
Definition ubx_is_timegps (buf : list byte) : bool :=
  (byte_at buf 2 =? 0x01) && (byte_at buf 3 =? 0x20).

(** The value of [k] bytes from index [i] on, least significant first. *)
Fixpoint le_value (buf : list byte) (k : nat) (i : Z) : Z :=
  match k with
  | O => 0
  | S k' => byte_at buf i + 256 * le_value buf k' (i + 1)
  end.

(** The NAV-TIMEGPS frame above with the validity byte 0x00 at offset 17 and
    the Fletcher checksum 0x87 0xC4 that goes with it. *)
Definition timegps_frame_no_valid : list byte :=
  [xb5; x62; x01; x20; x10; x00;
   x00; xde; xbc; x0a;  x00; x00; x00; x00;  x98; x08;  x12; x00;
   x00; x00; x00; x00;
   x87; xc4].

(** The XOR of the characters of [l], starting from [acc]. *)
Definition xor_all (l : list byte) (acc : Z) : Z :=
  fold_left (fun a c => Z.lxor a (u8 c)) l acc.

(** The characters an NMEA checksum covers when the first ['*'] is at index
    [p]: those before the ['*'], without the leading ['$'] if there is one. *)
Definition nmea_body (buf : list byte) (p : nat) : list byte :=
  match buf with
  | c :: rest => if u8 c =? u8 "$" then firstn (p - 1) rest else firstn p buf
  | [] => []
  end.

(** The value of an upper-case hexadecimal digit, and 16 for any other
    character. *)
Definition hex_value (c : Z) : Z :=
  if (u8 "0" <=? c) && (c <=? u8 "9") then c - u8 "0"
  else if (u8 "A" <=? c) && (c <=? u8 "F") then c - u8 "A" + 10
  else 16.

(** The GGA sentence quoted in the source, followed by CR and LF. *)
Definition gga_sentence_crlf : list byte := gga_sentence ++ [x0d; x0a].

(** The strings [ts] put one after the other with [sep] between them. *)
Fixpoint join (sep : byte) (ts : list (list byte)) : list byte :=
  match ts with
  | [] => []
  | [t] => t
  | t :: ts' => t ++ sep :: join sep ts'
  end.

(** The number of characters of [l] equal to [sep]. *)
Definition count_sep (sep : byte) (l : list byte) : Z :=
  Z.of_nat (count_occ Byte.byte_eq_dec l sep).

(** The variables written by the GGA branch are the same in [g] and [g']. *)
Definition same_position (g g' : gps_vars) : Prop :=
  gps_dla g' = gps_dla g /\ gps_mla g' = gps_mla g /\ gps_ola g' = gps_ola g
  /\ gps_dlo g' = gps_dlo g /\ gps_mlo g' = gps_mlo g
  /\ gps_olo g' = gps_olo g /\ gps_alt g' = gps_alt g
  /\ gps_pos_ok g' = gps_pos_ok g /\ gps_sat g' = gps_sat g.

(** The date and time of day are the same in [g] and [g']. *)
Definition same_date (g g' : gps_vars) : Prop :=
  gps_yea g' = gps_yea g /\ gps_mon g' = gps_mon g /\ gps_day g' = gps_day g
  /\ gps_hou g' = gps_hou g /\ gps_min g' = gps_min g
  /\ gps_sec g' = gps_sec g /\ gps_fra g' = gps_fra g.

(** The variables written from a NAV-TIMEGPS frame are the same. *)
Definition same_timegps (g g' : gps_vars) : Prop :=
  gps_week g' = gps_week g /\ gps_iTOW g' = gps_iTOW g
  /\ gps_fTOW g' = gps_fTOW g.

(** The characters 0, 1, 3, 4 and 5 of [buf] are ['$'], ['G'] and the three
    letters [a], [b], [c]. *)
Definition has_label (buf : list byte) (a b c : byte) : Prop :=
  byte_at buf 0 = u8 "$" /\ byte_at buf 1 = u8 "G"
  /\ byte_at buf 3 = u8 a /\ byte_at buf 4 = u8 b /\ byte_at buf 5 = u8 c.

(** The number of commas of the sentence in [buf] as [str_chop] sees it:
    without the last character of the buffer and up to a null character. *)
Definition commas (buf : list byte) : Z :=
  count_sep "," (c_str (firstn (length buf - 1) buf)).

(** ["$GPRMC,083559.34,A,4717.11437,N,00833.91522,E,0.004,77.52,091202,,,A*50"]
    followed by CR and LF: the RMC sentence quoted in the source, with the
    checksum of its characters. *)
Definition rmc_sentence_crlf : list byte :=
  ["$"; "G"; "P"; "R"; "M"; "C"; ","; "0"; "8"; "3"; "5"; "5"; "9"; ".";
   "3"; "4"; ","; "A"; ","; "4"; "7"; "1"; "7"; "."; "1"; "1"; "4"; "3";
   "7"; ","; "N"; ","; "0"; "0"; "8"; "3"; "3"; "."; "9"; "1"; "5"; "2";
   "2"; ","; "E"; ","; "0"; "."; "0"; "0"; "4"; ","; "7"; "7"; "."; "5";
   "2"; ","; "0"; "9"; "1"; "2"; "0"; "2"; ","; ","; ","; "A"; "*"; "5";
   "0"; x0d; x0a]%byte.

(** Conversions that assign nothing and report [n] assignments. *)
Definition sscanf_none {A : Type} (n : Z) (s : list byte) (v : A) : Z * A :=
  (n, v).


(** The fix variables [g] with the year [y]. *)
Definition with_year (g : gps_vars) (y : Z) : gps_vars :=
  mk_gps_vars y (gps_mon g) (gps_day g) (gps_hou g) (gps_min g)
    (gps_sec g) (gps_fra g) (gps_time_ok g) (gps_week g) (gps_iTOW g)
    (gps_fTOW g) (gps_dla g) (gps_mla g) (gps_ola g) (gps_dlo g) (gps_mlo g)
    (gps_olo g) (gps_alt g) (gps_pos_ok g) (gps_mod g) (gps_sat g).

(* ========================================================================= *)
(** * Properties *)

(* ------------------------------------------------------------------------- *)
(** ** Reads and byte arithmetic *)

Lemma u8_range (b : byte) : 0 <= u8 b < 256.
Proof.
  unfold u8. pose proof (Byte.to_N_bounded b). lia.
Qed.

Lemma u8_inj (a b : byte) : u8 a = u8 b -> a = b.
Proof.
  unfold u8. intros H. apply N2Z.inj in H.
  pose proof (Byte.of_to_N a) as Ha. pose proof (Byte.of_to_N b) as Hb.
  rewrite H in Ha. congruence.
Qed.

Lemma u8_eqb (a b : byte) : (u8 a =? u8 b) = true <-> a = b.
Proof.
  rewrite Z.eqb_eq. split; [apply u8_inj | now intros ->].
Qed.

Lemma rd_nth (buf : list byte) (i : Z) (b : byte) :
  0 <= i -> nth_error buf (Z.to_nat i) = Some b -> rd buf i = Ret (u8 b).
Proof.
  intros Hi H. unfold rd.
  destruct (Z.ltb_spec i 0) as [Hn | _]; [lia |].
  now rewrite H.
Qed.

Lemma land_low_shiftl_8 (a b : Z) :
  0 <= a < 256 -> Z.land a (b * 256) = 0.
Proof.
  intros Ha.
  apply Z.bits_inj'. intros n Hn.
  rewrite Z.land_spec, Z.bits_0.
  destruct (Z.lt_ge_cases n 8) as [Hlt | Hge].
  - change 256 with (2 ^ 8).
    rewrite (Z.mul_pow2_bits_low b 8 n) by lia. apply andb_false_r.
  - assert (Z.testbit a n = false) as ->; [| reflexivity].
    destruct (Z.eq_dec a 0) as [-> | Hnz]; [apply Z.bits_0 |].
    apply Z.bits_above_log2; [lia |].
    assert (Z.log2 a < 8); [| lia].
    apply Z.log2_lt_pow2; [lia | simpl; lia].
Qed.

Lemma lor_shiftl_8 (a b : Z) :
  0 <= a < 256 -> 0 <= b -> Z.lor a (Z.shiftl b 8) = a + 256 * b.
Proof.
  intros Ha Hb.
  rewrite Z.shiftl_mul_pow2 by lia.
  change (2 ^ 8) with 256.
  rewrite <- Z.lxor_lor, <- Z.add_nocarry_lxor
    by (now apply land_low_shiftl_8).
  lia.
Qed.

(* ------------------------------------------------------------------------- *)
(** ** UBX frames *)

(** C1. On a checksum-valid NAV-TIMEGPS frame whose validity byte is 0x01
    (towValid set, weekValid clear) the code still decodes iTOW, fTOW and
    week into the fix variables and sets [gps_time_ok]: the test
    [valid = serial_buff[17] & 0x3] holds as soon as one of the two bits is
    set. *)
Theorem parse_ubx_timegps_one_valid_bit :
  lgw_parse_ubx (Some timegps_frame_tow_only) gps_vars_init
  = Ret (UBX_NAV_TIMEGPS, 24,
         set_time_ok (set_timegps gps_vars_init 180149760 0 2200) true).
Proof.
  vm_compute. reflexivity.
Qed.

(** C7. A buffer of at least 8 bytes that starts with the sync bytes and
    declares, through the little-endian length at offsets 4-5, a message
    longer than the buffer, is answered INCOMPLETE with the declared total
    size in [msg_size] and the fix variables untouched. *)
Theorem parse_ubx_incomplete (buf : list byte) (g : gps_vars) (b4 b5 : byte) :
  8 <= Z.of_nat (length buf) ->
  nth_error buf 0 = Some xb5 ->
  nth_error buf 1 = Some x62 ->
  nth_error buf 4 = Some b4 ->
  nth_error buf 5 = Some b5 ->
  Z.of_nat (length buf) < 6 + (u8 b4 + 256 * u8 b5) + 2 ->
  lgw_parse_ubx (Some buf) g
  = Ret (INCOMPLETE, 6 + (u8 b4 + 256 * u8 b5) + 2, g).
Proof.
  intros Hlen H0 H1 H4 H5 Hsize.
  unfold lgw_parse_ubx.
  destruct (Z.ltb_spec (Z.of_nat (length buf)) 8) as [Hlt | _]; [lia |].
  unfold rd_both.
  rewrite (rd_nth buf 0 xb5), (rd_nth buf 1 x62) by (lia || assumption).
  cbn [bind].
  change (u8 xb5 =? 181) with true. change (u8 x62 =? 98) with true.
  cbn [bind].
  rewrite (rd_nth buf 4 b4), (rd_nth buf 5 b5) by (lia || assumption).
  cbn [bind].
  rewrite lor_shiftl_8 by (pose proof (u8_range b4); pose proof (u8_range b5); lia).
  destruct (Z.leb_spec (6 + (u8 b4 + 256 * u8 b5) + 2) (Z.of_nat (length buf)))
    as [Hle | _]; [lia | reflexivity].
Qed.

Lemma parse_ubx_incomplete_witness :
  lgw_parse_ubx (Some (firstn 10 timegps_frame_tow_only)) gps_vars_init
  = Ret (INCOMPLETE, 24, gps_vars_init).
Proof.
  apply (parse_ubx_incomplete (firstn 10 timegps_frame_tow_only)
           gps_vars_init x10 x00); vm_compute; congruence.
Defined.

(** C9. On the 8-byte checksum-valid frame of class 0x01 and ID 0x20 with an
    empty payload, the code reads [serial_buff[17]], beyond the 8 bytes of
    the buffer. *)
Theorem parse_ubx_reads_byte_17_of_short_frame (g : gps_vars) :
  length timegps_frame_empty = 8%nat /\
  lgw_parse_ubx (Some timegps_frame_empty) g = OutOfRange 17.
Proof.
  split; reflexivity.
Qed.

(* ------------------------------------------------------------------------- *)
(** ** NMEA sentences *)

Lemma first_star_tail (c : byte) (rest : list byte) (p : nat) :
  first_star (c :: rest) (S p) -> first_star rest p.
Proof.
  intros [Hp Hq]. split; [exact Hp |].
  intros q Hlt. apply (Hq (S q)). lia.
Qed.

Lemma first_star_head (c : byte) (rest : list byte) (p : nat) :
  first_star (c :: rest) (S p) -> (u8 c =? u8 "*") = false.
Proof.
  intros [_ Hq].
  destruct (u8 c =? u8 "*") eqn:E; [| reflexivity].
  apply u8_eqb in E. subst c.
  exfalso. apply (Hq 0%nat); [lia | reflexivity].
Qed.

Lemma nmea_xor_first_star (rest : list byte) :
  forall (p : nat) (i check_num : Z),
    first_star rest p ->
    exists x, nmea_xor rest i check_num = Some (i + Z.of_nat p, x).
Proof.
  induction rest as [| c rest IH]; intros p i check_num Hfs.
  - destruct Hfs as [Hp _]. destruct p; discriminate Hp.
  - destruct p as [| p].
    + destruct Hfs as [Hp _]. injection Hp as ->.
      exists check_num. cbn. f_equal. f_equal. lia.
    + cbn [nmea_xor]. rewrite (first_star_head _ _ _ Hfs).
      destruct (IH p (i + 1) (Z.lxor check_num (u8 c))
                  (first_star_tail _ _ _ Hfs)) as [x Hx].
      exists x. rewrite Hx. f_equal. f_equal. lia.
Qed.

Lemma nmea_checksum_first_star (buf : list byte) (p : nat) :
  2 <= Z.of_nat (length buf) ->
  first_star buf p ->
  exists c0 c1, nmea_checksum buf = Some (Z.of_nat p + 1, c0, c1).
Proof.
  intros Hlen Hfs. unfold nmea_checksum.
  destruct (Z.leb_spec (Z.of_nat (length buf)) 1) as [Hle | _]; [lia |].
  destruct buf as [| c rest]; [cbn in Hlen; lia |].
  destruct (u8 c =? u8 "$") eqn:E.
  - apply u8_eqb in E. subst c.
    destruct p as [| p].
    + destruct Hfs as [Hp _]. discriminate Hp.
    + change (skipn (Z.to_nat 1) ("$"%byte :: rest)) with rest.
      destruct (nmea_xor_first_star rest p 1 0 (first_star_tail _ _ _ Hfs))
        as [x Hx].
      rewrite Hx. do 2 eexists. f_equal. f_equal. f_equal. lia.
  - change (skipn (Z.to_nat 0) (c :: rest)) with (c :: rest).
    destruct (nmea_xor_first_star (c :: rest) p 0 0 Hfs) as [x Hx].
    rewrite Hx. do 2 eexists. reflexivity.
Qed.

Lemma validate_needs_trailing_byte (buf : list byte) (p : nat) :
  2 <= Z.of_nat (length buf) ->
  first_star buf p ->
  Z.of_nat (length buf) - 2 <= Z.of_nat p + 1 ->
  validate_nmea_checksum buf = Ret false.
Proof.
  intros Hlen Hfs Hpos. unfold validate_nmea_checksum.
  destruct (nmea_checksum_first_star buf p Hlen Hfs) as (c0 & c1 & ->).
  destruct (Z.geb_spec (Z.of_nat p + 1) (Z.of_nat (length buf) - 2));
    [reflexivity | lia].
Qed.

Section NmeaProperties.

Variable sscanf_time :
  list byte -> Z * Z * Z * float -> Z * (Z * Z * Z * float).
Variable sscanf_date : list byte -> Z * Z * Z -> Z * (Z * Z * Z).
Variable sscanf_hd : list byte -> Z -> Z * Z.
Variable sscanf_lat : list byte -> Z * float -> Z * (Z * float).
Variable sscanf_lon : list byte -> Z * float -> Z * (Z * float).

(** C10 (amended). For a buffer of at least 8 bytes whose first ['*'] is at
    index [p] with [p + 1 >= buff_size - 2], the sentence is INVALID and the
    fix variables are untouched, whatever the characters after the ['*']:
    the checksum is compared only when at least one byte follows its two
    characters. *)
Theorem parse_nmea_needs_trailing_byte
  (buf : list byte) (g : gps_vars) (p : nat) :
  8 <= Z.of_nat (length buf) ->
  first_star buf p ->
  Z.of_nat p + 1 >= Z.of_nat (length buf) - 2 ->
  lgw_parse_nmea sscanf_time sscanf_date sscanf_hd sscanf_lat sscanf_lon
    (Some buf) g
  = Ret (INVALID, g).
Proof.
  intros Hlen Hfs Hpos. unfold lgw_parse_nmea.
  destruct (Z.of_nat (length buf) >? 255); [reflexivity |].
  destruct (Z.ltb_spec (Z.of_nat (length buf)) 8) as [Hlt | _]; [lia |].
  rewrite (validate_needs_trailing_byte buf p) by (assumption || lia).
  reflexivity.
Qed.

End NmeaProperties.

Lemma first_star_gga : first_star gga_sentence 70.
Proof.
  split; [reflexivity |].
  intros q Hq.
  do 70 (destruct q as [| q]; [discriminate |]).
  lia.
Qed.

Lemma parse_nmea_needs_trailing_byte_witness :
  nmea_checksum gga_sentence = Some (71, u8 "5", u8 "B") /\
  Z.of_nat (length gga_sentence) = 73 /\
  forall st sd sh sla slo g,
    lgw_parse_nmea st sd sh sla slo (Some gga_sentence) g = Ret (INVALID, g).
Proof.
  split; [reflexivity | split; [reflexivity |]].
  intros st sd sh sla slo g.
  apply (parse_nmea_needs_trailing_byte st sd sh sla slo gga_sentence g 70).
  - vm_compute. congruence.
  - exact first_star_gga.
  - vm_compute. congruence.
Defined.

(** C10, as stated, fails on a buffer shorter than 8 bytes: the position
    after the ['*'] of ["$A*41"] is 3 = buff_size - 2 and the two checksum
    characters match, yet the sentence is UNKNOWN, not INVALID. *)
Lemma parse_nmea_short_buffer_unknown :
  first_star short_sentence 2 /\
  Z.of_nat 2 + 1 >= Z.of_nat (length short_sentence) - 2 /\
  nmea_checksum short_sentence = Some (3, u8 "4", u8 "1") /\
  forall st sd sh sla slo g,
    lgw_parse_nmea st sd sh sla slo (Some short_sentence) g = Ret (UNKNOWN, g).
Proof.
  split.
  - split; [reflexivity |].
    intros q Hq. do 2 (destruct q as [| q]; [discriminate |]). lia.
  - split; [vm_compute; congruence |].
    split; [reflexivity |].
    intros; reflexivity.
Qed.

(* ------------------------------------------------------------------------- *)
(** ** Comparisons of binary64 numbers *)

Lemma SFltb_asym (x y : spec_float) : SFltb x y = true -> SFltb y x = false.
Proof.
  unfold SFltb, SFcompare.
  destruct x as [sx | sx | | sx mx ex], y as [sy | sy | | sy my ey];
    try destruct sx; try destruct sy; cbn; try congruence.
  - rewrite (Z.compare_antisym ex ey).
    destruct (ex ?= ey) eqn:E; cbn; try congruence.
    change (PosDef.Pos.compare_cont Eq my mx) with (my ?= mx)%positive.
    change (PosDef.Pos.compare_cont Eq mx my) with (mx ?= my)%positive.
    rewrite (Pos.compare_antisym mx my).
    destruct (mx ?= my)%positive; cbn; congruence.
  - rewrite (Z.compare_antisym ex ey).
    destruct (ex ?= ey) eqn:E; cbn; try congruence.
    change (PosDef.Pos.compare_cont Eq my mx) with (my ?= mx)%positive.
    change (PosDef.Pos.compare_cont Eq mx my) with (mx ?= my)%positive.
    rewrite (Pos.compare_antisym mx my).
    destruct (mx ?= my)%positive; cbn; congruence.
Qed.

Lemma ltb_asym (x y : float) : (x <? y)%float = true -> (y <? x)%float = false.
Proof.
  rewrite !ltb_spec. apply SFltb_asym.
Qed.


Lemma in_window_in_range (x : float) :
  in_window x = true -> out_of_range x = false.
Proof.
  unfold in_window, out_of_range. intros H.
  apply andb_true_iff in H. destruct H as [Hlo Hhi].
  now rewrite (ltb_asym _ _ Hlo), (ltb_asym _ _ Hhi).
Qed.

Lemma aberrant_strict_aber_n0 (ref : tref) (cnt : Z) (t : timespec) :
  aberrant_strict ref cnt t -> sync_aber_n0 ref cnt t = true.
Proof.
  unfold aberrant_strict, sync_aber_n0, out_of_range.
  intros [H | [H | H]].
  - now rewrite H.
  - rewrite H. now destruct (sync_utc_diff ref t =? 0)%float.
  - rewrite H, orb_true_r. now destruct (sync_utc_diff ref t =? 0)%float.
Qed.

(* ------------------------------------------------------------------------- *)
(** ** [lgw_gps_sync] *)

(** C2, as stated, fails: from the all-zero reference and the initial flags,
    [sync(1000000, (100,0), (200,0))] does not commit; it returns the error
    value and leaves the reference as it was. *)
Lemma first_sync_is_not_committed :
  lgw_gps_sync 1700000000 (Some tref_zero) 1000000
    (mk_timespec 100 0) (mk_timespec 200 0) aber_hist_init
  = (LGW_GPS_ERROR, Some tref_zero, mk_aber_hist true false).
Proof.
  vm_compute. reflexivity.
Qed.

(** C2 (amended). From the all-zero reference and the initial flags, the
    call [sync(1000000, (100,0), (200,0))] computes the slope 1.0/100.0 =
    0.01, below 0.99999: the sample is aberrant, the call returns the error
    value, the reference is unchanged and only the aberration flags record
    the attempt. *)
Theorem first_sync_is_aberrant (now : Z) :
  sync_slope tref_zero 1000000 (mk_timespec 100 0) = 0.01%float /\
  (0.01 <? MINUS_10PPM)%float = true /\
  lgw_gps_sync now (Some tref_zero) 1000000
    (mk_timespec 100 0) (mk_timespec 200 0) aber_hist_init
  = (LGW_GPS_ERROR, Some tref_zero, mk_aber_hist true false).
Proof.
  repeat split; vm_compute; reflexivity.
Qed.

(** C3, as stated, fails on a slope equal to a bound: from the all-zero
    reference, [sync(1000010, (1,0), _)] has slope 1.00001, which is not in
    the open interval, and the call commits and returns success. *)
Lemma sync_slope_on_bound_is_committed :
  aberrant_spec tref_zero 1000010 (mk_timespec 1 0) = true /\
  aber_min1 aber_hist_init && aber_min2 aber_hist_init = false /\
  lgw_gps_sync 1700000000 (Some tref_zero) 1000010
    (mk_timespec 1 0) (mk_timespec 2 0) aber_hist_init
  = (LGW_GPS_SUCCESS,
     Some (mk_tref 1700000000 1000010 (mk_timespec 1 0) (mk_timespec 2 0)
             PLUS_10PPM),
     mk_aber_hist false false).
Proof.
  repeat split; vm_compute; reflexivity.
Qed.

(** C3 (amended). When the sample is aberrant as the code tests it
    ([utc_diff == 0], or slope strictly above 1.00001 or strictly below
    0.99999) and the two previous attempts were not both aberrant, the call
    returns the error value and leaves every field of the reference
    unchanged; only the aberration flags shift. *)
Theorem sync_aberrant_is_rejected
  (now : Z) (ref : tref) (cnt : Z) (t gt : timespec) (h : aber_hist) :
  aberrant_strict ref cnt t ->
  aber_min1 h && aber_min2 h = false ->
  lgw_gps_sync now (Some ref) cnt t gt h
  = (LGW_GPS_ERROR, Some ref, mk_aber_hist true (aber_min1 h)).
Proof.
  intros Hab Hh. unfold lgw_gps_sync.
  rewrite (aberrant_strict_aber_n0 _ _ _ Hab). cbn [negb andb].
  now rewrite Hh.
Qed.

Lemma sync_aberrant_is_rejected_witness :
  aberrant_strict tref_zero 1000000 (mk_timespec 100 0) /\
  lgw_gps_sync 1700000000 (Some tref_zero) 1000000
    (mk_timespec 100 0) (mk_timespec 200 0) (mk_aber_hist true false)
  = (LGW_GPS_ERROR, Some tref_zero, mk_aber_hist true true).
Proof.
  assert (H : aberrant_strict tref_zero 1000000 (mk_timespec 100 0))
    by (right; right; vm_compute; reflexivity).
  split; [exact H |].
  apply (sync_aberrant_is_rejected 1700000000 tref_zero 1000000
           (mk_timespec 100 0) (mk_timespec 200 0) (mk_aber_hist true false) H).
  reflexivity.
Defined.

(** C4, as stated, fails on a stored [xtal_err] equal to a bound: 1.00001
    is not in the open interval, yet the third aberrant sync in a row keeps
    it instead of resetting it to 1.0. *)
Lemma sync_reset_keeps_xtal_err_on_bound :
  aberrant_spec tref_on_bound 1000000 (mk_timespec 100 0) = true /\
  in_window (xtal_err tref_on_bound) = false /\
  lgw_gps_sync 1700000100 (Some tref_on_bound) 1000000
    (mk_timespec 100 0) (mk_timespec 200 0) (mk_aber_hist true true)
  = (LGW_GPS_SUCCESS,
     Some (mk_tref 1700000100 1000000 (mk_timespec 100 0) (mk_timespec 200 0)
             PLUS_10PPM),
     mk_aber_hist true true) /\
  (PLUS_10PPM =? 1)%float = false.
Proof.
  repeat split; vm_compute; reflexivity.
Qed.

(** C4 (amended). When the sample is aberrant as the code tests it and the
    two previous attempts were both aberrant, the call returns success and
    commits systime, count_us, utc and gps from the new sample; [xtal_err]
    is left unchanged unless its stored value is strictly above 1.00001 or
    strictly below 0.99999, in which case it becomes 1.0. *)
Theorem sync_third_aberrant_reanchors
  (now : Z) (ref : tref) (cnt : Z) (t gt : timespec) (h : aber_hist) :
  aberrant_strict ref cnt t ->
  aber_min1 h = true ->
  aber_min2 h = true ->
  lgw_gps_sync now (Some ref) cnt t gt h
  = (LGW_GPS_SUCCESS,
     Some (mk_tref now cnt t gt
             (if (PLUS_10PPM <? xtal_err ref)%float
                 || (xtal_err ref <? MINUS_10PPM)%float
              then 1%float else xtal_err ref)),
     mk_aber_hist true true).
Proof.
  intros Hab H1 H2. unfold lgw_gps_sync.
  rewrite (aberrant_strict_aber_n0 _ _ _ Hab), H1, H2. reflexivity.
Qed.

Lemma sync_third_aberrant_reanchors_witness :
  aberrant_strict tref_zero 1000000 (mk_timespec 100 0) /\
  lgw_gps_sync 1700000000 (Some tref_zero) 1000000
    (mk_timespec 100 0) (mk_timespec 200 0) (mk_aber_hist true true)
  = (LGW_GPS_SUCCESS,
     Some (mk_tref 1700000000 1000000 (mk_timespec 100 0) (mk_timespec 200 0)
             1%float),
     mk_aber_hist true true).
Proof.
  assert (H : aberrant_strict tref_zero 1000000 (mk_timespec 100 0))
    by (right; right; vm_compute; reflexivity).
  split; [exact H |].
  apply (sync_third_aberrant_reanchors 1700000000 tref_zero 1000000
           (mk_timespec 100 0) (mk_timespec 200 0) (mk_aber_hist true true) H);
    reflexivity.
Defined.




(* ------------------------------------------------------------------------- *)
(** ** The four conversions *)

Lemma ref_refused_strict (ref : tref) :
  ref_refused ref = true <-> refused_strict ref.
Proof.
  unfold ref_refused, refused_strict, out_of_range.
  rewrite !orb_true_iff, Z.eqb_eq. reflexivity.
Qed.

Lemma guarded_by_ref_refused {A : Type} (ref : tref) (old v : A) :
  guarded_by (refused_strict ref) old
    (if ref_refused ref then (LGW_GPS_ERROR, Some old)
     else (LGW_GPS_SUCCESS, Some v)).
Proof.
  unfold guarded_by. rewrite <- ref_refused_strict.
  destruct (ref_refused ref); cbn; repeat split; congruence.
Qed.

(** C6, as stated, fails on [xtal_err] equal to a bound: 1.00001 is not in
    the open interval (0.99999, 1.00001), yet with a non-zero [systime] the
    four conversions return success. *)
Lemma conversions_accept_xtal_err_on_bound :
  systime tref_on_bound <> 0 /\
  in_window (xtal_err tref_on_bound) = false /\
  fst (lgw_cnt2utc tref_on_bound 1000000 (Some (mk_timespec 0 0)))
  = LGW_GPS_SUCCESS /\
  fst (lgw_utc2cnt tref_on_bound (mk_timespec 1 0) (Some 0))
  = LGW_GPS_SUCCESS /\
  fst (lgw_cnt2gps tref_on_bound 1000000 (Some (mk_timespec 0 0)))
  = LGW_GPS_SUCCESS /\
  fst (lgw_gps2cnt tref_on_bound (mk_timespec 1 0) (Some 0))
  = LGW_GPS_SUCCESS.
Proof.
  repeat split; vm_compute; congruence.
Qed.

(** C6 (amended). Given a non-null output pointer, each of the four
    conversions returns the error value, without writing the output, if and
    only if [ref.systime == 0] or [ref.xtal_err] is strictly above 1.00001
    or strictly below 0.99999 (a value equal to a bound is accepted);
    otherwise it returns success. *)
Theorem conversions_guard
  (ref : tref) (cnt : Z) (t out_t : timespec) (out_c : Z) :
  guarded_by (refused_strict ref) out_t (lgw_cnt2utc ref cnt (Some out_t)) /\
  guarded_by (refused_strict ref) out_c (lgw_utc2cnt ref t (Some out_c)) /\
  guarded_by (refused_strict ref) out_t (lgw_cnt2gps ref cnt (Some out_t)) /\
  guarded_by (refused_strict ref) out_c (lgw_gps2cnt ref t (Some out_c)).
Proof.
  unfold lgw_cnt2utc, lgw_utc2cnt, lgw_cnt2gps, lgw_gps2cnt.
  split; [| split; [| split]]; apply guarded_by_ref_refused.
Qed.

(* ------------------------------------------------------------------------- *)
(** ** Rounding of binary64 operations *)

(** [digits2_pos p] is the number of binary digits of [p]. *)
Lemma digits2_pos_bounds (p : positive) :
  2 ^ (Z.pos (digits2_pos p) - 1) <= Z.pos p < 2 ^ Z.pos (digits2_pos p).
Proof.
  induction p as [p IH | p IH |]; cbn [digits2_pos].
  - rewrite Pos2Z.inj_succ, (Pos2Z.inj_xI p).
    replace (Z.succ (Z.pos (digits2_pos p)) - 1) with (Z.succ (Z.pos (digits2_pos p) - 1)) by lia.
    rewrite !Z.pow_succ_r by lia.
    set (a := 2 ^ (Z.pos (digits2_pos p) - 1)) in *.
    set (b := 2 ^ Z.pos (digits2_pos p)) in *. clearbody a b. lia.
  - rewrite Pos2Z.inj_succ, (Pos2Z.inj_xO p).
    replace (Z.succ (Z.pos (digits2_pos p)) - 1) with (Z.succ (Z.pos (digits2_pos p) - 1)) by lia.
    rewrite !Z.pow_succ_r by lia.
    set (a := 2 ^ (Z.pos (digits2_pos p) - 1)) in *.
    set (b := 2 ^ Z.pos (digits2_pos p)) in *. clearbody a b. lia.
  - cbn. lia.
Qed.

Lemma digits2_pos_unique (p : positive) (k : Z) :
  2 ^ (k - 1) <= Z.pos p < 2 ^ k -> Z.pos (digits2_pos p) = k.
Proof.
  intros [Hlo Hhi].
  pose proof (digits2_pos_bounds p) as [Dlo Dhi].
  set (d := Z.pos (digits2_pos p)) in *.
  assert (0 < d) by (subst d; lia).
  destruct (Z.lt_trichotomy d k) as [Hlt | [Heq | Hgt]]; [| exact Heq |].
  - exfalso. assert (2 ^ d <= 2 ^ (k - 1)) by (apply Z.pow_le_mono_r; lia). lia.
  - exfalso.
    destruct (Z.le_gt_cases 0 k) as [Hk | Hk].
    + assert (2 ^ k <= 2 ^ (d - 1)) by (apply Z.pow_le_mono_r; lia). lia.
    + rewrite (Z.pow_neg_r 2 k) in Hhi by lia. lia.
Qed.

(** One right shift halves the mantissa; [n] of them divide it by [2^n]. *)
Lemma shr_1_m (r : shr_record) :
  0 <= shr_m r -> shr_m (shr_1 r) = shr_m r / 2 /\ 0 <= shr_m (shr_1 r).
Proof.
  destruct r as [m r s]. cbn [shr_m]. intros Hm.
  destruct m as [| p | p]; [cbn; split; [reflexivity | lia] | | lia].
  destruct p as [p | p |]; cbn [shr_1 shr_m].
  - split; [| lia]. rewrite (Pos2Z.inj_xI p). apply Z.div_unique with (r := 1); lia.
  - split; [| lia]. rewrite (Pos2Z.inj_xO p). apply Z.div_unique with (r := 0); lia.
  - split; [reflexivity | lia].
Qed.

Lemma iter_pos_shr_1 (p : positive) :
  forall r, 0 <= shr_m r ->
    shr_m (SpecFloat.iter_pos shr_1 p r) = shr_m r / 2 ^ Z.pos p
    /\ 0 <= shr_m (SpecFloat.iter_pos shr_1 p r).
Proof.
  induction p as [p IH | p IH |]; intros r Hr; cbn [SpecFloat.iter_pos].
  - destruct (shr_1_m r Hr) as [E1 P1].
    destruct (IH _ P1) as [E2 P2].
    destruct (IH _ P2) as [E3 P3].
    split; [| exact P3].
    rewrite E3, E2, E1.
    rewrite !Z.div_div by lia. f_equal.
    rewrite (Pos2Z.inj_xI p), Z.pow_add_r, Z.pow_mul_r by lia.
    change (2 ^ 2) with 4. change (2 ^ 1) with 2.
    replace (4 ^ Z.pos p) with (2 ^ Z.pos p * 2 ^ Z.pos p).
    + lia.
    + rewrite <- Z.pow_add_r by lia. replace (Z.pos p + Z.pos p) with (2 * Z.pos p) by lia.
      rewrite Z.pow_mul_r by lia. reflexivity.
  - destruct (IH _ Hr) as [E2 P2].
    destruct (IH _ P2) as [E3 P3].
    split; [| exact P3].
    rewrite E3, E2.
    rewrite !Z.div_div by lia. f_equal.
    rewrite (Pos2Z.inj_xO p).
    rewrite <- Z.pow_add_r by lia. f_equal. lia.
  - apply shr_1_m. exact Hr.
Qed.

Lemma shr_record_of_loc_m m l : shr_m (shr_record_of_loc m l) = m.
Proof. destruct l as [| []]; reflexivity. Qed.

Lemma round_nearest_even_cases mx lx :
  round_nearest_even mx lx = mx \/ round_nearest_even mx lx = mx + 1.
Proof.
  destruct lx as [| []]; cbn; auto. destruct (Z.even mx); auto.
Qed.

Lemma fexp_normal (e : Z) : -1021 <= e -> fexp prec emax e = e - 53.
Proof.
  intros H. unfold fexp, emin, prec, emax. lia.
Qed.

Lemma shr_m_shr (r : shr_record) (e n : Z) :
  0 <= shr_m r -> 0 <= n ->
  shr_m (fst (shr r e n)) = shr_m r / 2 ^ n /\ snd (shr r e n) = e + n.
Proof.
  intros Hr Hn. unfold shr.
  destruct n as [| p | p]; [| | lia].
  - cbn [fst snd]. rewrite Z.pow_0_r, Z.div_1_r. split; [reflexivity | lia].
  - cbn [fst snd]. split; [apply iter_pos_shr_1; exact Hr | reflexivity].
Qed.

Lemma div_pow2_normal (m dg : Z) :
  53 <= dg -> 2 ^ (dg - 1) <= m < 2 ^ dg ->
  2 ^ 52 <= m / 2 ^ (dg - 53) < 2 ^ 53.
Proof.
  intros Hdg [Hlo Hhi].
  assert (Hp : 0 < 2 ^ (dg - 53)) by (apply Z.pow_pos_nonneg; lia).
  assert (E1 : 2 ^ (dg - 1) = 2 ^ 52 * 2 ^ (dg - 53)).
  { rewrite <- Z.pow_add_r by lia. f_equal. lia. }
  assert (E2 : 2 ^ dg = 2 ^ 53 * 2 ^ (dg - 53)).
  { rewrite <- Z.pow_add_r by lia. f_equal. lia. }
  split.
  - apply Z.div_le_lower_bound; [exact Hp |]. rewrite Z.mul_comm. rewrite <- E1. exact Hlo.
  - apply Z.div_lt_upper_bound; [exact Hp |]. rewrite Z.mul_comm. rewrite <- E2. exact Hhi.
Qed.

(** The result of rounding a positive mantissa of at least 53 digits. *)
Lemma binary_round_aux_spec
  (sx : bool) (mx : positive) (ex : Z) (lx : location) :
  let dg := Z.pos (digits2_pos mx) in
  let n := dg - 53 in
  let qv := Z.pos mx / 2 ^ n in
  53 <= dg -> -1021 <= dg + ex -> dg + ex <= 1020 ->
  exists m' e',
    binary_round_aux prec emax sx (Z.pos mx) ex lx = S754_finite sx m' e'
    /\ Z.pos (digits2_pos m') = 53
    /\ ((e' = ex + n /\ (Z.pos m' = qv \/ Z.pos m' = qv + 1))
        \/ (e' = ex + n + 1 /\ Z.pos m' = 2 ^ 52 /\ qv + 1 = 2 ^ 53))
    /\ (lx = loc_Exact -> n = 0 -> m' = mx /\ e' = ex).
Proof.
  intros dg n qv Hdg Hlo Hhi.
  pose proof (digits2_pos_bounds mx) as Hb. fold dg in Hb.
  pose proof (div_pow2_normal (Z.pos mx) dg Hdg Hb) as Hq. fold n qv in Hq.
  unfold binary_round_aux.
  (* first shift *)
  unfold shr_fexp at 1. cbn [Zdigits2]. fold dg.
  rewrite fexp_normal by lia.
  replace (dg + ex - 53 - ex) with n by (unfold n; lia).
  assert (Hn : 0 <= n) by (unfold n; lia).
  pose proof (shr_m_shr (shr_record_of_loc (Z.pos mx) lx) ex n) as Hs.
  rewrite shr_record_of_loc_m in Hs. specialize (Hs ltac:(lia) Hn).
  destruct (shr (shr_record_of_loc (Z.pos mx) lx) ex n) as [mrs' e1] eqn:Eshr.
  cbn [fst snd] in Hs. destruct Hs as [Hm1 He1]. fold qv in Hm1.
  (* rounding *)
  set (m1 := round_nearest_even (shr_m mrs') (loc_of_shr_record mrs')).
  assert (Hm1c : m1 = qv \/ m1 = qv + 1).
  { unfold m1. rewrite <- Hm1. apply round_nearest_even_cases. }
  assert (Hm1pos : 0 < m1) by (change (2 ^ 52) with 4503599627370496 in Hq; lia).
  destruct m1 as [| pm | pm] eqn:Em1; [lia | | lia].
  (* second shift *)
  unfold shr_fexp. cbn [Zdigits2].
  destruct (Z.eq_dec (Z.pos pm) (2 ^ 53)) as [Htop | Hntop].
  - (* the mantissa reached 2^53 *)
    assert (Hd : Z.pos (digits2_pos pm) = 54).
    { apply digits2_pos_unique. rewrite Htop. cbn. lia. }
    rewrite Hd. rewrite fexp_normal by lia.
    replace (54 + e1 - 53 - e1) with 1 by lia.
    cbn [shr shr_record_of_loc SpecFloat.iter_pos].
    injection Htop as ->. cbn [shr_1 shr_m].
    assert (Hle : (e1 + 1 <=? emax - prec) = true).
    { apply Z.leb_le. unfold emax, prec. lia. }
    rewrite Hle.
    eexists _, _. split; [reflexivity |]. split; [reflexivity |].
    split.
    + right. split; [lia |]. split; [reflexivity |].
      destruct Hm1c as [H | H]; [| lia].
      change (2 ^ 53) with 9007199254740992 in Hq. lia.
    + intros -> Hn0. exfalso.
      rewrite Hn0 in *. cbn in Eshr. injection Eshr as <- <-.
      unfold m1 in Em1. cbn in Em1.
      assert (Z.pos mx = qv) by (unfold qv; rewrite Hn0, Z.pow_0_r, Z.div_1_r; reflexivity).
      change (2 ^ 53) with 9007199254740992 in Hq. lia.
  - assert (Hd : Z.pos (digits2_pos pm) = 53).
    { apply digits2_pos_unique.
      change (2 ^ 53) with 9007199254740992 in *.
      change (2 ^ (53 - 1)) with 4503599627370496.
      change (2 ^ 52) with 4503599627370496 in *. lia. }
    rewrite Hd. rewrite fexp_normal by lia.
    replace (53 + e1 - 53 - e1) with 0 by lia.
    cbn [shr shr_record_of_loc shr_m].
    assert (Hle : (e1 <=? emax - prec) = true).
    { apply Z.leb_le. unfold emax, prec. lia. }
    rewrite Hle.
    eexists _, _. split; [reflexivity |]. split; [exact Hd |].
    split.
    + left. split; [lia | exact Hm1c].
    + intros -> Hn0.
      rewrite Hn0 in *. cbn in Eshr. injection Eshr as <- <-.
      unfold m1 in Em1. cbn in Em1. injection Em1 as ->. split; [reflexivity | lia].
Qed.

Section Binary64Analysis.

Local Open Scope R_scope.

Lemma bpow_pos (e : Z) : 0 < bpow e.
Proof. apply powerRZ_lt. lra. Qed.

Lemma bpow_add (a b : Z) : bpow (a + b) = bpow a * bpow b.
Proof. apply powerRZ_add. lra. Qed.

Lemma bpow_IZR (n : Z) : (0 <= n)%Z -> bpow n = IZR (2 ^ n).
Proof.
  intros Hn. unfold bpow.
  rewrite <- (Z2Nat.id n) by exact Hn.
  rewrite <- pow_powerRZ, <- pow_IZR. reflexivity.
Qed.

Lemma bpow_1 : bpow 1 = 2.
Proof. unfold bpow. apply powerRZ_1. Qed.

Lemma bpow_0 : bpow 0 = 1.
Proof. reflexivity. Qed.

(** Real-valued reading of [binary_round_aux_spec]: a value [V] located
    between [mx] and [mx + 1] units is rounded with a relative error of at
    most [eps]. *)
Lemma binary_round_aux_R
  (sx : bool) (mx : positive) (ex : Z) (lx : location) (V : R) :
  let dg := Z.pos (digits2_pos mx) in
  (53 <= dg)%Z -> (-1021 <= dg + ex)%Z -> (dg + ex <= 1020)%Z ->
  IZR (Z.pos mx) * bpow ex <= V < (IZR (Z.pos mx) + 1) * bpow ex ->
  exists m' e',
    binary_round_aux prec emax sx (Z.pos mx) ex lx = S754_finite sx m' e'
    /\ Z.pos (digits2_pos m') = 53%Z
    /\ (ex + dg - 53 <= e' <= ex + dg - 52)%Z
    /\ Rabs (IZR (Z.pos m') * bpow e' - V) <= eps * V
    /\ (lx = loc_Exact -> dg = 53%Z -> m' = mx /\ e' = ex).
Proof.
  intros dg Hdg Hlo Hhi HV.
  destruct (binary_round_aux_spec sx mx ex lx Hdg Hlo Hhi)
    as (m' & e' & Heq & Hd' & Hcases & Hexact).
  fold dg in Hcases, Hexact.
  exists m', e'. split; [exact Heq |]. split; [exact Hd' |].
  set (n := (dg - 53)%Z) in *.
  set (qv := (Z.pos mx / 2 ^ n)%Z) in *.
  assert (Hn : (0 <= n)%Z) by (unfold n; lia).
  pose proof (digits2_pos_bounds mx) as Hb. fold dg in Hb.
  pose proof (div_pow2_normal (Z.pos mx) dg Hdg Hb) as Hq. fold n qv in Hq.
  assert (Hp : (0 < 2 ^ n)%Z) by (apply Z.pow_pos_nonneg; lia).
  assert (Hdiv : (qv * 2 ^ n <= Z.pos mx < (qv + 1) * 2 ^ n)%Z).
  { pose proof (Z.div_mod (Z.pos mx) (2 ^ n) ltac:(lia)) as E.
    pose proof (Z.mod_pos_bound (Z.pos mx) (2 ^ n) Hp) as B.
    fold qv in E. nia. }
  (* V lies between qv and qv+1 units of bpow (ex + n) *)
  assert (HU : bpow (ex + n) = bpow ex * IZR (2 ^ n)).
  { rewrite bpow_add, (bpow_IZR n Hn). reflexivity. }
  pose proof (bpow_pos ex) as Hbe.
  pose proof (bpow_pos (ex + n)) as Hbu.
  assert (HVlo : IZR qv * bpow (ex + n) <= V).
  { apply Rle_trans with (IZR (Z.pos mx) * bpow ex); [| apply HV].
    rewrite HU.
    replace (IZR qv * (bpow ex * IZR (2 ^ n))) with (IZR (qv * 2 ^ n) * bpow ex)
      by (rewrite mult_IZR; ring).
    apply Rmult_le_compat_r; [lra |]. apply IZR_le. lia. }
  assert (HVhi : V < (IZR qv + 1) * bpow (ex + n)).
  { apply Rlt_le_trans with ((IZR (Z.pos mx) + 1) * bpow ex); [apply HV |].
    rewrite HU.
    replace ((IZR qv + 1) * (bpow ex * IZR (2 ^ n)))
      with (IZR ((qv + 1) * 2 ^ n) * bpow ex)
      by (rewrite mult_IZR, plus_IZR; ring).
    apply Rmult_le_compat_r; [lra |].
    rewrite <- plus_IZR. apply IZR_le. lia. }
  assert (Hq52 : 4503599627370496 <= IZR qv).
  { apply IZR_le. change (2 ^ 52)%Z with 4503599627370496%Z in Hq. lia. }
  assert (Hval : IZR (Z.pos m') * bpow e' = IZR qv * bpow (ex + n)
                 \/ IZR (Z.pos m') * bpow e' = (IZR qv + 1) * bpow (ex + n)).
  { destruct Hcases as [[He [Hm | Hm]] | (He & Hm & Htop)].
    - left. rewrite Hm, He. reflexivity.
    - right. rewrite Hm, He, plus_IZR. reflexivity.
    - right. rewrite Hm, He.
      replace (IZR qv + 1) with (IZR (qv + 1)) by (rewrite plus_IZR; reflexivity).
      rewrite Htop.
      rewrite (bpow_add (ex + n) 1), bpow_1.
      change (2 ^ 52)%Z with 4503599627370496%Z.
      change (2 ^ 53)%Z with 9007199254740992%Z. lra. }
  split.
  { destruct Hcases as [[He _] | (He & _ & _)]; unfold n in He; lia. }
  split.
  - unfold eps.
    assert (Hu : bpow (ex + n) <= / 4503599627370496 * V).
    { apply Rmult_le_reg_l with 4503599627370496; [lra |].
      rewrite <- Rmult_assoc, Rinv_r, Rmult_1_l by lra.
      apply Rle_trans with (IZR qv * bpow (ex + n)); [| exact HVlo].
      apply Rmult_le_compat_r; lra. }
    apply Rabs_le. destruct Hval as [-> | ->]; split; nra.
  - intros Hl Hd. apply Hexact; [exact Hl | unfold n; lia].
Qed.

Lemma pos_iter_xO (m d : positive) :
  Z.pos (Pos.iter xO m d) = (Z.pos m * 2 ^ Z.pos d)%Z.
Proof.
  induction d as [| d IH] using Pos.peano_ind.
  - cbn. lia.
  - rewrite Pos.iter_succ, Pos2Z.inj_succ, Z.pow_succ_r by lia.
    rewrite (Pos2Z.inj_xO (Pos.iter xO m d)), IH. ring.
Qed.

Lemma shl_align_spec (mx : positive) (ex ex' : Z) :
  (ex' <= ex)%Z ->
  snd (shl_align mx ex ex') = ex'
  /\ Z.pos (fst (shl_align mx ex ex')) = (Z.pos mx * 2 ^ (ex - ex'))%Z.
Proof.
  intros H. unfold shl_align.
  destruct (ex' - ex)%Z as [| d | d] eqn:E; [| lia |].
  - cbn [fst snd]. replace (ex - ex')%Z with 0%Z by lia.
    split; [lia | rewrite Z.pow_0_r; lia].
  - cbn [fst snd]. split; [reflexivity |].
    rewrite pos_iter_xO. f_equal. f_equal. lia.
Qed.

Lemma shl_align_id (mx : positive) (ex ex' : Z) :
  (ex <= ex')%Z -> shl_align mx ex ex' = (mx, ex).
Proof.
  intros H. unfold shl_align.
  destruct (ex' - ex)%Z as [| d | d] eqn:E; [reflexivity | reflexivity | lia].
Qed.

(** [binary_round] of any positive mantissa: exact up to 53 digits, within
    [eps] beyond. *)
Lemma binary_round_R (sx : bool) (mx : positive) (ex : Z) :
  let dg := Z.pos (digits2_pos mx) in
  (-1021 <= dg + ex)%Z -> (dg + ex <= 1020)%Z ->
  exists m' e',
    binary_round prec emax sx mx ex = S754_finite sx m' e'
    /\ Z.pos (digits2_pos m') = 53%Z
    /\ (ex + dg - 53 <= e' <= ex + dg - 52)%Z
    /\ Rabs (IZR (Z.pos m') * bpow e' - IZR (Z.pos mx) * bpow ex)
       <= eps * (IZR (Z.pos mx) * bpow ex)
    /\ ((dg <= 53)%Z -> IZR (Z.pos m') * bpow e' = IZR (Z.pos mx) * bpow ex).
Proof.
  intros dg Hlo Hhi.
  pose proof (digits2_pos_bounds mx) as Hb. fold dg in Hb.
  assert (Hdgpos : (0 < dg)%Z) by (unfold dg; lia).
  pose proof (bpow_pos ex) as Hbe.
  assert (Hvpos : 0 < IZR (Z.pos mx) * bpow ex).
  { apply Rmult_lt_0_compat; [apply IZR_lt; lia | exact Hbe]. }
  unfold binary_round. fold dg. rewrite fexp_normal by lia.
  destruct (Z_lt_le_dec dg 53) as [Hsmall | Hbig].
  - (* fewer than 53 digits: the mantissa is shifted left, exactly *)
    destruct (shl_align_spec mx ex (dg + ex - 53) ltac:(lia)) as [He Hm].
    destruct (shl_align mx ex (dg + ex - 53)) as [mz ez]. cbn [fst snd] in He, Hm.
    subst ez. replace (ex - (dg + ex - 53))%Z with (53 - dg)%Z in Hm by lia.
    assert (Hdz : Z.pos (digits2_pos mz) = 53%Z).
    { apply digits2_pos_unique. rewrite Hm.
      replace (2 ^ (53 - 1))%Z with (2 ^ (dg - 1) * 2 ^ (53 - dg))%Z
        by (rewrite <- Z.pow_add_r by lia; f_equal; lia).
      replace (2 ^ 53)%Z with (2 ^ dg * 2 ^ (53 - dg))%Z
        by (rewrite <- Z.pow_add_r by lia; f_equal; lia).
      assert (0 < 2 ^ (53 - dg))%Z by (apply Z.pow_pos_nonneg; lia).
      nia. }
    assert (HV : IZR (Z.pos mz) * bpow (dg + ex - 53) = IZR (Z.pos mx) * bpow ex).
    { rewrite Hm, mult_IZR, <- (bpow_IZR (53 - dg)) by lia.
      rewrite Rmult_assoc, <- bpow_add. do 2 f_equal. lia. }
    destruct (binary_round_aux_R sx mz (dg + ex - 53) loc_Exact
                (IZR (Z.pos mz) * bpow (dg + ex - 53)))
      as (m' & e' & Heq & Hd' & He' & Herr & Hexact).
    + lia.
    + lia.
    + lia.
    + pose proof (bpow_pos (dg + ex - 53)). split; [lra | nra].
    + destruct (Hexact eq_refl Hdz) as [-> ->].
      exists mz, (dg + ex - 53)%Z.
      split; [exact Heq |]. split; [exact Hdz |]. split; [lia |].
      split; [| intros _; exact HV].
      rewrite HV, Rminus_diag, Rabs_R0.
      apply Rmult_le_pos; [unfold eps; lra | lra].
  - rewrite shl_align_id by lia.
    destruct (binary_round_aux_R sx mx ex loc_Exact (IZR (Z.pos mx) * bpow ex))
      as (m' & e' & Heq & Hd' & He' & Herr & Hexact).
    + exact Hbig.
    + lia.
    + lia.
    + split; [lra | nra].
    + exists m', e'. fold dg in He', Hexact.
      split; [exact Heq |]. split; [exact Hd' |]. split; [exact He' |].
      split; [exact Herr |].
      intros Hle. assert (Hd53 : dg = 53%Z) by lia.
      destruct (Hexact eq_refl Hd53) as [-> ->]. reflexivity.
Qed.

Lemma sf_bounded_weaken (B B' : Z) (f : spec_float) : (B <= B')%Z -> sf_bounded B f -> sf_bounded B' f.
Proof.
  intros H. destruct f as [s | s | | s m e]; cbn; try tauto.
  intros [Hd He]. split; [exact Hd | lia].
Qed.

Lemma sgn_xorb (a b : bool) : sgn (xorb a b) = sgn a * sgn b.
Proof. destruct a, b; cbn; lra. Qed.

Lemma Rabs_sgn_mul (s : bool) (x : R) : Rabs (sgn s * x) = Rabs x.
Proof.
  destruct s; cbn.
  - replace (-1 * x) with (- x) by ring. apply Rabs_Ropp.
  - now rewrite Rmult_1_l.
Qed.

Lemma mant53 (m : positive) :
  Z.pos (digits2_pos m) = 53%Z ->
  (4503599627370496 <= Z.pos m < 9007199254740992)%Z.
Proof.
  intros H. pose proof (digits2_pos_bounds m) as Hb. rewrite H in Hb.
  exact Hb.
Qed.

Lemma digits_between (p : positive) (a b : Z) :
  (0 <= a)%Z -> (2 ^ a <= Z.pos p < 2 ^ b)%Z ->
  (a < Z.pos (digits2_pos p) <= b)%Z.
Proof.
  intros Ha [Hlo Hhi].
  pose proof (digits2_pos_bounds p) as [Dlo Dhi].
  set (d := Z.pos (digits2_pos p)) in *.
  assert (0 < d)%Z by (unfold d; lia).
  split.
  - apply (Z.pow_lt_mono_r_iff 2); lia.
  - destruct (Z.le_gt_cases d b) as [Hle | Hgt]; [exact Hle | exfalso].
    assert (2 ^ b <= 2 ^ (d - 1))%Z by (apply Z.pow_le_mono_r; lia). lia.
Qed.

(** The four operations on bounded numbers: the result is bounded and
    within the relative error [eps] of the exact result. *)
Lemma SFmul_R (B1 B2 : Z) (x y : spec_float) :
  sf_bounded B1 x -> sf_bounded B2 y -> (0 <= B1)%Z -> (0 <= B2)%Z -> (B1 + B2 <= 900)%Z ->
  sf_bounded (B1 + B2 + 54) (SFmul prec emax x y)
  /\ Rabs (SF2R (SFmul prec emax x y) - SF2R x * SF2R y)
     <= eps * Rabs (SF2R x * SF2R y).
Proof.
  intros Hx Hy HB1 HB2 HB.
  assert (Hz : forall v, v = 0 -> Rabs (0 - v) <= eps * Rabs v).
  { intros v ->. rewrite Rminus_diag, Rabs_R0. lra. }
  destruct x as [sx | sx | | sx mx ex], y as [sy | sy | | sy my ey];
    cbn [sf_bounded] in Hx, Hy; try contradiction; cbn [SFmul SF2R sf_bounded].
  - split; [exact I | apply Hz; ring].
  - split; [exact I | apply Hz; ring].
  - split; [exact I | apply Hz; ring].
  - destruct Hx as [Hdx Hex], Hy as [Hdy Hey].
    pose proof (mant53 mx Hdx) as Hmx. pose proof (mant53 my Hdy) as Hmy.
    assert (Hdp : (104 < Z.pos (digits2_pos (mx * my)) <= 106)%Z).
    { apply digits_between; [lia |]. rewrite Pos2Z.inj_mul.
      change (2 ^ 104)%Z with (4503599627370496 * 4503599627370496)%Z.
      change (2 ^ 106)%Z with (9007199254740992 * 9007199254740992)%Z.
      nia. }
    destruct (binary_round_aux_R (xorb sx sy) (mx * my) (ex + ey) loc_Exact
                (IZR (Z.pos (mx * my)) * bpow (ex + ey)))
      as (m' & e' & Heq & Hd' & He' & Herr & _).
    + lia.
    + lia.
    + lia.
    + pose proof (bpow_pos (ex + ey)). split; [lra | nra].
    + rewrite Heq. cbn [sf_bounded SF2R]. split; [split; [exact Hd' | lia] |].
      rewrite sgn_xorb.
      replace (sgn sx * sgn sy * (IZR (Z.pos m') * bpow e')
               - sgn sx * (IZR (Z.pos mx) * bpow ex) * (sgn sy * (IZR (Z.pos my) * bpow ey)))
        with (sgn sx * (sgn sy * (IZR (Z.pos m') * bpow e'
                                  - IZR (Z.pos (mx * my)) * bpow (ex + ey))))
        by (rewrite Pos2Z.inj_mul, mult_IZR, bpow_add; ring).
      replace (sgn sx * (IZR (Z.pos mx) * bpow ex) * (sgn sy * (IZR (Z.pos my) * bpow ey)))
        with (sgn sx * (sgn sy * (IZR (Z.pos (mx * my)) * bpow (ex + ey))))
        by (rewrite Pos2Z.inj_mul, mult_IZR, bpow_add; ring).
      rewrite !Rabs_sgn_mul.
      rewrite (Rabs_pos_eq (IZR (Z.pos (mx * my)) * bpow (ex + ey))); [exact Herr |].
      pose proof (bpow_pos (ex + ey)).
      apply Rmult_le_pos; [apply IZR_le; lia | lra].
Qed.

Lemma SFdiv_core_normal (mx my : positive) (ex ey : Z) :
  Z.pos (digits2_pos mx) = 53%Z -> Z.pos (digits2_pos my) = 53%Z ->
  (-1021 <= ex - ey)%Z ->
  SFdiv_core_binary prec emax (Z.pos mx) ex (Z.pos my) ey
  = ((Z.pos mx * 2 ^ 53 / Z.pos my)%Z, (ex - ey - 53)%Z,
     new_location (Z.pos my) (Z.pos mx * 2 ^ 53 mod Z.pos my)%Z).
Proof.
  intros Hdx Hdy Hr. unfold SFdiv_core_binary. cbn [Zdigits2].
  rewrite Hdx, Hdy.
  replace (53 + ex - (53 + ey))%Z with (ex - ey)%Z by lia.
  rewrite fexp_normal by lia.
  rewrite Z.min_l by lia.
  replace (ex - ey - (ex - ey - 53))%Z with 53%Z by lia.
  cbv iota beta zeta.
  rewrite Z.shiftl_mul_pow2 by lia.
  unfold Z.div, Z.modulo.
  destruct (Z.div_eucl (Z.pos mx * 2 ^ 53) (Z.pos my)) as [q r].
  reflexivity.
Qed.

Lemma SFdiv_R (B1 B2 : Z) (x y : spec_float) :
  sf_bounded B1 x -> sf_bounded B2 y -> SF2R y <> 0 ->
  (0 <= B1)%Z -> (0 <= B2)%Z -> (B1 + B2 <= 900)%Z ->
  sf_bounded (B1 + B2 + 54) (SFdiv prec emax x y)
  /\ Rabs (SF2R (SFdiv prec emax x y) - SF2R x / SF2R y)
     <= eps * Rabs (SF2R x / SF2R y).
Proof.
  intros Hx Hy Hy0 HB1 HB2 HB.
  destruct y as [sy | sy | | sy my ey]; cbn [sf_bounded] in Hy; try contradiction.
  destruct x as [sx | sx | | sx mx ex]; cbn [sf_bounded] in Hx; try contradiction.
  { cbn [SFdiv SF2R sf_bounded]. split; [exact I |].
    unfold Rdiv. rewrite Rmult_0_l, Rminus_diag, Rabs_R0. lra. }
  destruct Hx as [Hdx Hex], Hy as [Hdy Hey].
  pose proof (mant53 mx Hdx) as Hmx. pose proof (mant53 my Hdy) as Hmy.
  cbn [SFdiv]. rewrite (SFdiv_core_normal mx my ex ey Hdx Hdy) by lia.
  set (q := (Z.pos mx * 2 ^ 53 / Z.pos my)%Z).
  set (r := (Z.pos mx * 2 ^ 53 mod Z.pos my)%Z).
  pose proof (Z.div_mod (Z.pos mx * 2 ^ 53) (Z.pos my) ltac:(lia)) as Edm.
  pose proof (Z.mod_pos_bound (Z.pos mx * 2 ^ 53) (Z.pos my) ltac:(lia)) as Bm.
  fold q r in Edm, Bm.
  change (2 ^ 53)%Z with 9007199254740992%Z in *.
  assert (Hq : (4503599627370496 <= q < 18014398509481984)%Z) by nia.
  destruct q as [| pq | pq] eqn:Eq; [lia | | lia].
  assert (Hdq : (52 < Z.pos (digits2_pos pq) <= 54)%Z).
  { apply digits_between; [lia |].
    change (2 ^ 52)%Z with 4503599627370496%Z.
    change (2 ^ 54)%Z with 18014398509481984%Z. lia. }
  pose proof (bpow_pos (ex - ey - 53)) as Hbp.
  pose proof (bpow_pos ex) as Hbx. pose proof (bpow_pos ey) as Hby.
  set (V := IZR (Z.pos mx) * bpow ex / (IZR (Z.pos my) * bpow ey)).
  assert (Hmyr : 0 < IZR (Z.pos my)) by (apply IZR_lt; lia).
  assert (HVeq : V = IZR (Z.pos mx * 9007199254740992) / IZR (Z.pos my)
                     * bpow (ex - ey - 53)).
  { unfold V.
    replace ex with ((ex - ey - 53) + 53 + ey)%Z at 1 by lia.
    rewrite !bpow_add, (bpow_IZR 53) by lia.
    change (2 ^ 53)%Z with 9007199254740992%Z.
    rewrite mult_IZR. field. split; lra. }
  assert (HVb : IZR (Z.pos pq) * bpow (ex - ey - 53) <= V
                < (IZR (Z.pos pq) + 1) * bpow (ex - ey - 53)).
  { rewrite HVeq, Edm, plus_IZR, mult_IZR.
    assert (0 <= IZR r < IZR (Z.pos my)) by (split; [apply IZR_le | apply IZR_lt]; lia).
    replace ((IZR (Z.pos my) * IZR (Z.pos pq) + IZR r) / IZR (Z.pos my))
      with (IZR (Z.pos pq) + IZR r / IZR (Z.pos my)) by (field; lra).
    assert (0 <= IZR r / IZR (Z.pos my) < 1).
    { split.
      - apply Rmult_le_pos; [lra | left; apply Rinv_0_lt_compat; lra].
      - apply Rmult_lt_reg_r with (IZR (Z.pos my)); [lra |].
        unfold Rdiv. rewrite Rmult_assoc, Rinv_l by lra. lra. }
    split; nra. }
  destruct (binary_round_aux_R (xorb sx sy) pq (ex - ey - 53)
              (new_location (Z.pos my) r) V)
    as (m' & e' & Heq & Hd' & He' & Herr & _).
  - lia.
  - lia.
  - lia.
  - exact HVb.
  - rewrite Heq. cbn [sf_bounded SF2R]. split; [split; [exact Hd' | lia] |].
    assert (HVpos : 0 < V).
    { apply Rlt_le_trans with (IZR (Z.pos pq) * bpow (ex - ey - 53)); [| apply HVb].
      apply Rmult_lt_0_compat; [apply IZR_lt; lia | lra]. }
    rewrite sgn_xorb.
    replace (sgn sx * (IZR (Z.pos mx) * bpow ex) / (sgn sy * (IZR (Z.pos my) * bpow ey)))
      with (sgn sx * (sgn sy * V)).
    + replace (sgn sx * sgn sy * (IZR (Z.pos m') * bpow e') - sgn sx * (sgn sy * V))
        with (sgn sx * (sgn sy * (IZR (Z.pos m') * bpow e' - V))) by ring.
      rewrite !Rabs_sgn_mul. rewrite (Rabs_pos_eq V) by lra. exact Herr.
    + unfold V. destruct sx, sy; cbn [sgn]; field; split; lra.
Qed.

Lemma Zdigits2_upper (z k : Z) :
  (0 <= k)%Z -> (Z.abs z < 2 ^ k)%Z -> (Zdigits2 z <= k)%Z.
Proof.
  intros Hk Hz. destruct z as [| p | p]; cbn [Zdigits2]; [lia | |].
  - destruct (Z.le_gt_cases (Z.pos (digits2_pos p)) k) as [H | H]; [exact H | exfalso].
    pose proof (digits2_pos_bounds p) as [Dlo _].
    assert (2 ^ k <= 2 ^ (Z.pos (digits2_pos p) - 1))%Z
      by (apply Z.pow_le_mono_r; lia).
    cbn [Z.abs] in Hz. lia.
  - destruct (Z.le_gt_cases (Z.pos (digits2_pos p)) k) as [H | H]; [exact H | exfalso].
    pose proof (digits2_pos_bounds p) as [Dlo _].
    assert (2 ^ k <= 2 ^ (Z.pos (digits2_pos p) - 1))%Z
      by (apply Z.pow_le_mono_r; lia).
    cbn [Z.abs] in Hz. lia.
Qed.

Lemma Zdigits2_pos (z : Z) : z <> 0%Z -> (0 < Zdigits2 z)%Z.
Proof. destruct z; cbn [Zdigits2]; [congruence | lia | lia]. Qed.

Lemma binary_normalize_R (z e : Z) (szero : bool) :
  (z <> 0%Z -> -1021 <= Zdigits2 z + e /\ Zdigits2 z + e <= 1020)%Z ->
  shaped (e + Zdigits2 z - 53) (e + Zdigits2 z - 52)
    (binary_normalize prec emax z e szero)
  /\ Rabs (SF2R (binary_normalize prec emax z e szero) - IZR z * bpow e)
     <= eps * Rabs (IZR z * bpow e)
  /\ ((Zdigits2 z <= 53)%Z ->
      SF2R (binary_normalize prec emax z e szero) = IZR z * bpow e).
Proof.
  intros Hr. pose proof (bpow_pos e) as Hbe.
  destruct z as [| p | p]; cbn [binary_normalize Zdigits2] in *.
  - cbn [shaped SF2R]. rewrite Rmult_0_l, Rminus_diag, Rabs_R0.
    split; [exact I |]. split; [lra | reflexivity].
  - destruct (Hr ltac:(discriminate)) as [Hlo Hhi].
    destruct (binary_round_R false p e Hlo Hhi)
      as (m' & e' & Heq & Hd' & He' & Herr & Hexact).
    rewrite Heq. cbn [shaped SF2R sgn]. rewrite !Rmult_1_l.
    split; [split; [exact Hd' | lia] |].
    split; [| exact Hexact].
    rewrite (Rabs_pos_eq (IZR (Z.pos p) * bpow e)); [exact Herr |].
    apply Rmult_le_pos; [apply IZR_le; lia | lra].
  - destruct (Hr ltac:(discriminate)) as [Hlo Hhi].
    destruct (binary_round_R true p e Hlo Hhi)
      as (m' & e' & Heq & Hd' & He' & Herr & Hexact).
    rewrite Heq. cbn [shaped SF2R sgn].
    split; [split; [exact Hd' | lia] |].
    assert (E : IZR (Z.neg p) = - IZR (Z.pos p)).
    { change (Z.neg p) with (- Z.pos p)%Z. apply opp_IZR. }
    rewrite E.
    split.
    + replace (-1 * (IZR (Z.pos m') * bpow e') - - IZR (Z.pos p) * bpow e)
        with (- (IZR (Z.pos m') * bpow e' - IZR (Z.pos p) * bpow e)) by ring.
      replace (- IZR (Z.pos p) * bpow e) with (- (IZR (Z.pos p) * bpow e)) by ring.
      rewrite !Rabs_Ropp.
      rewrite (Rabs_pos_eq (IZR (Z.pos p) * bpow e)); [exact Herr |].
      apply Rmult_le_pos; [apply IZR_le; lia | lra].
    + intros Hle. rewrite (Hexact Hle). ring.
Qed.

Lemma SF2R_aligned (s : bool) (m : positive) (e ez : Z) :
  (ez <= e)%Z ->
  sgn s * (IZR (Z.pos m) * bpow e)
  = IZR (cond_Zopp s (Z.pos (fst (shl_align m e ez)))) * bpow ez.
Proof.
  intros H. destruct (shl_align_spec m e ez H) as [_ Hm]. rewrite Hm.
  replace e with (ez + (e - ez))%Z at 1 by lia.
  rewrite bpow_add, (bpow_IZR (e - ez)) by lia.
  destruct s; cbn [sgn cond_Zopp]; rewrite ?opp_IZR, mult_IZR; ring.
Qed.

Lemma aligned_bound (s : bool) (m : positive) (e ez : Z) :
  Z.pos (digits2_pos m) = 53%Z -> (ez <= e)%Z ->
  (Z.abs (cond_Zopp s (Z.pos (fst (shl_align m e ez)))) < 2 ^ (53 + e - ez))%Z.
Proof.
  intros Hd H. destruct (shl_align_spec m e ez H) as [_ Hm]. rewrite Hm.
  pose proof (mant53 m Hd) as Hb.
  replace (53 + e - ez)%Z with (53 + (e - ez))%Z by lia.
  rewrite Z.pow_add_r by lia.
  change (2 ^ 53)%Z with 9007199254740992%Z.
  assert (0 < 2 ^ (e - ez))%Z by (apply Z.pow_pos_nonneg; lia).
  destruct s; cbn [cond_Zopp]; nia.
Qed.

(** Sum or difference of two aligned mantissas, rounded. *)
Lemma normalize_sum_R (B : Z) (a b : Z) (ex ey : Z) :
  (0 <= B)%Z -> (B <= 900)%Z ->
  (- B <= ex <= B)%Z -> (- B <= ey <= B)%Z ->
  (Z.abs a < 2 ^ (53 + ex - Z.min ex ey))%Z ->
  (Z.abs b < 2 ^ (53 + ey - Z.min ex ey))%Z ->
  sf_bounded (B + 53) (binary_normalize prec emax (a + b) (Z.min ex ey) false)
  /\ Rabs (SF2R (binary_normalize prec emax (a + b) (Z.min ex ey) false)
           - IZR (a + b) * bpow (Z.min ex ey))
     <= eps * Rabs (IZR (a + b) * bpow (Z.min ex ey)).
Proof.
  intros HB0 HB Hex Hey Ha Hb.
  set (ez := Z.min ex ey) in *.
  assert (Hab : (Z.abs (a + b) < 2 ^ (54 + Z.max ex ey - ez))%Z).
  { assert (2 ^ (53 + ex - ez) <= 2 ^ (53 + Z.max ex ey - ez))%Z
      by (apply Z.pow_le_mono_r; lia).
    assert (2 ^ (53 + ey - ez) <= 2 ^ (53 + Z.max ex ey - ez))%Z
      by (apply Z.pow_le_mono_r; lia).
    replace (54 + Z.max ex ey - ez)%Z with (Z.succ (53 + Z.max ex ey - ez))%Z by lia.
    rewrite Z.pow_succ_r by lia. lia. }
  pose proof (Zdigits2_upper (a + b) (54 + Z.max ex ey - ez) ltac:(lia) Hab) as Hdu.
  destruct (binary_normalize_R (a + b) ez false) as (Hs & Herr & _).
  { intros Hnz. pose proof (Zdigits2_pos (a + b) Hnz). lia. }
  split; [| exact Herr].
  destruct (Z.eq_dec (a + b) 0) as [E0 | Hnz].
  - rewrite E0. exact I.
  - pose proof (Zdigits2_pos (a + b) Hnz).
    destruct (binary_normalize prec emax (a + b) ez false) as [s | s | | s m e];
      cbn [shaped sf_bounded] in *; try tauto.
    destruct Hs as [Hd He]. split; [exact Hd | lia].
Qed.

Lemma SFadd_R (B : Z) (x y : spec_float) :
  sf_bounded B x -> sf_bounded B y -> (0 <= B)%Z -> (B <= 900)%Z ->
  sf_bounded (B + 53) (SFadd prec emax x y)
  /\ Rabs (SF2R (SFadd prec emax x y) - (SF2R x + SF2R y))
     <= eps * Rabs (SF2R x + SF2R y).
Proof.
  intros Hx Hy HB0 HB.
  assert (Hz : forall v w, v = w -> Rabs (v - w) <= eps * Rabs w).
  { intros v w ->. rewrite Rminus_diag, Rabs_R0.
    apply Rmult_le_pos; [unfold eps; lra | apply Rabs_pos]. }
  destruct x as [sx | sx | | sx mx ex], y as [sy | sy | | sy my ey];
    cbn [sf_bounded] in Hx, Hy; try contradiction; cbn [SFadd].
  - split; [destruct sx, sy; exact I |].
    apply Hz. destruct sx, sy; cbn [SF2R]; ring.
  - split; [apply (sf_bounded_weaken B); [lia | exact Hy] |]. apply Hz. cbn [SF2R]. ring.
  - split; [apply (sf_bounded_weaken B); [lia | exact Hx] |]. apply Hz. cbn [SF2R]. ring.
  - destruct Hx as [Hdx Hex], Hy as [Hdy Hey].
    cbv zeta.
    cbn [SF2R].
    rewrite (SF2R_aligned sx mx ex (Z.min ex ey)) by lia.
    rewrite (SF2R_aligned sy my ey (Z.min ex ey)) by lia.
    rewrite <- Rmult_plus_distr_r, <- plus_IZR.
    apply (normalize_sum_R B); try lia.
    + apply aligned_bound; [exact Hdx | lia].
    + apply aligned_bound; [exact Hdy | lia].
Qed.

Lemma SFsub_R (B : Z) (x y : spec_float) :
  sf_bounded B x -> sf_bounded B y -> (0 <= B)%Z -> (B <= 900)%Z ->
  sf_bounded (B + 53) (SFsub prec emax x y)
  /\ Rabs (SF2R (SFsub prec emax x y) - (SF2R x - SF2R y))
     <= eps * Rabs (SF2R x - SF2R y).
Proof.
  intros Hx Hy HB0 HB.
  assert (Hz : forall v w, v = w -> Rabs (v - w) <= eps * Rabs w).
  { intros v w ->. rewrite Rminus_diag, Rabs_R0.
    apply Rmult_le_pos; [unfold eps; lra | apply Rabs_pos]. }
  destruct x as [sx | sx | | sx mx ex], y as [sy | sy | | sy my ey];
    cbn [sf_bounded] in Hx, Hy; try contradiction; cbn [SFsub].
  - split; [destruct sx, sy; exact I |].
    apply Hz. destruct sx, sy; cbn [SF2R]; ring.
  - split; [cbn [sf_bounded]; destruct Hy as [Hd He]; split; [exact Hd | lia] |].
    apply Hz. cbn [SF2R]. destruct sy; cbn [negb sgn]; ring.
  - split; [apply (sf_bounded_weaken B); [lia | exact Hx] |]. apply Hz. cbn [SF2R]. ring.
  - destruct Hx as [Hdx Hex], Hy as [Hdy Hey].
    cbv zeta.
    cbn [SF2R].
    rewrite (SF2R_aligned sx mx ex (Z.min ex ey)) by lia.
    rewrite (SF2R_aligned sy my ey (Z.min ex ey)) by lia.
    rewrite <- Rmult_minus_distr_r, <- minus_IZR.
    rewrite <- !Z.add_opp_r.
    apply (normalize_sum_R B); try lia.
    + apply aligned_bound; [exact Hdx | lia].
    + rewrite Z.abs_opp. apply aligned_bound; [exact Hdy | lia].
Qed.

Lemma fl_bounded_weaken (B B' : Z) (x : float) : (B <= B')%Z -> fl_bounded B x -> fl_bounded B' x.
Proof. apply sf_bounded_weaken. Qed.

(** The same on primitive floats, through the specification of each
    primitive operation. *)
Lemma mul_R (B1 B2 : Z) (x y : float) :
  fl_bounded B1 x -> fl_bounded B2 y -> (0 <= B1)%Z -> (0 <= B2)%Z -> (B1 + B2 <= 900)%Z ->
  fl_bounded (B1 + B2 + 54) (x * y)
  /\ Rabs (fval (x * y) - fval x * fval y) <= eps * Rabs (fval x * fval y).
Proof.
  unfold fl_bounded, fval. rewrite mul_spec. apply SFmul_R.
Qed.

Lemma div_R (B1 B2 : Z) (x y : float) :
  fl_bounded B1 x -> fl_bounded B2 y -> fval y <> 0 ->
  (0 <= B1)%Z -> (0 <= B2)%Z -> (B1 + B2 <= 900)%Z ->
  fl_bounded (B1 + B2 + 54) (x / y)
  /\ Rabs (fval (x / y) - fval x / fval y) <= eps * Rabs (fval x / fval y).
Proof.
  unfold fl_bounded, fval. rewrite div_spec. apply SFdiv_R.
Qed.

Lemma add_R (B : Z) (x y : float) :
  fl_bounded B x -> fl_bounded B y -> (0 <= B)%Z -> (B <= 900)%Z ->
  fl_bounded (B + 53) (x + y)
  /\ Rabs (fval (x + y) - (fval x + fval y)) <= eps * Rabs (fval x + fval y).
Proof.
  unfold fl_bounded, fval. rewrite add_spec. apply SFadd_R.
Qed.

Lemma sub_R (B : Z) (x y : float) :
  fl_bounded B x -> fl_bounded B y -> (0 <= B)%Z -> (B <= 900)%Z ->
  fl_bounded (B + 53) (x - y)
  /\ Rabs (fval (x - y) - (fval x - fval y)) <= eps * Rabs (fval x - fval y).
Proof.
  unfold fl_bounded, fval. rewrite sub_spec. apply SFsub_R.
Qed.

(** The conversion of an integer below [2^53] is exact. *)
Lemma of_uint63_R (z : Z) :
  (0 <= z < 2 ^ 53)%Z ->
  fl_bounded 52 (of_uint63 (Uint63.of_Z z)) /\ fval (of_uint63 (Uint63.of_Z z)) = IZR z.
Proof.
  intros Hz. unfold fl_bounded, fval. rewrite of_uint63_spec.
  rewrite Uint63.of_Z_spec.
  rewrite Z.mod_small
    by (change Uint63Axioms.wB with 9223372036854775808%Z;
        change (2 ^ 53)%Z with 9007199254740992%Z in Hz; lia).
  assert (Hd : (Zdigits2 z <= 53)%Z).
  { apply Zdigits2_upper; [lia |]. rewrite Z.abs_eq by lia. lia. }
  destruct (binary_normalize_R z 0 false) as (Hs & _ & Hex).
  { intros Hnz. pose proof (Zdigits2_pos z Hnz). lia. }
  split.
  - destruct (Z.eq_dec z 0) as [-> | Hnz]; [exact I |].
    pose proof (Zdigits2_pos z Hnz).
    destruct (binary_normalize prec emax z 0 false) as [s | s | | s m e];
      cbn [shaped sf_bounded] in *; try tauto.
    destruct Hs as [Hdm He]. split; [exact Hdm | lia].
  - rewrite (Hex Hd), bpow_0. ring.
Qed.

Lemma SFopp_R (B : Z) (f : spec_float) :
  sf_bounded B f -> sf_bounded B (SFopp f) /\ SF2R (SFopp f) = - SF2R f.
Proof.
  destruct f as [s | s | | s m e]; cbn [sf_bounded SFopp SF2R]; try tauto.
  - intros _. split; [exact I | ring].
  - intros H. split; [exact H |]. destruct s; cbn [negb sgn]; ring.
Qed.

Lemma double_of_Z_R (z : Z) :
  (Z.abs z < 2 ^ 53)%Z ->
  fl_bounded 52 (double_of_Z z) /\ fval (double_of_Z z) = IZR z.
Proof.
  intros Hz. unfold double_of_Z.
  destruct (Z.ltb_spec z 0) as [Hneg | Hpos].
  - destruct (of_uint63_R (- z)) as [Hf Hv]; [lia |].
    unfold fl_bounded, fval in *. rewrite opp_spec.
    destruct (SFopp_R 52 _ Hf) as [Hf' Hv'].
    split; [exact Hf' |]. rewrite Hv', Hv, opp_IZR. ring.
  - apply of_uint63_R. lia.
Qed.

(** Truncation of a non-negative finite number. *)
Lemma Z_of_double_R (B : Z) (x : float) :
  fl_bounded B x -> 0 <= fval x ->
  (0 <= Z_of_double x)%Z
  /\ IZR (Z_of_double x) <= fval x < IZR (Z_of_double x) + 1.
Proof.
  unfold fl_bounded, fval, Z_of_double.
  destruct (Prim2SF x) as [s | s | | s m e]; cbn [sf_bounded SF2R]; try tauto.
  - intros _ _. split; [lia | lra].
  - intros [Hd He] Hpos.
    pose proof (bpow_pos e) as Hbe.
    assert (Hm : 0 < IZR (Z.pos m)) by (apply IZR_lt; lia).
    destruct s; cbn [sgn] in *; [exfalso; nra |].
    rewrite Rmult_1_l.
    destruct (Z.leb_spec 0 e) as [Hle | Hlt].
    + rewrite mult_IZR, <- (bpow_IZR e Hle).
      split; [| lra].
      assert (0 < 2 ^ e)%Z by (apply Z.pow_pos_nonneg; lia). lia.
    + assert (Hp : (0 < 2 ^ (- e))%Z) by (apply Z.pow_pos_nonneg; lia).
      pose proof (Z.div_mod (Z.pos m) (2 ^ (- e)) ltac:(lia)) as E.
      pose proof (Z.mod_pos_bound (Z.pos m) (2 ^ (- e)) Hp) as Bm.
      set (q := (Z.pos m / 2 ^ (- e))%Z) in *.
      set (r := (Z.pos m mod 2 ^ (- e))%Z) in *.
      assert (Hq : (0 <= q)%Z) by (unfold q; apply Z.div_pos; lia).
      split; [exact Hq |].
      assert (Hinv : bpow e * IZR (2 ^ (- e)) = 1).
      { rewrite <- (bpow_IZR (- e)) by lia. rewrite <- bpow_add.
        replace (e + - e)%Z with 0%Z by lia. apply bpow_0. }
      assert (HP : 0 < IZR (2 ^ (- e))) by (apply IZR_lt; lia).
      rewrite E, plus_IZR, mult_IZR.
      assert (Hr : 0 <= IZR r < IZR (2 ^ (- e)))
        by (split; [apply IZR_le | apply IZR_lt]; lia).
      replace ((IZR (2 ^ (- e)) * IZR q + IZR r) * bpow e)
        with (IZR q * (bpow e * IZR (2 ^ (- e))) + IZR r * bpow e) by ring.
      rewrite Hinv.
      assert (0 <= IZR r * bpow e) by (apply Rmult_le_pos; lra).
      assert (IZR r * bpow e < IZR (2 ^ (- e)) * bpow e)
        by (apply Rmult_lt_compat_r; lra).
      rewrite (Rmult_comm (IZR (2 ^ (- e)))) in *.
      split; lra.
Qed.

Lemma bpow_opp (k : Z) : (0 <= k)%Z -> bpow (- k) = / IZR (2 ^ k).
Proof.
  intros Hk.
  assert (Hp : 0 < IZR (2 ^ k)) by (apply IZR_lt, Z.pow_pos_nonneg; lia).
  apply Rmult_eq_reg_r with (IZR (2 ^ k)); [| lra].
  rewrite Rinv_l by lra.
  rewrite <- (bpow_IZR k Hk), <- bpow_add.
  replace (- k + k)%Z with 0%Z by lia. apply bpow_0.
Qed.

Lemma bpow_neg (p : positive) : bpow (Z.neg p) = / IZR (2 ^ Z.pos p).
Proof.
  change (Z.neg p) with (- Z.pos p)%Z. apply bpow_opp. lia.
Qed.

(** The constants of the source. *)
Lemma fval_TS_CPS : fl_bounded 33 TS_CPS /\ fval TS_CPS = 1000000.
Proof.
  unfold fl_bounded, fval.
  assert (E : Prim2SF TS_CPS = S754_finite false 8589934592000000 (-33))
    by (vm_compute; reflexivity).
  rewrite E. cbn [sf_bounded SF2R sgn].
  split; [split; [reflexivity | lia] |].
  rewrite (bpow_neg 33). change (2 ^ 33)%Z with 8589934592%Z. lra.
Qed.

Lemma fval_1E9 : fl_bounded 33 1E9 /\ fval 1E9 = 1000000000.
Proof.
  unfold fl_bounded, fval.
  assert (E : Prim2SF 1E9 = S754_finite false 8388608000000000 (-23))
    by (vm_compute; reflexivity).
  rewrite E. cbn [sf_bounded SF2R sgn].
  split; [split; [reflexivity | lia] |].
  rewrite (bpow_neg 23). change (2 ^ 23)%Z with 8388608%Z. lra.
Qed.

Lemma fval_1Em9 :
  fl_bounded 82 1E-9
  /\ / 1000000000 * (1 - eps) <= fval 1E-9 <= / 1000000000 * (1 + eps).
Proof.
  unfold fl_bounded, fval.
  assert (E : Prim2SF 1E-9 = S754_finite false 4835703278458517 (-82))
    by (vm_compute; reflexivity).
  rewrite E. cbn [sf_bounded SF2R sgn].
  split; [split; [reflexivity | lia] |].
  rewrite (bpow_neg 82).
  change (2 ^ 82)%Z with 4835703278458516698824704%Z. unfold eps. lra.
Qed.

Lemma valid_finite_normal (x : float) (s : bool) (m : positive) (e : Z) :
  Prim2SF x = S754_finite s m e -> (-1074 < e)%Z ->
  Z.pos (digits2_pos m) = 53%Z.
Proof.
  intros E He. pose proof (Prim2SF_valid x) as Hv. rewrite E in Hv.
  cbn [SpecFloat.valid_binary] in Hv. unfold bounded, canonical_mantissa in Hv.
  apply andb_true_iff in Hv. destruct Hv as [Hc _].
  apply Z.eqb_eq in Hc. unfold fexp, emin, prec, emax in Hc. lia.
Qed.

(** A number in the window is a positive normal number close to 1. *)

Lemma SFltb_finite_pos (s : bool) (m0 m : positive) (e0 e : Z) :
  SFltb (S754_finite false m0 e0) (S754_finite s m e) = true ->
  s = false /\ (e0 < e \/ e0 = e /\ Z.pos m0 < Z.pos m)%Z.
Proof.
  unfold SFltb, SFcompare.
  destruct s; [discriminate |].
  change (PosDef.Pos.compare_cont Eq m0 m) with (m0 ?= m)%positive.
  destruct (Z.compare_spec e0 e) as [E1 | E1 | E1]; try discriminate.
  - destruct (Pos.compare_spec m0 m) as [E2 | E2 | E2]; try discriminate.
    intros _. split; [reflexivity |]. right. split; [exact E1 |].
    apply Pos2Z.pos_lt_pos. exact E2.
  - intros _. split; [reflexivity |]. left. exact E1.
Qed.

Lemma in_window_R (x : float) :
  in_window x = true ->
  fl_bounded 53 x /\ 99998 / 100000 <= fval x <= 100002 / 100000.
Proof.
  unfold in_window. intros H. apply andb_true_iff in H. destruct H as [Hlo Hhi].
  rewrite ltb_spec in Hlo, Hhi.
  assert (EM : Prim2SF MINUS_10PPM = S754_finite false 9007109182748445 (-53))
    by (vm_compute; reflexivity).
  assert (EP : Prim2SF PLUS_10PPM = S754_finite false 4503644663366770 (-52))
    by (vm_compute; reflexivity).
  rewrite EM in Hlo. rewrite EP in Hhi.
  unfold fl_bounded, fval.
  destruct (Prim2SF x) as [s | s | | s m e] eqn:E.
  { destruct s; discriminate Hlo. }
  { destruct s; [discriminate Hlo | discriminate Hhi]. }
  { discriminate Hlo. }
  apply SFltb_finite_pos in Hlo. destruct Hlo as [-> Hlo].
  apply SFltb_finite_pos in Hhi. destruct Hhi as [_ Hhi].
  assert (Hd : Z.pos (digits2_pos m) = 53%Z)
    by (apply (valid_finite_normal x false m e E); lia).
  pose proof (mant53 m Hd) as Hm.
  cbn [sf_bounded SF2R sgn]. split; [split; [exact Hd | lia] |].
  rewrite Rmult_1_l.
  assert (He : (e = -53 \/ e = -52)%Z) by lia.
  destruct He as [-> | ->].
  - rewrite (bpow_neg 53). change (2 ^ 53)%Z with 9007199254740992%Z.
    assert (9007109182748445 <= IZR (Z.pos m) <= 9007199254740992)
      by (split; apply IZR_le; lia).
    lra.
  - rewrite (bpow_neg 52). change (2 ^ 52)%Z with 4503599627370496%Z.
    assert (4503599627370496 <= IZR (Z.pos m) <= 4503644663366770)
      by (split; apply IZR_le; lia).
    lra.
Qed.

Lemma Rabs_le_bounds (x a : R) : Rabs x <= a -> - a <= x <= a.
Proof.
  unfold Rabs. destruct (Rcase_abs x); intros H; lra.
Qed.

(** A relative error bound as an interval, by the sign of the exact value. *)
Lemma rel_pos (r p : R) :
  Rabs (r - p) <= eps * Rabs p -> 0 <= p ->
  p * (1 - eps) <= r <= p * (1 + eps).
Proof.
  intros H Hp. rewrite (Rabs_pos_eq p Hp) in H.
  apply Rabs_le_bounds in H. lra.
Qed.

Lemma rel_neg (r p : R) :
  Rabs (r - p) <= eps * Rabs p -> p <= 0 ->
  p * (1 + eps) <= r <= p * (1 - eps).
Proof.
  intros H Hp. rewrite (Rabs_left1 p Hp) in H.
  apply Rabs_le_bounds in H. lra.
Qed.

Lemma mul_K_bound (K N : R) :
  / 1000000000 * (1 - eps) <= K <= / 1000000000 * (1 + eps) ->
  0 <= N <= 1000000000 ->
  N / 1000000000 - eps <= K * N <= N / 1000000000 + eps.
Proof.
  unfold eps. intros [HK1 HK2] [HN1 HN2].
  assert (H1 : N * (/ 1000000000 * (1 - / 4503599627370496)) <= N * K)
    by (apply Rmult_le_compat_l; lra).
  assert (H2 : N * K <= N * (/ 1000000000 * (1 + / 4503599627370496)))
    by (apply Rmult_le_compat_l; lra).
  split; lra.
Qed.

(** The arithmetic of the round trip, over the reals. *)
Lemma roundtrip_real
  (X A dl fpv g K mm dl' q pr : R) (d ipZ n ds dn : Z) :
  99998 / 100000 <= X <= 100002 / 100000 ->
  1000000 * X * (1 - eps) <= A <= 1000000 * X * (1 + eps) ->
  (1 <= d < 4294967296)%Z ->
  IZR d / A * (1 - eps) <= dl <= IZR d / A * (1 + eps) ->
  (0 <= ipZ)%Z -> IZR ipZ <= dl < IZR ipZ + 1 ->
  (dl - IZR ipZ) * (1 - eps) <= fpv <= (dl - IZR ipZ) * (1 + eps) ->
  fpv * 1000000000 * (1 - eps) <= g <= fpv * 1000000000 * (1 + eps) ->
  (0 <= n)%Z -> IZR n <= g < IZR n + 1 ->
  (ds = ipZ /\ dn = n \/ ds = (ipZ + 1)%Z /\ dn = (n - 1000000000)%Z) ->
  / 1000000000 * (1 - eps) <= K <= / 1000000000 * (1 + eps) ->
  Rabs (mm - K * IZR dn) <= eps * Rabs (K * IZR dn) ->
  Rabs (dl' - (IZR ds + mm)) <= eps * Rabs (IZR ds + mm) ->
  Rabs (q - dl' * 1000000) <= eps * Rabs (dl' * 1000000) ->
  Rabs (pr - q * X) <= eps * Rabs (q * X) ->
  (n <= 1000000000)%Z /\ 0 <= pr /\ IZR d - 1 / 100 <= pr <= IZR d + 1 / 100.
Proof.
  intros HX HA Hd Hdl Hip0 Hip Hfp Hg Hn0 Hn Hcase HK Hmm Hdl' Hq Hpr.
  assert (HD : 1 <= IZR d <= 4294967295).
  { split; [apply IZR_le; lia | apply IZR_le; lia]. }
  assert (HApos : 999979 <= A <= 1000021) by (unfold eps in HA; lra).
  set (r := IZR d / A) in *.
  assert (HrA : r * A = IZR d) by (unfold r; field; lra).
  assert (Hr0 : 0 <= r).
  { unfold r. apply Rmult_le_pos; [lra | left; apply Rinv_0_lt_compat; lra]. }
  assert (Hr : r <= 4296).
  { assert (r * 999979 <= r * A) by (apply Rmult_le_compat_l; lra). lra. }
  assert (Hr1 : / 1000021 <= r).
  { assert (r * A <= r * 1000021) by (apply Rmult_le_compat_l; lra). lra. }
  (* P0 = 10^6 X r is d up to a relative error *)
  assert (HP0 : 1000000 * (X * r) - / 100000 <= IZR d
                <= 1000000 * (X * r) + / 100000).
  { assert (H1 : r * (1000000 * X * (1 - eps)) <= r * A)
      by (apply Rmult_le_compat_l; lra).
    assert (H2 : r * A <= r * (1000000 * X * (1 + eps)))
      by (apply Rmult_le_compat_l; lra).
    assert (H3 : 0 <= X * r) by (apply Rmult_le_pos; lra).
    assert (H4 : X * r <= 100002 / 100000 * r)
      by (apply Rmult_le_compat_r; lra).
    unfold eps in *. split; lra. }
  clearbody r. clear HA.
  unfold eps in Hdl, Hfp, Hg.
  assert (Hdlb : r - / 1000000000000 <= dl <= r + / 1000000000000) by lra.
  assert (Hdl0 : 0 <= dl) by lra.
  (* fractional part *)
  assert (Hfpb : dl - IZR ipZ - / 1000000000000000 <= fpv
                 <= dl - IZR ipZ + / 1000000000000000) by lra.
  assert (Hfp0 : 0 <= fpv) by lra.
  assert (Hgb : (dl - IZR ipZ) * 1000000000 - / 100000 <= g
                <= (dl - IZR ipZ) * 1000000000 + / 100000) by lra.
  assert (Hg0 : 0 <= g) by lra.
  assert (Hn9 : (n <= 1000000000)%Z).
  { assert (H : IZR n < 1000000001) by lra. apply lt_IZR in H. lia. }
  split; [exact Hn9 |].
  assert (HnR : 0 <= IZR n <= 1000000000) by (split; apply IZR_le; lia).
  assert (Hipb : 0 <= IZR ipZ) by (apply IZR_le; lia).
  assert (HYpos : / 10000000 <= IZR ipZ + IZR n / 1000000000).
  { destruct (Z.eq_dec ipZ 0) as [-> | Hnz].
    - lra.
    - assert (1 <= IZR ipZ) by (apply IZR_le; lia). lra. }
  (* the sum S = ds + mm, against Y = ipZ + n / 10^9 *)
  assert (HS : IZR ipZ + IZR n / 1000000000 - / 1000000000000000 <= IZR ds + mm
               <= IZR ipZ + IZR n / 1000000000 + / 1000000000000000
               /\ 0 <= IZR ds + mm).
  { destruct Hcase as [[-> ->] | (-> & ->)].
    - pose proof (mul_K_bound K (IZR n) HK HnR) as HKn.
      assert (HKn0 : 0 <= K * IZR n).
      { apply Rmult_le_pos; [unfold eps in HK; lra | lra]. }
      apply rel_pos in Hmm; [| exact HKn0].
      unfold eps in *. split; lra.
    - rewrite minus_IZR, plus_IZR in *.
      pose proof (mul_K_bound K (1000000000 - IZR n) HK ltac:(lra)) as HKn.
      assert (HKn0 : K * (IZR n - 1000000000) <= 0).
      { replace (K * (IZR n - 1000000000)) with (- (K * (1000000000 - IZR n))) by ring.
        assert (0 <= K * (1000000000 - IZR n))
          by (apply Rmult_le_pos; [unfold eps in HK; lra | lra]).
        lra. }
      apply rel_neg in Hmm; [| exact HKn0].
      replace (K * (IZR n - 1000000000)) with (- (K * (1000000000 - IZR n))) in Hmm by ring.
      unfold eps in *. split; lra. }
  destruct HS as [HS HS0]. clear Hmm Hcase HK.
  apply rel_pos in Hdl'; [| exact HS0].
  unfold eps in Hdl'.
  assert (Hdl'b : r - / 1000000000 - / 100000000000 <= dl' <= r + / 100000000000)
    by lra.
  assert (Hdl'0 : 0 <= dl') by lra.
  apply rel_pos in Hq; [| lra].
  unfold eps in Hq.
  assert (Hq0 : 0 <= q) by lra.
  assert (HqX0 : 0 <= q * X) by (apply Rmult_le_pos; lra).
  apply rel_pos in Hpr; [| exact HqX0].
  unfold eps in Hpr.
  split; [lra |].
  (* products with X *)
  assert (HX1 : X * (r - / 1000000000 - / 100000000000) <= X * dl')
    by (apply Rmult_le_compat_l; lra).
  assert (HX2 : X * dl' <= X * (r + / 100000000000))
    by (apply Rmult_le_compat_l; lra).
  assert (HX3 : X * (dl' * 1000000 * (1 - / 4503599627370496)) <= X * q)
    by (apply Rmult_le_compat_l; lra).
  assert (HX4 : X * q <= X * (dl' * 1000000 * (1 + / 4503599627370496)))
    by (apply Rmult_le_compat_l; lra).
  assert (HX5 : 0 <= X * r) by (apply Rmult_le_pos; lra).
  split; lra.
Qed.

Lemma IZR_floor_unique (k z : Z) : IZR k <= IZR z < IZR k + 1 -> k = z.
Proof.
  intros [H1 H2]. apply le_IZR in H1.
  rewrite <- plus_IZR in H2. apply lt_IZR in H2. lia.
Qed.

Lemma Z_of_double_zero_mul (B : Z) (z x : float) :
  Prim2SF z = S754_zero false -> fl_bounded B x -> fval x <> 0 ->
  Z_of_double (z * x) = 0%Z.
Proof.
  unfold fl_bounded, fval, Z_of_double. rewrite mul_spec. intros ->.
  destruct (Prim2SF x) as [s | s | | s m e]; cbn [sf_bounded SF2R].
  - intros _ H. exfalso. apply H. reflexivity.
  - intros [].
  - intros [].
  - intros _ _. reflexivity.
Qed.

Lemma zero_div_pos (B : Z) (y : float) :
  fl_bounded B y -> 0 < fval y -> (0 / y)%float = 0%float.
Proof.
  unfold fl_bounded, fval. intros Hf Hy.
  apply Prim2SF_inj. rewrite div_spec.
  change (Prim2SF 0) with (S754_zero false).
  destruct (Prim2SF y) as [s | s | | s m e]; cbn [sf_bounded SF2R] in *;
    try tauto; try lra.
  destruct s; [| reflexivity].
  exfalso. pose proof (bpow_pos e).
  assert (0 < IZR (Z.pos m)) by (apply IZR_lt; lia).
  cbn [sgn] in Hy. nra.
Qed.

(** The round trip on the numbers: the counter difference [d] is converted
    to seconds and nanoseconds, carried over [nsec0], and back. *)
Lemma roundtrip_float (x : float) (d nsec0 : Z) :
  in_window x = true ->
  (0 <= d < 4294967296)%Z ->
  let delta := (double_of_Z d / (TS_CPS * x))%float in
  let ip := double_of_Z (Z_of_double delta) in
  let n := Z_of_double ((delta - ip) * 1E9)%float in
  let tmp := (nsec0 + n)%Z in
  let ds := (if (tmp <? 1000000000)%Z then Z_of_double ip else Z_of_double ip + 1)%Z in
  let dn := (if (tmp <? 1000000000)%Z then tmp - nsec0 else tmp - 1000000000 - nsec0)%Z in
  let pr := ((double_of_Z ds + 1E-9 * double_of_Z dn) * TS_CPS * x)%float in
  Z_of_double pr = d \/ ((1 <= d)%Z /\ Z_of_double pr = (d - 1)%Z).
Proof.
  intros Hwin Hd.
  destruct (in_window_R x Hwin) as [Fx HX].
  destruct fval_TS_CPS as [FT VT].
  destruct fval_1E9 as [F9 V9].
  destruct fval_1Em9 as [FK VK].
  (* A = TS_CPS * x *)
  destruct (mul_R 33 53 TS_CPS x FT Fx) as [FA EA]; try lia.
  rewrite VT in EA. apply rel_pos in EA; [| lra].
  cbn [Z.add] in FA.
  assert (HApos : 0 < fval (TS_CPS * x)) by (unfold eps in EA; lra).
  destruct (Z.eq_dec d 0) as [-> | Hdnz].
  { (* d = 0: every intermediate number is zero *)
    change (double_of_Z 0) with 0%float.
    rewrite (zero_div_pos 140 _ FA HApos).
    intros delta ip n tmp ds dn pr. left.
    assert (En : n = 0%Z) by (vm_compute; reflexivity).
    assert (Eip : Z_of_double ip = 0%Z) by (vm_compute; reflexivity).
    unfold pr, ds, dn, tmp. rewrite En, Eip.
    destruct (nsec0 + 0 <? 1000000000)%Z.
    - replace (nsec0 + 0 - nsec0)%Z with 0%Z by lia.
      apply (Z_of_double_zero_mul 53); [vm_compute; reflexivity | exact Fx | lra].
    - replace (nsec0 + 0 - 1000000000 - nsec0)%Z with (-1000000000)%Z by lia.
      apply (Z_of_double_zero_mul 53); [vm_compute; reflexivity | exact Fx | lra]. }
  intros delta ip n tmp ds dn pr.
  (* delta *)
  destruct (double_of_Z_R d) as [FD VD].
  { change (2 ^ 53)%Z with 9007199254740992%Z. lia. }
  destruct (div_R 52 140 (double_of_Z d) (TS_CPS * x) FD FA) as [Fdl Edl]; try lia.
  { lra. }
  fold delta in Fdl, Edl. rewrite VD in Edl. cbn [Z.add] in Fdl.
  assert (HD : 0 <= IZR d) by (apply IZR_le; lia).
  assert (Hquot : 0 <= IZR d / fval (TS_CPS * x)).
  { apply Rmult_le_pos; [lra | left; apply Rinv_0_lt_compat; lra]. }
  apply rel_pos in Edl; [| exact Hquot].
  assert (Hdl0 : 0 <= fval delta).
  { assert (0 <= IZR d / fval (TS_CPS * x) * (1 - eps)).
    { apply Rmult_le_pos; [exact Hquot | unfold eps; lra]. }
    lra. }
  destruct (Z_of_double_R 246 delta Fdl Hdl0) as [Hip0 Hip].
  (* a first bound on the integral part *)
  assert (Hdlmax : fval delta <= 4297).
  { assert (HDmax : IZR d <= 4294967295) by (apply IZR_le; lia).
    set (r := IZR d / fval (TS_CPS * x)) in *.
    assert (HrA : r * fval (TS_CPS * x) = IZR d) by (unfold r; field; lra).
    assert (r * 999979 <= r * fval (TS_CPS * x)).
    { apply Rmult_le_compat_l; [exact Hquot | unfold eps in EA; lra]. }
    unfold eps in Edl. lra. }
  assert (Hipmax : (Z_of_double delta <= 4297)%Z).
  { apply le_IZR. lra. }
  destruct (double_of_Z_R (Z_of_double delta)) as [Fip Vip].
  { change (2 ^ 53)%Z with 9007199254740992%Z. lia. }
  fold ip in Fip, Vip.
  assert (Hipt : Z_of_double ip = Z_of_double delta).
  { destruct (Z_of_double_R 52 ip Fip) as [_ H]; [rewrite Vip; apply IZR_le; lia |].
    rewrite Vip in H. apply IZR_floor_unique. exact H. }
  (* fractional part *)
  destruct (sub_R 246 delta ip Fdl (fl_bounded_weaken 52 246 ip ltac:(lia) Fip))
    as [Ffp Efp]; try lia.
  rewrite Vip in Efp. cbn [Z.add] in Ffp.
  apply rel_pos in Efp; [| lra].
  assert (Hfp0 : 0 <= fval (delta - ip)).
  { assert (0 <= (fval delta - IZR (Z_of_double delta)) * (1 - eps)).
    { apply Rmult_le_pos; [lra | unfold eps; lra]. }
    lra. }
  destruct (mul_R 299 33 (delta - ip) 1E9 Ffp F9) as [Fg Eg]; try lia.
  rewrite V9 in Eg. cbn [Z.add] in Fg.
  apply rel_pos in Eg; [| lra].
  assert (Hg0 : 0 <= fval ((delta - ip) * 1E9)).
  { assert (0 <= fval (delta - ip) * 1000000000 * (1 - eps)).
    { apply Rmult_le_pos; [lra | unfold eps; lra]. }
    lra. }
  destruct (Z_of_double_R 386 _ Fg Hg0) as [Hn0 Hn].
  fold n in Hn0, Hn.
  assert (Hnmax : (n <= 2000000000)%Z).
  { apply le_IZR. unfold eps in Efp, Eg. lra. }
  (* the two cases of the carry *)
  assert (Hcase : (ds = Z_of_double delta /\ dn = n
                   \/ ds = Z_of_double delta + 1 /\ dn = n - 1000000000)%Z).
  { unfold ds, dn. rewrite Hipt.
    destruct (tmp <? 1000000000)%Z; unfold tmp.
    - left. split; [reflexivity | lia].
    - right. split; [reflexivity | lia]. }
  assert (Hdsb : (Z.abs ds < 2 ^ 53)%Z).
  { change (2 ^ 53)%Z with 9007199254740992%Z.
    destruct Hcase as [[-> _] | (-> & _)]; lia. }
  assert (Hdnb : (Z.abs dn < 2 ^ 53)%Z).
  { change (2 ^ 53)%Z with 9007199254740992%Z.
    destruct Hcase as [[_ ->] | (_ & ->)]; lia. }
  destruct (double_of_Z_R ds Hdsb) as [Fs Vs].
  destruct (double_of_Z_R dn Hdnb) as [Fw Vw].
  destruct (mul_R 82 52 1E-9 (double_of_Z dn) FK Fw) as [Fmm Emm]; try lia.
  rewrite Vw in Emm. cbn [Z.add] in Fmm.
  destruct (add_R 188 (double_of_Z ds) (1E-9 * double_of_Z dn)
              (fl_bounded_weaken 52 188 _ ltac:(lia) Fs) Fmm) as [Fdl' Edl']; try lia.
  rewrite Vs in Edl'. cbn [Z.add] in Fdl'.
  destruct (mul_R 241 33 _ TS_CPS Fdl' FT) as [Fq Eq]; try lia.
  rewrite VT in Eq. cbn [Z.add] in Fq.
  destruct (mul_R 328 53 _ x Fq Fx) as [Fpr Epr]; try lia.
  cbn [Z.add] in Fpr. fold pr in Fpr, Epr.
  destruct (roundtrip_real (fval x) (fval (TS_CPS * x)) (fval delta)
              (fval (delta - ip)) (fval ((delta - ip) * 1E9)) (fval 1E-9)
              (fval (1E-9 * double_of_Z dn))
              (fval (double_of_Z ds + 1E-9 * double_of_Z dn))
              (fval ((double_of_Z ds + 1E-9 * double_of_Z dn) * TS_CPS))
              (fval pr) d (Z_of_double delta) n ds dn)
    as (_ & Hpr0 & Hprb); try assumption; try lia.
  destruct (Z_of_double_R 435 pr Fpr Hpr0) as [Hu0 Hu].
  assert (Hule : (Z_of_double pr <= d)%Z).
  { assert (H : IZR (Z_of_double pr) < IZR (d + 1)) by (rewrite plus_IZR; lra).
    apply lt_IZR in H. lia. }
  assert (Huge : (d - 1 <= Z_of_double pr)%Z).
  { assert (H : IZR (d - 2) < IZR (Z_of_double pr)) by (rewrite minus_IZR; lra).
    apply lt_IZR in H. lia. }
  destruct (Z.eq_dec (Z_of_double pr) d) as [E | NE]; [left; exact E |].
  right. split; lia.
Qed.

End Binary64Analysis.

(* ------------------------------------------------------------------------- *)
(** ** Inversion of the conversions *)

Lemma wrap32_range (x : Z) : 0 <= wrap32 x < 4294967296.
Proof.
  unfold wrap32. change (2 ^ 32) with 4294967296.
  apply Z.mod_pos_bound. lia.
Qed.

Lemma wrap32_back (cnt c : Z) :
  0 <= c < 4294967296 ->
  wrap32 (cnt + wrap32 (wrap32 (c - cnt))) = c.
Proof.
  intros Hc. unfold wrap32. change (2 ^ 32) with 4294967296.
  rewrite Z.mod_mod by lia.
  rewrite Z.add_mod_idemp_r by lia.
  replace (cnt + (c - cnt)) with c by lia.
  apply Z.mod_small. exact Hc.
Qed.

Lemma wrap32_back_pred (cnt c : Z) :
  1 <= wrap32 (c - cnt) ->
  wrap32 (cnt + wrap32 (wrap32 (c - cnt) - 1)) = wrap32 (c - 1).
Proof.
  intros H1. pose proof (wrap32_range (c - cnt)) as Hr.
  unfold wrap32 in *. change (2 ^ 32) with 4294967296 in *.
  rewrite (Z.mod_small ((c - cnt) mod 4294967296 - 1)) by lia.
  replace (cnt + ((c - cnt) mod 4294967296 - 1))
    with (cnt - 1 + (c - cnt) mod 4294967296) by lia.
  rewrite Z.add_mod_idemp_r by lia.
  f_equal. lia.
Qed.

(** The counter obtained by converting [c] to a time and back is [c] or
    the counter value just before it. *)
Lemma time2cnt_cnt2time (ref : tref) (c : Z) (t0 : timespec) :
  in_window (xtal_err ref) = true ->
  0 <= c < 4294967296 ->
  time2cnt ref (cnt2time ref c t0) t0 = c
  \/ time2cnt ref (cnt2time ref c t0) t0 = wrap32 (c - 1).
Proof.
  intros Hwin Hc.
  pose proof (roundtrip_float (xtal_err ref) (wrap32 (c - count_us ref))
                (tv_nsec t0) Hwin (wrap32_range _)) as H.
  cbv zeta in H.
  unfold time2cnt, cnt2time, modf, uint32_of_double. cbv zeta.
  destruct (tv_nsec t0
            + Z_of_double
                ((double_of_Z (wrap32 (c - count_us ref))
                  / (TS_CPS * xtal_err ref)
                  - double_of_Z
                      (Z_of_double
                         (double_of_Z (wrap32 (c - count_us ref))
                          / (TS_CPS * xtal_err ref)))) * 1E9)%float
            <? 1000000000) eqn:E;
    cbn [tv_sec tv_nsec].
  - rewrite Z.add_simpl_l.
    destruct H as [-> | [H1 ->]].
    + left. apply wrap32_back. exact Hc.
    + right. apply wrap32_back_pred. exact H1.
  - match goal with
    | |- context [double_of_Z (?a + ?b + 1 - ?a)] =>
        replace (a + b + 1 - a) with (b + 1) by lia
    end.
    destruct H as [-> | [H1 ->]].
    + left. apply wrap32_back. exact Hc.
    + right. apply wrap32_back_pred. exact H1.
Qed.

Lemma valid_ref_not_refused (ref : tref) :
  systime ref <> 0 -> in_window (xtal_err ref) = true ->
  ref_refused ref = false.
Proof.
  intros Hs Hw. unfold ref_refused.
  rewrite (in_window_in_range _ Hw), orb_false_r.
  apply Z.eqb_neq. exact Hs.
Qed.

(** Where the counter wraps, the microsecond lost by the round trip shows
    as the last value of the counter: with the reference taken at
    count_us = 1000000 and xtal_err = 1.0, the counter value c = 0 (one
    second before the reference) is converted to a UTC time 4293.967295999 s
    after the reference, and back to 4294967295, the value of the counter
    one microsecond before 0. *)
Lemma conversion_inversion_wraps :
  systime tref_after_wrap = 1700000000 /\
  in_window (xtal_err tref_after_wrap) = true /\
  Z.abs (0 - count_us tref_after_wrap) <= 1800000000 /\
  lgw_cnt2utc tref_after_wrap 0 (Some (mk_timespec 0 0))
  = (LGW_GPS_SUCCESS, Some (mk_timespec 1700004293 967295999)) /\
  lgw_utc2cnt tref_after_wrap (mk_timespec 1700004293 967295999) (Some 0)
  = (LGW_GPS_SUCCESS, Some 4294967295) /\
  counter_distance 4294967295 0 = 1.
Proof.
  split; [reflexivity |].
  split; [vm_compute; reflexivity |].
  split; [vm_compute; discriminate |].
  repeat split; vm_compute; reflexivity.
Qed.

Lemma counter_distance_same (c : Z) : counter_distance c c = 0.
Proof.
  unfold counter_distance. rewrite Z.sub_diag. reflexivity.
Qed.

Lemma counter_distance_pred (c : Z) :
  0 <= c < 4294967296 -> counter_distance (wrap32 (c - 1)) c <= 1.
Proof.
  intros Hc. unfold counter_distance.
  assert (wrap32 (c - wrap32 (c - 1)) = 1) as E.
  { unfold wrap32. change (2 ^ 32) with 4294967296.
    rewrite Zminus_mod_idemp_r.
    replace (c - (c - 1)) with 1 by lia. reflexivity. }
  rewrite E. apply Z.le_min_r.
Qed.

Lemma within_one_microsecond (c r : Z) :
  0 <= c < 4294967296 ->
  r = c \/ r = wrap32 (c - 1) ->
  counter_distance r c <= 1.
Proof.
  intros Hc [-> | ->].
  - rewrite counter_distance_same. lia.
  - apply counter_distance_pred, Hc.
Qed.

(** C5. For every valid reference (systime != 0, xtal_err within
    (0.99999, 1.00001)) and every counter value c (a 32-bit value) within
    1800 seconds of ref.count_us, cnt_to_utc and utc_to_cnt succeed and
    utc_to_cnt(cnt_to_utc(c)) equals c to within one microsecond on the
    32-bit counter: it is c or the counter value just before c; likewise
    for gps_to_cnt(cnt_to_gps(c)). *)
Theorem conversion_inversion
  (ref : tref) (c : Z) (out_t : timespec) (out_c : Z) :
  systime ref <> 0 ->
  in_window (xtal_err ref) = true ->
  0 <= c < 2 ^ 32 ->
  Z.abs (c - count_us ref) <= 1800000000 ->
  exists t_utc t_gps c_utc c_gps,
    lgw_cnt2utc ref c (Some out_t) = (LGW_GPS_SUCCESS, Some t_utc)
    /\ lgw_utc2cnt ref t_utc (Some out_c) = (LGW_GPS_SUCCESS, Some c_utc)
    /\ counter_distance c_utc c <= 1
    /\ (c_utc = c \/ c_utc = wrap32 (c - 1))
    /\ lgw_cnt2gps ref c (Some out_t) = (LGW_GPS_SUCCESS, Some t_gps)
    /\ lgw_gps2cnt ref t_gps (Some out_c) = (LGW_GPS_SUCCESS, Some c_gps)
    /\ counter_distance c_gps c <= 1
    /\ (c_gps = c \/ c_gps = wrap32 (c - 1)).
Proof.
  intros Hs Hw Hc _.
  change (2 ^ 32) with 4294967296 in Hc.
  pose proof (valid_ref_not_refused ref Hs Hw) as Hr.
  pose proof (time2cnt_cnt2time ref c (utc ref) Hw Hc) as Hu.
  pose proof (time2cnt_cnt2time ref c (gps ref) Hw Hc) as Hg.
  exists (cnt2time ref c (utc ref)), (cnt2time ref c (gps ref)),
    (time2cnt ref (cnt2time ref c (utc ref)) (utc ref)),
    (time2cnt ref (cnt2time ref c (gps ref)) (gps ref)).
  unfold lgw_cnt2utc, lgw_utc2cnt, lgw_cnt2gps, lgw_gps2cnt. rewrite Hr.
  split; [reflexivity |]. split; [reflexivity |].
  split; [apply within_one_microsecond; assumption |].
  split; [exact Hu |].
  split; [reflexivity |]. split; [reflexivity |].
  split; [apply within_one_microsecond; assumption | exact Hg].
Qed.

Lemma conversion_inversion_witness :
  exists t_utc t_gps c_utc c_gps,
    lgw_cnt2utc tref_after_wrap 2000000 (Some (mk_timespec 0 0))
    = (LGW_GPS_SUCCESS, Some t_utc)
    /\ lgw_utc2cnt tref_after_wrap t_utc (Some 0) = (LGW_GPS_SUCCESS, Some c_utc)
    /\ counter_distance c_utc 2000000 <= 1
    /\ (c_utc = 2000000 \/ c_utc = wrap32 (2000000 - 1))
    /\ lgw_cnt2gps tref_after_wrap 2000000 (Some (mk_timespec 0 0))
       = (LGW_GPS_SUCCESS, Some t_gps)
    /\ lgw_gps2cnt tref_after_wrap t_gps (Some 0) = (LGW_GPS_SUCCESS, Some c_gps)
    /\ counter_distance c_gps 2000000 <= 1
    /\ (c_gps = 2000000 \/ c_gps = wrap32 (2000000 - 1)).
Proof.
  apply (conversion_inversion tref_after_wrap 2000000 (mk_timespec 0 0) 0).
  - discriminate.
  - vm_compute. reflexivity.
  - split; [discriminate | reflexivity].
  - discriminate.
Defined.

(* ------------------------------------------------------------------------- *)
(** ** Reads within the buffer *)

Lemma rd_in_range (buf : list byte) (i : Z) :
  0 <= i < Z.of_nat (length buf) -> rd buf i = Ret (byte_at buf i).
Proof.
  intros Hi. unfold rd, byte_at.
  destruct (Z.ltb_spec i 0) as [Hn | _]; [lia |].
  destruct (nth_error buf (Z.to_nat i)) eqn:E; [reflexivity |].
  apply nth_error_None in E. lia.
Qed.

Lemma rd_Ret_inv (buf : list byte) (i v : Z) :
  rd buf i = Ret v ->
  0 <= i < Z.of_nat (length buf) /\ v = byte_at buf i.
Proof.
  unfold rd, byte_at.
  destruct (Z.ltb_spec i 0) as [Hn | Hp]; [discriminate |].
  destruct (nth_error buf (Z.to_nat i)) eqn:E; [| discriminate].
  intros [= <-]. split; [| reflexivity].
  assert (Z.to_nat i < length buf)%nat by (apply nth_error_Some; congruence).
  lia.
Qed.

Lemma byte_at_range (buf : list byte) (i : Z) : 0 <= byte_at buf i < 256.
Proof.
  unfold byte_at. destruct (nth_error buf (Z.to_nat i)) as [b |].
  - apply u8_range.
  - lia.
Qed.

Lemma rd_both_in_range (buf : list byte) (i x j y : Z) :
  0 <= i < Z.of_nat (length buf) -> 0 <= j < Z.of_nat (length buf) ->
  rd_both buf i x j y
  = Ret ((byte_at buf i =? x) && (byte_at buf j =? y)).
Proof.
  intros Hi Hj. unfold rd_both.
  rewrite (rd_in_range buf i Hi). cbn [bind].
  destruct (byte_at buf i =? x); [| reflexivity].
  rewrite (rd_in_range buf j Hj). reflexivity.
Qed.

Lemma ubx_fletcher_in_range (buf : list byte) (n : nat) :
  forall (i ck_a ck_b : Z),
    0 <= i -> i + 2 + Z.of_nat n <= Z.of_nat (length buf) ->
    ubx_fletcher buf n i ck_a ck_b = Ret (fletcher buf n i ck_a ck_b).
Proof.
  induction n as [| n IH]; intros i ck_a ck_b Hi Hlen.
  - reflexivity.
  - cbn [ubx_fletcher fletcher].
    rewrite rd_in_range by lia. cbn [bind].
    apply IH; lia.
Qed.

Lemma fletcher_ck_a (buf : list byte) (n : nat) :
  forall (i ck_a ck_b : Z),
    0 <= ck_a < 256 ->
    fst (fletcher buf n i ck_a ck_b)
    = (ck_a + range_sum buf n (i + 2)) mod 256.
Proof.
  induction n as [| n IH]; intros i ck_a ck_b Ha.
  - cbn. rewrite Z.add_0_r, Z.mod_small; lia.
  - cbn [fletcher range_sum].
    rewrite IH by (apply Z.mod_pos_bound; lia).
    rewrite Z.add_mod_idemp_l by lia.
    f_equal. replace (i + 1 + 2) with (i + 2 + 1) by lia. lia.
Qed.

(** [lgw_parse_ubx] on a buffer of at least 8 bytes, with the reads of the
    header and of the checksum loop, all within the buffer, evaluated. *)
Lemma parse_ubx_eq (buf : list byte) (g : gps_vars) :
  8 <= Z.of_nat (length buf) ->
  let n := ubx_msg_size buf in
  let ck := fletcher buf (Z.to_nat (4 + ubx_payload_length buf)) 0 0 0 in
  lgw_parse_ubx (Some buf) g
  = if (byte_at buf 0 =? 0xB5) && (byte_at buf 1 =? 0x62) then
      if n <=? Z.of_nat (length buf) then
        if (fst ck =? byte_at buf (n - 2)) && (snd ck =? byte_at buf (n - 1))
        then
          if (byte_at buf 2 =? 0x01) && (byte_at buf 3 =? 0x20) then
            g' <- ubx_nav_timegps buf g ;; Ret (UBX_NAV_TIMEGPS, n, g')
          else Ret (IGNORED, n, g)
        else Ret (INVALID, n, g)
      else Ret (INCOMPLETE, n, g)
    else Ret (IGNORED, 0, g).
Proof.
  intros Hlen n ck. subst n ck. unfold ubx_msg_size, ubx_payload_length.
  pose proof (byte_at_range buf 4) as H4.
  pose proof (byte_at_range buf 5) as H5.
  unfold lgw_parse_ubx.
  destruct (Z.ltb_spec (Z.of_nat (length buf)) 8) as [Hlt | _]; [lia |].
  rewrite rd_both_in_range by lia. cbn [bind].
  destruct ((byte_at buf 0 =? 181) && (byte_at buf 1 =? 98)); [| reflexivity].
  rewrite (rd_in_range buf 4), (rd_in_range buf 5) by lia. cbn [bind].
  rewrite lor_shiftl_8 by lia.
  set (pl := byte_at buf 4 + 256 * byte_at buf 5).
  destruct (Z.leb_spec (6 + pl + 2) (Z.of_nat (length buf))) as [Hle | Hgt];
    [| reflexivity].
  rewrite (rd_in_range buf (6 + pl + 2 - 2)),
          (rd_in_range buf (6 + pl + 2 - 1)) by lia.
  cbn [bind].
  rewrite ubx_fletcher_in_range by lia. cbn [bind].
  destruct ((fst (fletcher buf (Z.to_nat (4 + pl)) 0 0 0)
             =? byte_at buf (6 + pl + 2 - 2))
            && (snd (fletcher buf (Z.to_nat (4 + pl)) 0 0 0)
                =? byte_at buf (6 + pl + 2 - 1))); [| reflexivity].
  rewrite !rd_both_in_range by lia. cbn [bind].
  destruct ((byte_at buf 2 =? 1) && (byte_at buf 3 =? 32)); [reflexivity |].
  destruct ((byte_at buf 2 =? 5) && (byte_at buf 3 =? 0)); [reflexivity |].
  destruct ((byte_at buf 2 =? 5) && (byte_at buf 3 =? 1)); reflexivity.
Qed.

Lemma lor_shiftl_low (k a b : Z) :
  0 <= k -> 0 <= a < 2 ^ k -> 0 <= b ->
  Z.lor a (Z.shiftl b k) = a + 2 ^ k * b.
Proof.
  intros Hk Ha Hb.
  assert (Z.land a (Z.shiftl b k) = 0) as Hland.
  { apply Z.bits_inj'. intros n Hn.
    rewrite Z.land_spec, Z.bits_0.
    destruct (Z.lt_ge_cases n k) as [Hlt | Hge].
    - rewrite (Z.shiftl_spec_low b k n Hlt). apply andb_false_r.
    - assert (Z.testbit a n = false) as ->; [| reflexivity].
      destruct (Z.eq_dec a 0) as [-> | Hnz]; [apply Z.bits_0 |].
      apply Z.bits_above_log2; [lia |].
      assert (Z.log2 a < k); [| lia].
      apply Z.log2_lt_pow2; lia. }
  rewrite <- Z.lxor_lor, <- Z.add_nocarry_lxor by assumption.
  rewrite Z.shiftl_mul_pow2 by lia. lia.
Qed.

Lemma le32_value (b0 b1 b2 b3 : Z) :
  0 <= b0 < 256 -> 0 <= b1 < 256 -> 0 <= b2 < 256 -> 0 <= b3 < 256 ->
  le32 b0 b1 b2 b3 = b0 + 256 * (b1 + 256 * (b2 + 256 * (b3 + 256 * 0))).
Proof.
  intros H0 H1 H2 H3. unfold le32.
  assert (2 ^ 8 = 256) as E8 by reflexivity.
  assert (2 ^ 16 = 65536) as E16 by reflexivity.
  assert (2 ^ 24 = 16777216) as E24 by reflexivity.
  rewrite (lor_shiftl_low 8 b0 b1) by lia.
  rewrite (lor_shiftl_low 16 _ b2) by lia.
  rewrite (lor_shiftl_low 24 _ b3) by lia.
  lia.
Qed.

Lemma le_value_range (buf : list byte) (k : nat) :
  forall i, 0 <= le_value buf k i < 256 ^ Z.of_nat k.
Proof.
  induction k as [| k IH]; intros i.
  - cbn. lia.
  - cbn [le_value]. rewrite Nat2Z.inj_succ, Z.pow_succ_r by lia.
    pose proof (byte_at_range buf i). specialize (IH (i + 1)). lia.
Qed.

Lemma to_signed_range (w x : Z) :
  1 <= w -> - 2 ^ (w - 1) <= to_signed w x < 2 ^ (w - 1).
Proof.
  intros Hw. unfold to_signed.
  assert (2 ^ w = 2 * 2 ^ (w - 1)) as Hp.
  { rewrite <- Z.pow_succ_r by lia. f_equal. lia. }
  pose proof (Z.mod_pos_bound x (2 ^ w)) as Hm.
  assert (0 < 2 ^ (w - 1)) by (apply Z.pow_pos_nonneg; lia).
  destruct (Z.ltb_spec (x mod 2 ^ w) (2 ^ (w - 1))); lia.
Qed.

(** The NAV-TIMEGPS branch when byte 17 and the fields are in the buffer. *)
Lemma ubx_nav_timegps_eq (buf : list byte) (g : gps_vars) :
  18 <= Z.of_nat (length buf) ->
  ubx_nav_timegps buf g
  = Ret (if Z.land (byte_at buf 17) 3 =? 0 then set_time_ok g false
         else set_time_ok
                (set_timegps g (le_value buf 4 6)
                   (to_signed 32 (le_value buf 4 10))
                   (to_signed 16 (le_value buf 2 14))) true).
Proof.
  intros Hlen. unfold ubx_nav_timegps.
  rewrite (rd_in_range buf 17) by lia. cbn [bind].
  destruct (Z.land (byte_at buf 17) 3 =? 0); cbn [negb]; [reflexivity |].
  rewrite !rd_in_range by lia. cbn [bind].
  rewrite !le32_value by apply byte_at_range.
  rewrite (lor_shiftl_low 8)
    by (try apply byte_at_range; pose proof (byte_at_range buf 15); cbn; lia).
  unfold wrap32.
  change (byte_at buf 6 + 256 * (byte_at buf 7 + 256 * (byte_at buf 8
           + 256 * (byte_at buf 9 + 256 * 0))))
    with (le_value buf 4 6).
  change (byte_at buf 10 + 256 * (byte_at buf 11 + 256 * (byte_at buf 12
           + 256 * (byte_at buf 13 + 256 * 0))))
    with (le_value buf 4 10).
  replace (byte_at buf 14 + 2 ^ 8 * byte_at buf 15) with (le_value buf 2 14)
    by (cbn [le_value]; change (14 + 1) with 15; change (2 ^ 8) with 256; lia).
  rewrite Z.mod_small; [reflexivity |].
  pose proof (le_value_range buf 4 6). cbn in *. lia.
Qed.

Lemma ubx_nav_timegps_short (buf : list byte) (g : gps_vars) :
  Z.of_nat (length buf) < 18 -> ubx_nav_timegps buf g = OutOfRange 17.
Proof.
  intros Hlen. unfold ubx_nav_timegps, rd.
  change (17 <? 0) with false. cbn iota.
  destruct (nth_error buf (Z.to_nat 17)) eqn:E; [| reflexivity].
  assert (Z.to_nat 17 < length buf)%nat by (apply nth_error_Some; congruence).
  lia.
Qed.

(** [lgw_parse_ubx] on a buffer that holds a checksum-valid frame. *)
Lemma parse_ubx_frame_ok (buf : list byte) (g : gps_vars) :
  ubx_frame_ok buf = true ->
  lgw_parse_ubx (Some buf) g
  = if ubx_is_timegps buf then
      g' <- ubx_nav_timegps buf g ;; Ret (UBX_NAV_TIMEGPS, ubx_msg_size buf, g')
    else Ret (IGNORED, ubx_msg_size buf, g).
Proof.
  unfold ubx_frame_ok, ubx_is_timegps. intros H.
  repeat (apply andb_prop in H; destruct H as [H ?]).
  rewrite parse_ubx_eq by (apply Z.leb_le; assumption).
  cbv zeta.
  repeat match goal with
         | E : ?b = true |- context [?b] => rewrite E
         end.
  reflexivity.
Qed.

Lemma parse_ubx_not_frame_ok (buf : list byte) (g : gps_vars) :
  ubx_frame_ok buf = false ->
  exists kind n,
    lgw_parse_ubx (Some buf) g = Ret (kind, n, g)
    /\ kind <> UBX_NAV_TIMEGPS
    /\ (n = 0 \/ n = ubx_msg_size buf)
    /\ (kind = INCOMPLETE <-> n > Z.of_nat (length buf)).
Proof.
  intros H.
  pose proof (byte_at_range buf 4) as H4.
  pose proof (byte_at_range buf 5) as H5.
  destruct (Z.leb_spec 8 (Z.of_nat (length buf))) as [Hlen | Hlen].
  - rewrite parse_ubx_eq by assumption. cbv zeta.
    unfold ubx_frame_ok in H.
    destruct (Z.leb_spec 8 (Z.of_nat (length buf))) as [_ | ?]; [| lia].
    cbn [andb] in H.
    destruct ((byte_at buf 0 =? 181) && (byte_at buf 1 =? 98)).
    + cbn [andb] in H.
      destruct (Z.leb_spec (ubx_msg_size buf) (Z.of_nat (length buf))).
      * cbn [andb] in H. rewrite H.
        exists INVALID, (ubx_msg_size buf).
        repeat split; try discriminate; auto; lia.
      * exists INCOMPLETE, (ubx_msg_size buf).
        repeat split; try discriminate; auto; lia.
    + exists IGNORED, 0. repeat split; try discriminate; auto; lia.
  - unfold lgw_parse_ubx.
    destruct (Z.ltb_spec (Z.of_nat (length buf)) 8); [| lia].
    exists IGNORED, 0. repeat split; try discriminate; auto; lia.
Qed.

(* ------------------------------------------------------------------------- *)
(** ** Writes of one character *)

Lemma length_store (s : list byte) :
  forall (i : nat) (v : byte), length (store s i v) = length s.
Proof.
  induction s as [| c s IH]; intros i v; [reflexivity |].
  destruct i; cbn; [reflexivity | now rewrite IH].
Qed.

Lemma nth_error_store_same (s : list byte) :
  forall (i : nat) (v : byte),
    (i < length s)%nat -> nth_error (store s i v) i = Some v.
Proof.
  induction s as [| c s IH]; intros i v Hi; [cbn in Hi; lia |].
  destruct i; cbn; [reflexivity |].
  apply IH. cbn in Hi. lia.
Qed.

Lemma nth_error_store_other (s : list byte) :
  forall (i j : nat) (v : byte),
    j <> i -> nth_error (store s i v) j = nth_error s j.
Proof.
  induction s as [| c s IH]; intros i j v Hne; [reflexivity |].
  destruct i, j; cbn; try reflexivity; try lia.
  apply IH. lia.
Qed.

Lemma byte_at_store_other (s : list byte) (i : nat) (v : byte) (j : Z) :
  0 <= j -> j <> Z.of_nat i -> byte_at (store s i v) j = byte_at s j.
Proof.
  intros Hj Hne. unfold byte_at.
  rewrite nth_error_store_other by lia. reflexivity.
Qed.

Lemma byte_at_store_same (s : list byte) (i : nat) (v : byte) :
  (i < length s)%nat -> byte_at (store s i v) (Z.of_nat i) = u8 v.
Proof.
  intros Hi. unfold byte_at.
  rewrite Nat2Z.id, nth_error_store_same by assumption. reflexivity.
Qed.

Lemma byte_at_nth_error (s : list byte) (i : nat) (x : byte) :
  nth_error s i = Some x -> byte_at s (Z.of_nat i) = u8 x.
Proof.
  intros H. unfold byte_at. now rewrite Nat2Z.id, H.
Qed.

Lemma fletcher_store_outside (s : list byte) (k : nat) (v : byte) (n : nat) :
  forall (i ck_a ck_b : Z),
    0 <= i ->
    Z.of_nat k < i + 2 \/ i + 2 + Z.of_nat n <= Z.of_nat k ->
    fletcher (store s k v) n i ck_a ck_b = fletcher s n i ck_a ck_b.
Proof.
  induction n as [| n IH]; intros i ck_a ck_b Hi Hout; [reflexivity |].
  cbn [fletcher].
  rewrite byte_at_store_other by lia.
  apply IH; lia.
Qed.

Lemma range_sum_store_outside (s : list byte) (k : nat) (v : byte) (n : nat) :
  forall (i : Z),
    0 <= i ->
    Z.of_nat k < i \/ i + Z.of_nat n <= Z.of_nat k ->
    range_sum (store s k v) n i = range_sum s n i.
Proof.
  induction n as [| n IH]; intros i Hi Hout; [reflexivity |].
  cbn [range_sum].
  rewrite byte_at_store_other by lia.
  rewrite IH by lia. reflexivity.
Qed.

Lemma range_sum_store_inside
  (s : list byte) (k : nat) (x v : byte) (n : nat) :
  nth_error s k = Some x ->
  forall (i : Z),
    0 <= i -> i <= Z.of_nat k < i + Z.of_nat n ->
    range_sum (store s k v) n i = range_sum s n i + (u8 v - u8 x).
Proof.
  intros Hx.
  assert (k < length s)%nat as Hk by (apply nth_error_Some; congruence).
  induction n as [| n IH]; intros i Hi Hin; [lia |].
  cbn [range_sum].
  destruct (Z.eq_dec i (Z.of_nat k)) as [-> | Hne].
  - rewrite byte_at_store_same by assumption.
    rewrite (byte_at_nth_error s k x Hx).
    rewrite range_sum_store_outside by lia. lia.
  - rewrite byte_at_store_other by lia.
    rewrite IH by lia. lia.
Qed.

Lemma mod_256_shift (a d : Z) :
  d <> 0 -> -256 < d < 256 -> (a + d) mod 256 <> a mod 256.
Proof.
  intros Hd Hr Heq.
  assert ((a + d - a) mod 256 = 0) as H0.
  { rewrite Zminus_mod, Heq, Z.sub_diag. reflexivity. }
  replace (a + d - a) with d in H0 by lia.
  apply Z.mod_divide in H0; [| lia].
  destruct H0 as [q Hq]. lia.
Qed.

(* ------------------------------------------------------------------------- *)
(** ** Further properties of [lgw_parse_ubx] *)

(** X1. [lgw_parse_ubx] reads outside the buffer in one situation only: the
    buffer is shorter than 18 bytes and starts with a complete,
    checksum-valid frame of class 0x01 and ID 0x20; the read is then the one
    of [serial_buff[17]]. *)
Theorem parse_ubx_overrun_iff (buf : list byte) (g : gps_vars) (i : Z) :
  lgw_parse_ubx (Some buf) g = OutOfRange i
  <-> i = 17 /\ Z.of_nat (length buf) < 18
      /\ ubx_frame_ok buf = true /\ ubx_is_timegps buf = true.
Proof.
  split.
  - intros H.
    destruct (ubx_frame_ok buf) eqn:Eok.
    + rewrite (parse_ubx_frame_ok buf g Eok) in H.
      destruct (ubx_is_timegps buf); [| discriminate].
      destruct (Z.lt_ge_cases (Z.of_nat (length buf)) 18) as [Hlt | Hge].
      * rewrite (ubx_nav_timegps_short buf g Hlt) in H.
        cbn in H. injection H as <-. auto.
      * rewrite (ubx_nav_timegps_eq buf g Hge) in H. discriminate.
    + destruct (parse_ubx_not_frame_ok buf g Eok) as (kind & n & E & _).
      rewrite E in H. discriminate.
  - intros (-> & Hlen & Hok & Ht).
    rewrite (parse_ubx_frame_ok buf g Hok), Ht.
    rewrite (ubx_nav_timegps_short buf g Hlen). reflexivity.
Qed.

(** X2. On a buffer of at least 18 bytes every read of [lgw_parse_ubx] is
    within the buffer: the call returns a kind and a size. *)
Theorem parse_ubx_within_buffer (buf : list byte) (g : gps_vars) :
  18 <= Z.of_nat (length buf) ->
  exists kind n g', lgw_parse_ubx (Some buf) g = Ret (kind, n, g').
Proof.
  intros Hlen.
  destruct (ubx_frame_ok buf) eqn:Eok.
  - rewrite (parse_ubx_frame_ok buf g Eok).
    destruct (ubx_is_timegps buf).
    + rewrite (ubx_nav_timegps_eq buf g Hlen). cbn [bind]. eauto.
    + eauto.
  - destruct (parse_ubx_not_frame_ok buf g Eok) as (kind & n & E & _). eauto.
Qed.

Lemma parse_ubx_within_buffer_witness :
  exists kind n g',
    lgw_parse_ubx (Some timegps_frame_tow_only) gps_vars_init
    = Ret (kind, n, g').
Proof.
  apply (parse_ubx_within_buffer timegps_frame_tow_only gps_vars_init).
  vm_compute. congruence.
Defined.

(** X3. The Fletcher checksum catches every change of one byte: when a
    buffer starts with a complete checksum-valid frame, giving another
    value to one byte of the class, the ID, the payload or the checksum
    makes the frame INVALID, with the announced size still reported and the
    fix variables untouched. *)
Theorem parse_ubx_detects_changed_byte
  (buf : list byte) (g : gps_vars) (k : nat) (x y : byte) :
  ubx_frame_ok buf = true ->
  2 <= Z.of_nat k < ubx_msg_size buf ->
  k <> 4%nat -> k <> 5%nat ->
  nth_error buf k = Some x ->
  y <> x ->
  lgw_parse_ubx (Some (store buf k y)) g
  = Ret (INVALID, ubx_msg_size buf, g).
Proof.
  intros Hok Hk Hk4 Hk5 Hx Hy.
  assert (k < length buf)%nat as Hklen by (apply nth_error_Some; congruence).
  assert (u8 y <> u8 x) as Hu by (intros E; apply Hy, u8_inj, E).
  pose proof (u8_range x) as Rx. pose proof (u8_range y) as Ry.
  pose proof (byte_at_range buf 4) as R4.
  pose proof (byte_at_range buf 5) as R5.
  unfold ubx_frame_ok in Hok.
  repeat (apply andb_prop in Hok; destruct Hok as [Hok ?]).
  apply Z.leb_le in Hok.
  assert (ubx_payload_length (store buf k y) = ubx_payload_length buf) as Epl.
  { unfold ubx_payload_length. rewrite !byte_at_store_other by lia.
    reflexivity. }
  assert (ubx_msg_size (store buf k y) = ubx_msg_size buf) as En.
  { unfold ubx_msg_size. now rewrite Epl. }
  rewrite parse_ubx_eq by (rewrite length_store; lia).
  cbv zeta. rewrite En, Epl, length_store.
  rewrite (byte_at_store_other buf k y 0), (byte_at_store_other buf k y 1)
    by lia.
  repeat match goal with
         | E : ?b = true |- context [?b] => rewrite E
         end.
  cbn [andb].
  match goal with
  | |- (if ?c then _ else _) = _ => assert (c = false) as ->; [| reflexivity]
  end.
  unfold ubx_msg_size, ubx_payload_length in *.
  set (pl := byte_at buf 4 + 256 * byte_at buf 5) in *.
  match goal with
  | Ea : (fst _ =? _) = true, Eb : (snd _ =? _) = true |- _ =>
      apply Z.eqb_eq in Ea; apply Z.eqb_eq in Eb
  end.
  destruct (Z.lt_ge_cases (Z.of_nat k) (6 + pl + 2 - 2)) as [Hin | Hck].
  - (* a byte of the class, the ID or the payload *)
    apply andb_false_intro1. apply Z.eqb_neq.
    rewrite byte_at_store_other by lia.
    match goal with Ea : fst _ = _ |- _ => rewrite <- Ea end.
    rewrite !fletcher_ck_a by lia.
    change (0 + 2) with 2.
    rewrite (range_sum_store_inside buf k x y _ Hx) by lia.
    rewrite Z.add_assoc. apply mod_256_shift; lia.
  - rewrite fletcher_store_outside by lia.
    destruct (Z.eq_dec (Z.of_nat k) (6 + pl + 2 - 2)) as [E2 | N2].
    + (* the first checksum byte *)
      apply andb_false_intro1. apply Z.eqb_neq.
      rewrite <- E2, byte_at_store_same by assumption.
      match goal with Ea : fst _ = _ |- _ => rewrite Ea end.
      rewrite <- E2, (byte_at_nth_error buf k x Hx). congruence.
    + (* the second checksum byte *)
      assert (Z.of_nat k = 6 + pl + 2 - 1) as E1 by lia.
      apply andb_false_intro2. apply Z.eqb_neq.
      rewrite <- E1, byte_at_store_same by assumption.
      match goal with Eb : snd _ = _ |- _ => rewrite Eb end.
      rewrite <- E1, (byte_at_nth_error buf k x Hx). congruence.
Qed.

Lemma parse_ubx_detects_changed_byte_witness :
  lgw_parse_ubx (Some (store timegps_frame_tow_only 7 xdf)) gps_vars_init
  = Ret (INVALID, 24, gps_vars_init).
Proof.
  apply (parse_ubx_detects_changed_byte timegps_frame_tow_only gps_vars_init
           7 xde xdf).
  - vm_compute. reflexivity.
  - vm_compute. split; congruence.
  - discriminate.
  - discriminate.
  - reflexivity.
  - discriminate.
Defined.

(** X4. [lgw_parse_ubx] changes the fix variables only when it returns
    UBX_NAV_TIMEGPS, and then only [gps_iTOW], [gps_fTOW], [gps_week] and
    [gps_time_ok]: the date, the position, the mode and the satellite count
    are never touched. *)
Theorem parse_ubx_changes_only_timegps
  (serial_buff : option (list byte)) (g g' : gps_vars) (kind : gps_msg)
  (n : Z) :
  lgw_parse_ubx serial_buff g = Ret (kind, n, g') ->
  (kind <> UBX_NAV_TIMEGPS -> g' = g)
  /\ exists itow ftow week ok,
       g' = set_time_ok (set_timegps g itow ftow week) ok.
Proof.
  intros H.
  assert (g = set_time_ok
                (set_timegps g (gps_iTOW g) (gps_fTOW g) (gps_week g))
                (gps_time_ok g)) as Hsame by (destruct g; reflexivity).
  destruct serial_buff as [buf |].
  - destruct (ubx_frame_ok buf) eqn:Eok.
    + rewrite (parse_ubx_frame_ok buf g Eok) in H.
      destruct (ubx_is_timegps buf).
      * destruct (Z.lt_ge_cases (Z.of_nat (length buf)) 18) as [Hlt | Hge].
        -- rewrite (ubx_nav_timegps_short buf g Hlt) in H. discriminate.
        -- rewrite (ubx_nav_timegps_eq buf g Hge) in H. cbn [bind] in H.
           injection H as <- <- <-.
           split; [congruence |].
           destruct (Z.land (byte_at buf 17) 3 =? 0).
           ++ exists (gps_iTOW g), (gps_fTOW g), (gps_week g), false.
              destruct g; reflexivity.
           ++ eauto.
      * injection H as <- <- <-. split; [reflexivity | eauto].
    + destruct (parse_ubx_not_frame_ok buf g Eok) as (k' & n' & E & _).
      rewrite E in H. injection H as <- <- <-.
      split; [reflexivity | eauto].
  - cbn in H. injection H as <- <- <-. split; [reflexivity | eauto].
Qed.

Lemma parse_ubx_changes_only_timegps_witness :
  (UBX_NAV_TIMEGPS <> UBX_NAV_TIMEGPS ->
   set_time_ok (set_timegps gps_vars_init 180149760 0 2200) true
   = gps_vars_init)
  /\ exists itow ftow week ok,
       set_time_ok (set_timegps gps_vars_init 180149760 0 2200) true
       = set_time_ok (set_timegps gps_vars_init itow ftow week) ok.
Proof.
  apply (parse_ubx_changes_only_timegps (Some timegps_frame_tow_only)
           gps_vars_init _ UBX_NAV_TIMEGPS 24).
  vm_compute. reflexivity.
Defined.

(** X5. A complete checksum-valid NAV-TIMEGPS frame of at least 18 bytes
    with a validity bit set is decoded little-endian: [gps_iTOW] is the
    unsigned value of bytes 6-9, [gps_fTOW] the two's complement value of
    bytes 10-13 and [gps_week] the two's complement value of bytes 14-15;
    [gps_time_ok] is set and the announced size is reported. *)
Theorem parse_ubx_timegps_decodes (buf : list byte) (g : gps_vars) :
  ubx_frame_ok buf = true ->
  ubx_is_timegps buf = true ->
  18 <= Z.of_nat (length buf) ->
  Z.land (byte_at buf 17) 3 <> 0 ->
  exists g',
    lgw_parse_ubx (Some buf) g = Ret (UBX_NAV_TIMEGPS, ubx_msg_size buf, g')
    /\ gps_time_ok g' = true
    /\ gps_iTOW g' = le_value buf 4 6
    /\ gps_fTOW g'
       = (if le_value buf 4 10 <? 2 ^ 31 then le_value buf 4 10
          else le_value buf 4 10 - 2 ^ 32)
    /\ gps_week g'
       = (if le_value buf 2 14 <? 2 ^ 15 then le_value buf 2 14
          else le_value buf 2 14 - 2 ^ 16).
Proof.
  intros Hok Ht Hlen Hv.
  rewrite (parse_ubx_frame_ok buf g Hok), Ht.
  rewrite (ubx_nav_timegps_eq buf g Hlen). cbn [bind].
  apply Z.eqb_neq in Hv. rewrite Hv.
  eexists. split; [reflexivity |].
  cbn [set_time_ok set_timegps gps_time_ok gps_iTOW gps_fTOW gps_week].
  split; [reflexivity |]. split; [reflexivity |].
  unfold to_signed.
  pose proof (le_value_range buf 4 10) as R4.
  pose proof (le_value_range buf 2 14) as R2.
  change (256 ^ Z.of_nat 4) with (2 ^ 32) in R4.
  change (256 ^ Z.of_nat 2) with (2 ^ 16) in R2.
  rewrite !Z.mod_small by lia.
  split; reflexivity.
Qed.

Lemma parse_ubx_timegps_decodes_witness :
  exists g',
    lgw_parse_ubx (Some timegps_frame_tow_only) gps_vars_init
    = Ret (UBX_NAV_TIMEGPS, 24, g')
    /\ gps_time_ok g' = true
    /\ gps_iTOW g' = 180149760
    /\ gps_fTOW g' = 0
    /\ gps_week g' = 2200.
Proof.
  apply (parse_ubx_timegps_decodes timegps_frame_tow_only gps_vars_init).
  - vm_compute. reflexivity.
  - vm_compute. reflexivity.
  - vm_compute. congruence.
  - vm_compute. congruence.
Defined.

(** X6. A complete checksum-valid NAV-TIMEGPS frame of at least 18 bytes
    whose two validity bits are clear clears [gps_time_ok] and changes
    nothing else: a time taken before, from an RMC sentence or from a UBX
    frame, is no longer reported as valid. *)
Theorem parse_ubx_timegps_invalidates (buf : list byte) (g : gps_vars) :
  ubx_frame_ok buf = true ->
  ubx_is_timegps buf = true ->
  18 <= Z.of_nat (length buf) ->
  Z.land (byte_at buf 17) 3 = 0 ->
  lgw_parse_ubx (Some buf) g
  = Ret (UBX_NAV_TIMEGPS, ubx_msg_size buf, set_time_ok g false).
Proof.
  intros Hok Ht Hlen Hv.
  rewrite (parse_ubx_frame_ok buf g Hok), Ht.
  rewrite (ubx_nav_timegps_eq buf g Hlen). cbn [bind].
  apply Z.eqb_eq in Hv. rewrite Hv. reflexivity.
Qed.

Lemma parse_ubx_timegps_invalidates_witness :
  lgw_parse_ubx (Some timegps_frame_no_valid)
    (set_time_ok gps_vars_init true)
  = Ret (UBX_NAV_TIMEGPS, 24, gps_vars_init).
Proof.
  apply (parse_ubx_timegps_invalidates timegps_frame_no_valid
           (set_time_ok gps_vars_init true)).
  - vm_compute. reflexivity.
  - vm_compute. reflexivity.
  - vm_compute. congruence.
  - vm_compute. reflexivity.
Defined.

(** X7. The size left in [*msg_size] is 0 or the size announced by the
    header, between 8 and 65543; it exceeds the buffer exactly when the kind
    is INCOMPLETE, so that after any other answer the caller can skip
    [*msg_size] bytes of the buffer. *)
Theorem parse_ubx_msg_size
  (buf : list byte) (g g' : gps_vars) (kind : gps_msg) (n : Z) :
  lgw_parse_ubx (Some buf) g = Ret (kind, n, g') ->
  (n = 0 \/ n = ubx_msg_size buf /\ 8 <= n <= 65543)
  /\ (kind = INCOMPLETE <-> Z.of_nat (length buf) < n).
Proof.
  intros H.
  assert (8 <= ubx_msg_size buf <= 65543) as Hr.
  { unfold ubx_msg_size, ubx_payload_length.
    pose proof (byte_at_range buf 4). pose proof (byte_at_range buf 5). lia. }
  destruct (ubx_frame_ok buf) eqn:Eok.
  - rewrite (parse_ubx_frame_ok buf g Eok) in H.
    unfold ubx_frame_ok in Eok.
    repeat (apply andb_prop in Eok; destruct Eok as [Eok ?]).
    match goal with
    | E : (ubx_msg_size buf <=? _) = true |- _ => apply Z.leb_le in E
    end.
    destruct (ubx_is_timegps buf).
    + destruct (ubx_nav_timegps buf g); [| discriminate].
      cbn [bind] in H. injection H as <- <- <-.
      split; [right; auto |]. split; [discriminate | lia].
    + injection H as <- <- <-.
      split; [right; auto |]. split; [discriminate | lia].
  - destruct (parse_ubx_not_frame_ok buf g Eok)
      as (k' & n' & E & _ & Hn & Hinc).
    rewrite E in H. injection H as <- <- <-.
    split.
    + destruct Hn as [Hn | Hn]; [left; exact Hn | right; split; [exact Hn | lia]].
    + destruct Hinc as [Hi1 Hi2].
      split; intros Q; [apply Hi1 in Q; lia | apply Hi2; lia].
Qed.

Lemma parse_ubx_msg_size_witness :
  (24 = 0 \/ 24 = ubx_msg_size (firstn 10 timegps_frame_tow_only)
             /\ 8 <= 24 <= 65543)
  /\ (INCOMPLETE = INCOMPLETE
      <-> Z.of_nat (length (firstn 10 timegps_frame_tow_only)) < 24).
Proof.
  apply (parse_ubx_msg_size (firstn 10 timegps_frame_tow_only)
           gps_vars_init gps_vars_init INCOMPLETE 24).
  vm_compute. reflexivity.
Defined.

(* ------------------------------------------------------------------------- *)
(** ** The NMEA checksum *)

Lemma lxor_byte_range (a b : Z) :
  0 <= a < 256 -> 0 <= b < 256 -> 0 <= Z.lxor a b < 256.
Proof.
  intros Ha Hb.
  assert (0 <= Z.lxor a b) as Hnn by (apply Z.lxor_nonneg; lia).
  split; [exact Hnn |].
  destruct (Z.eq_dec (Z.lxor a b) 0) as [-> | Hnz]; [lia |].
  change 256 with (2 ^ 8).
  apply Z.log2_lt_pow2; [lia |].
  pose proof (Z.log2_lxor a b ltac:(lia) ltac:(lia)) as Hl.
  assert (Z.log2 a < 8).
  { destruct (Z.eq_dec a 0) as [-> | ?]; [cbn; lia |].
    apply Z.log2_lt_pow2; [lia | change (2 ^ 8) with 256; lia]. }
  assert (Z.log2 b < 8).
  { destruct (Z.eq_dec b 0) as [-> | ?]; [cbn; lia |].
    apply Z.log2_lt_pow2; [lia | change (2 ^ 8) with 256; lia]. }
  lia.
Qed.

Lemma xor_all_cons (c : byte) (l : list byte) (acc : Z) :
  xor_all (c :: l) acc = xor_all l (Z.lxor acc (u8 c)).
Proof. reflexivity. Qed.

Lemma xor_all_range (l : list byte) :
  forall acc, 0 <= acc < 256 -> 0 <= xor_all l acc < 256.
Proof.
  induction l as [| c l IH]; intros acc Hacc; [exact Hacc |].
  rewrite xor_all_cons.
  apply IH. apply lxor_byte_range; [exact Hacc | apply u8_range].
Qed.

Lemma xor_all_lxor (l : list byte) :
  forall acc d, xor_all l (Z.lxor acc d) = Z.lxor (xor_all l acc) d.
Proof.
  induction l as [| c l IH]; intros acc d; [reflexivity |].
  rewrite !xor_all_cons, <- IH. f_equal.
  rewrite !Z.lxor_assoc. f_equal. apply Z.lxor_comm.
Qed.

Lemma xor_all_store (l : list byte) :
  forall (k : nat) (x y : byte) (acc : Z),
    nth_error l k = Some x ->
    xor_all (store l k y) acc
    = Z.lxor (xor_all l acc) (Z.lxor (u8 x) (u8 y)).
Proof.
  induction l as [| c l IH]; intros k x y acc Hx.
  - destruct k; discriminate.
  - destruct k as [| k].
    + injection Hx as ->. cbn [store]. rewrite !xor_all_cons.
      rewrite <- xor_all_lxor. f_equal.
      rewrite Z.lxor_assoc, <- (Z.lxor_assoc (u8 x)), Z.lxor_nilpotent.
      now rewrite Z.lxor_0_l.
    + cbn [store]. rewrite !xor_all_cons. apply IH. exact Hx.
Qed.

Lemma lxor_neq (a x y : Z) : x <> y -> Z.lxor a (Z.lxor x y) <> a.
Proof.
  intros Hne Heq. apply Hne.
  apply Z.lxor_eq.
  apply (f_equal (Z.lxor a)) in Heq.
  rewrite <- Z.lxor_assoc, Z.lxor_nilpotent, Z.lxor_0_l in Heq.
  exact Heq.
Qed.

(** The loop of [nmea_checksum] stops at the first ['*'] with the XOR of
    the characters before it. *)
Lemma nmea_xor_spec (rest : list byte) :
  forall (p : nat) (i check_num : Z),
    first_star rest p ->
    nmea_xor rest i check_num
    = Some (i + Z.of_nat p, xor_all (firstn p rest) check_num).
Proof.
  induction rest as [| c rest IH]; intros p i check_num Hfs.
  - destruct Hfs as [Hp _]. destruct p; discriminate Hp.
  - destruct p as [| p].
    + destruct Hfs as [Hp _]. injection Hp as ->.
      cbn. f_equal. f_equal. lia.
    + cbn [nmea_xor]. rewrite (first_star_head _ _ _ Hfs).
      rewrite (IH p (i + 1) (Z.lxor check_num (u8 c))
                 (first_star_tail _ _ _ Hfs)).
      cbn [firstn]. rewrite xor_all_cons. f_equal. f_equal. lia.
Qed.

Lemma nmea_xor_no_star (rest : list byte) :
  forall (i check_num : Z),
    (forall q, nth_error rest q <> Some "*"%byte) ->
    nmea_xor rest i check_num = None.
Proof.
  induction rest as [| c rest IH]; intros i check_num Hno; [reflexivity |].
  cbn [nmea_xor].
  destruct (u8 c =? u8 "*") eqn:E.
  - apply u8_eqb in E. subst c. exfalso. apply (Hno 0%nat). reflexivity.
  - apply IH. intros q. apply (Hno (S q)).
Qed.

Lemma nmea_checksum_spec (buf : list byte) (p : nat) :
  2 <= Z.of_nat (length buf) ->
  first_star buf p ->
  nmea_checksum buf
  = Some (Z.of_nat p + 1,
          nibble_to_hexchar (xor_all (nmea_body buf p) 0 / 16),
          nibble_to_hexchar (xor_all (nmea_body buf p) 0 mod 16)).
Proof.
  intros Hlen Hfs. unfold nmea_checksum, nmea_body.
  destruct (Z.leb_spec (Z.of_nat (length buf)) 1) as [Hle | _]; [lia |].
  destruct buf as [| c rest]; [cbn in Hlen; lia |].
  destruct (u8 c =? u8 "$") eqn:E.
  - apply u8_eqb in E. subst c.
    destruct p as [| p].
    + destruct Hfs as [Hp _]. discriminate Hp.
    + change (skipn (Z.to_nat 1) ("$"%byte :: rest)) with rest.
      rewrite (nmea_xor_spec rest p 1 0 (first_star_tail _ _ _ Hfs)).
      replace (S p - 1)%nat with p by lia.
      f_equal. f_equal. f_equal. lia.
  - change (skipn (Z.to_nat 0) (c :: rest)) with (c :: rest).
    rewrite (nmea_xor_spec (c :: rest) p 0 0 Hfs). reflexivity.
Qed.

Lemma nmea_checksum_no_star (buf : list byte) :
  (forall q, nth_error buf q <> Some "*"%byte) ->
  nmea_checksum buf = None.
Proof.
  intros Hno. unfold nmea_checksum.
  destruct (Z.of_nat (length buf) <=? 1); [reflexivity |].
  destruct buf as [| c rest]; [reflexivity |].
  destruct (u8 c =? u8 "$").
  - change (skipn (Z.to_nat 1) (c :: rest)) with rest.
    rewrite nmea_xor_no_star; [reflexivity |].
    intros q. apply (Hno (S q)).
  - change (skipn (Z.to_nat 0) (c :: rest)) with (c :: rest).
    rewrite nmea_xor_no_star; [reflexivity | exact Hno].
Qed.

(** The two characters of [nmea_checksum] are hexadecimal digits. *)
Lemma hex_value_nibble (a : Z) :
  0 <= a < 16 -> hex_value (nibble_to_hexchar a) = a.
Proof.
  intros Ha. unfold hex_value, nibble_to_hexchar.
  change (u8 "0") with 48. change (u8 "9") with 57.
  change (u8 "A") with 65. change (u8 "F") with 70.
  destruct (Z.ltb_spec a 10).
  - destruct (Z.leb_spec 48 (48 + a)); [| lia].
    destruct (Z.leb_spec (48 + a) 57); [| lia]. cbn [andb]. lia.
  - destruct (Z.ltb_spec a 16); [| lia].
    destruct (Z.leb_spec 48 (65 + (a - 10))); [| lia].
    destruct (Z.leb_spec (65 + (a - 10)) 57); [lia |]. cbn [andb].
    destruct (Z.leb_spec 65 (65 + (a - 10))); [| lia].
    destruct (Z.leb_spec (65 + (a - 10)) 70); [| lia]. cbn [andb]. lia.
Qed.

Lemma hex_pair_inj (v w : Z) :
  0 <= v < 256 -> 0 <= w < 256 ->
  nibble_to_hexchar (v / 16) = nibble_to_hexchar (w / 16) ->
  nibble_to_hexchar (v mod 16) = nibble_to_hexchar (w mod 16) ->
  v = w.
Proof.
  intros Hv Hw Hhi Hlo.
  apply (f_equal hex_value) in Hhi. apply (f_equal hex_value) in Hlo.
  assert (forall u, 0 <= u < 256 -> 0 <= u / 16 < 16) as Hdiv.
  { intros u Hu. split; [apply Z.div_pos; lia |].
    apply Z.div_lt_upper_bound; lia. }
  assert (forall u, 0 <= u mod 16 < 16) as Hmod.
  { intros u. apply Z.mod_pos_bound. lia. }
  rewrite !hex_value_nibble in Hhi, Hlo by auto.
  rewrite (Z.div_mod v 16), (Z.div_mod w 16) by lia. lia.
Qed.

Lemma nibble_hex_value (c : Z) :
  hex_value c < 16 -> nibble_to_hexchar (hex_value c) = c.
Proof.
  unfold hex_value, nibble_to_hexchar.
  change (u8 "0") with 48. change (u8 "9") with 57.
  change (u8 "A") with 65. change (u8 "F") with 70.
  destruct (Z.leb_spec 48 c); destruct (Z.leb_spec c 57); cbn [andb];
    destruct (Z.leb_spec 65 c); destruct (Z.leb_spec c 70); cbn [andb];
    intros Hlt; try lia;
    repeat match goal with
           | |- context [?a <? ?b] => destruct (Z.ltb_spec a b)
           end; lia.
Qed.

Lemma hex_value_range (c : Z) : 0 <= c -> 0 <= hex_value c <= 16.
Proof.
  intros Hc. unfold hex_value.
  change (u8 "0") with 48. change (u8 "9") with 57.
  change (u8 "A") with 65. change (u8 "F") with 70.
  destruct (Z.leb_spec 48 c); destruct (Z.leb_spec c 57); cbn [andb];
    destruct (Z.leb_spec 65 c); destruct (Z.leb_spec c 70); cbn [andb]; lia.
Qed.

(** The outcome of [validate_nmea_checksum] on a buffer whose first ['*'] is
    at index [p]. *)
Lemma validate_spec (buf : list byte) (p : nat) :
  2 <= Z.of_nat (length buf) ->
  first_star buf p ->
  validate_nmea_checksum buf
  = Ret ((Z.of_nat p + 3 <? Z.of_nat (length buf))
         && (byte_at buf (Z.of_nat p + 1)
             =? nibble_to_hexchar (xor_all (nmea_body buf p) 0 / 16))
         && (byte_at buf (Z.of_nat p + 1 + 1)
             =? nibble_to_hexchar (xor_all (nmea_body buf p) 0 mod 16))).
Proof.
  intros Hlen Hfs. unfold validate_nmea_checksum.
  rewrite (nmea_checksum_spec buf p Hlen Hfs).
  destruct (Z.geb_spec (Z.of_nat p + 1) (Z.of_nat (length buf) - 2)).
  - destruct (Z.ltb_spec (Z.of_nat p + 3) (Z.of_nat (length buf)));
      [lia | reflexivity].
  - destruct (Z.ltb_spec (Z.of_nat p + 3) (Z.of_nat (length buf)));
      [| lia].
    rewrite rd_in_range by lia. cbn [bind andb].
    destruct (byte_at buf (Z.of_nat p + 1) =? _); [| reflexivity].
    rewrite rd_in_range by lia. reflexivity.
Qed.

Lemma validate_no_star (buf : list byte) :
  (forall q, nth_error buf q <> Some "*"%byte) ->
  validate_nmea_checksum buf = Ret false.
Proof.
  intros Hno. unfold validate_nmea_checksum.
  now rewrite (nmea_checksum_no_star buf Hno).
Qed.

(** Either a buffer has a first ['*'] or it has none. *)
Lemma first_star_dec (buf : list byte) :
  (exists p, first_star buf p)
  \/ (forall q, nth_error buf q <> Some "*"%byte).
Proof.
  induction buf as [| c buf IH].
  - right. intros [| q]; discriminate.
  - destruct (Byte.byte_eq_dec c "*"%byte) as [-> | Hc].
    + left. exists 0%nat. split; [reflexivity | intros q Hq; lia].
    + destruct IH as [[p [Hp Hq]] | Hno].
      * left. exists (S p). split; [exact Hp |].
        intros [| q] Hlt; [cbn; congruence | apply Hq; lia].
      * right. intros [| q]; [cbn; congruence | apply Hno].
Qed.

Lemma firstn_store (l : list byte) :
  forall (n k : nat) (y : byte),
    firstn n (store l k y)
    = if (k <? n)%nat then store (firstn n l) k y else firstn n l.
Proof.
  induction l as [| c l IH]; intros n k y.
  - cbn [store]. rewrite firstn_nil.
    destruct (k <? n)%nat; reflexivity.
  - destruct n as [| n], k as [| k]; try reflexivity.
    + cbn [store firstn]. rewrite IH.
      change (S k <? S n)%nat with (k <? n)%nat.
      destruct (k <? n)%nat; reflexivity.
Qed.

Lemma first_star_store (buf : list byte) (p k : nat) (y : byte) :
  first_star buf p ->
  (p < k)%nat \/ ((k < p)%nat /\ y <> "*"%byte) ->
  first_star (store buf k y) p.
Proof.
  intros [Hp Hq] Hk. split.
  - rewrite nth_error_store_other by lia. exact Hp.
  - intros q Hlt.
    destruct (Nat.eq_dec q k) as [-> | Hne].
    + destruct Hk as [? | [_ Hy]]; [lia |].
      destruct (Nat.lt_ge_cases k (length buf)) as [Hin | Hout].
      * rewrite nth_error_store_same by assumption. congruence.
      * assert (nth_error (store buf k y) k = None) as ->; [| discriminate].
        apply nth_error_None. rewrite length_store. lia.
    + rewrite nth_error_store_other by assumption. apply Hq, Hlt.
Qed.

Lemma nth_error_firstn_lt (l : list byte) (n k : nat) :
  (k < n)%nat -> nth_error (firstn n l) k = nth_error l k.
Proof.
  revert n k. induction l as [| c l IH]; intros n k Hk.
  - destruct n, k; reflexivity.
  - destruct n as [| n]; [lia |].
    destruct k as [| k]; [reflexivity |].
    cbn. apply IH. lia.
Qed.

(** The XOR covered by the checksum after a change of one character. *)
Lemma nmea_body_store (buf : list byte) (p k : nat) (x y : byte) :
  (1 <= k < p)%nat ->
  nth_error buf k = Some x ->
  xor_all (nmea_body (store buf k y) p) 0
  = Z.lxor (xor_all (nmea_body buf p) 0) (Z.lxor (u8 x) (u8 y)).
Proof.
  intros Hk Hx. unfold nmea_body.
  destruct buf as [| c rest]; [destruct k; discriminate |].
  destruct k as [| k]; [lia |].
  cbn [store]. cbn [nth_error] in Hx.
  destruct (u8 c =? u8 "$").
  - rewrite firstn_store.
    destruct (Nat.ltb_spec k (p - 1)) as [_ | ?]; [| lia].
    apply xor_all_store.
    rewrite nth_error_firstn_lt by lia. exact Hx.
  - change (c :: store rest k y) with (store (c :: rest) (S k) y).
    rewrite firstn_store.
    destruct (Nat.ltb_spec (S k) p) as [_ | ?]; [| lia].
    apply xor_all_store.
    rewrite nth_error_firstn_lt by lia. exact Hx.
Qed.

Lemma nmea_body_store_after (buf : list byte) (p k : nat) (y : byte) :
  (p < k)%nat -> nmea_body (store buf k y) p = nmea_body buf p.
Proof.
  intros Hk. unfold nmea_body.
  destruct buf as [| c rest]; [reflexivity |].
  destruct k as [| k]; [lia |].
  cbn [store].
  destruct (u8 c =? u8 "$").
  - rewrite firstn_store.
    destruct (Nat.ltb_spec k (p - 1)); [lia | reflexivity].
  - change (c :: store rest k y) with (store (c :: rest) (S k) y).
    rewrite firstn_store.
    destruct (Nat.ltb_spec (S k) p); [lia | reflexivity].
Qed.

(** A change of one character before the ['*'] (the first character apart)
    or of one of the two checksum characters is caught. *)
Lemma validate_detects_changed_byte
  (buf : list byte) (p k : nat) (x y : byte) :
  2 <= Z.of_nat (length buf) ->
  first_star buf p ->
  validate_nmea_checksum buf = Ret true ->
  ((1 <= k < p)%nat /\ y <> "*"%byte) \/ k = S p \/ k = S (S p) ->
  nth_error buf k = Some x ->
  y <> x ->
  validate_nmea_checksum (store buf k y) = Ret false.
Proof.
  intros Hlen Hfs Hv Hk Hx Hy.
  assert (k < length buf)%nat as Hklen by (apply nth_error_Some; congruence).
  assert (u8 y <> u8 x) as Hu by (intros E; apply Hy, u8_inj, E).
  rewrite (validate_spec buf p Hlen Hfs) in Hv.
  injection Hv as Hv.
  apply andb_prop in Hv. destruct Hv as [Hv H2].
  apply andb_prop in Hv. destruct Hv as [H0 H1].
  apply Z.eqb_eq in H1, H2.
  assert (first_star (store buf k y) p) as Hfs'.
  { apply first_star_store; [exact Hfs |].
    destruct Hk as [[? ?] | [-> | ->]]; [right; split; [lia | assumption] | |];
      left; lia. }
  rewrite (validate_spec (store buf k y) p) by (rewrite ?length_store; auto).
  rewrite length_store, H0. cbn [andb]. f_equal.
  destruct Hk as [[Hin Hstar] | [-> | ->]].
  - rewrite !byte_at_store_other by lia.
    rewrite (nmea_body_store buf p k x y Hin Hx).
    set (X := xor_all (nmea_body buf p) 0) in *.
    set (X' := Z.lxor X (Z.lxor (u8 x) (u8 y))).
    destruct (Z.eqb_spec (byte_at buf (Z.of_nat p + 1))
                (nibble_to_hexchar (X' / 16))) as [E1 |]; [| reflexivity].
    destruct (Z.eqb_spec (byte_at buf (Z.of_nat p + 1 + 1))
                (nibble_to_hexchar (X' mod 16))) as [E2 |]; [| reflexivity].
    exfalso.
    assert (0 <= X < 256) as RX by (apply xor_all_range; lia).
    assert (0 <= X' < 256) as RX'.
    { apply lxor_byte_range; [exact RX |].
      apply lxor_byte_range; apply u8_range. }
    assert (X' = X) as E.
    { apply hex_pair_inj; congruence || assumption. }
    apply (lxor_neq X (u8 x) (u8 y)); [congruence | exact E].
  - rewrite nmea_body_store_after by lia.
    replace (Z.of_nat p + 1) with (Z.of_nat (S p)) by lia.
    rewrite byte_at_store_same by assumption.
    replace (Z.of_nat (S p)) with (Z.of_nat p + 1) in * by lia.
    apply andb_false_intro1. apply Z.eqb_neq.
    rewrite <- H1.
    replace (Z.of_nat p + 1) with (Z.of_nat (S p)) by lia.
    rewrite (byte_at_nth_error buf (S p) x Hx). exact Hu.
  - rewrite nmea_body_store_after by lia.
    replace (Z.of_nat p + 1 + 1) with (Z.of_nat (S (S p))) by lia.
    rewrite byte_at_store_same by assumption.
    apply andb_false_intro2. apply Z.eqb_neq.
    replace (Z.of_nat p + 1 + 1) with (Z.of_nat (S (S p))) in H2 by lia.
    rewrite <- H2.
    rewrite (byte_at_nth_error buf (S (S p)) x Hx). exact Hu.
Qed.

(* ------------------------------------------------------------------------- *)
(** ** [str_chop] *)

Lemma c_str_cons (c : byte) (s : list byte) :
  c_str (c :: s) = if u8 c =? 0 then [] else c :: c_str s.
Proof. reflexivity. Qed.

Lemma u8_x00 (c : byte) : (u8 c =? 0) = true -> c = x00.
Proof.
  intros H. apply u8_inj. apply Z.eqb_eq in H. rewrite H. reflexivity.
Qed.

Lemma count_sep_cons (sep c : byte) (l : list byte) :
  count_sep sep (c :: l)
  = (if u8 c =? u8 sep then 1 else 0) + count_sep sep l.
Proof.
  unfold count_sep. cbn [count_occ].
  destruct (Byte.byte_eq_dec c sep) as [-> | Hne].
  - rewrite Z.eqb_refl. lia.
  - destruct (Z.eqb_spec (u8 c) (u8 sep)) as [E |]; [| lia].
    exfalso. apply Hne, u8_inj, E.
Qed.

Lemma count_sep_nonneg (sep : byte) (l : list byte) : 0 <= count_sep sep l.
Proof. unfold count_sep. lia. Qed.

Lemma join_cons_cons (sep c : byte) (t : list byte) (ts : list (list byte)) :
  join sep ((c :: t) :: ts) = c :: join sep (t :: ts).
Proof. destruct ts; reflexivity. Qed.

Lemma join_nil_cons (sep : byte) (t : list byte) (ts : list (list byte)) :
  join sep ([] :: t :: ts) = sep :: join sep (t :: ts).
Proof. reflexivity. Qed.

Lemma token_cons (c : byte) (r : list byte) (e : Z) :
  1 <= e -> token (c :: r) e = token r (e - 1).
Proof.
  intros He. unfold token.
  replace (Z.to_nat e) with (S (Z.to_nat (e - 1))) by lia.
  reflexivity.
Qed.

(** What the loop of [str_chop] computes from string index [i] and result
    index [j], for a separator that is not the null character. *)
Lemma str_chop_loop_spec (sep : byte) (max_idx : Z) :
  u8 sep <> 0 ->
  forall (rest : list byte) (i j : Z) (idx : list Z)
         (n : Z) (r : list byte) (a : list Z),
    str_chop_loop rest i j (u8 sep) max_idx idx = (n, r, a) ->
    j <= max_idx ->
    length r = length rest
    /\ n = Z.min max_idx (j + count_sep sep (c_str rest))
    /\ exists new,
         a = idx ++ new
         /\ Z.of_nat (length new) = n - j
         /\ Forall (fun e => i < e <= i + Z.of_nat (length (c_str rest))) new
         /\ (j + count_sep sep (c_str rest) <= max_idx ->
             c_str rest
             = join sep (c_str r :: map (fun e => token r (e - i)) new)).
Proof.
  intros Hsep.
  induction rest as [| c rest IH]; intros i j idx n r a H Hj.
  - cbn in H. injection H as <- <- <-.
    change (count_sep sep (c_str [])) with 0.
    split; [reflexivity |]. split; [lia |].
    exists []. rewrite app_nil_r.
    split; [reflexivity |]. split; [cbn [length]; lia |].
    split; [constructor |]. intros _. reflexivity.
  - cbn [str_chop_loop] in H. rewrite c_str_cons.
    destruct (u8 c =? 0) eqn:E0.
    { injection H as <- <- <-.
      change (count_sep sep []) with 0.
      split; [reflexivity |]. split; [lia |].
      exists []. rewrite app_nil_r.
      split; [reflexivity |]. split; [cbn [length]; lia |].
      split; [constructor |].
      intros _. rewrite c_str_cons, E0. reflexivity. }
    rewrite count_sep_cons.
    pose proof (count_sep_nonneg sep (c_str rest)) as Hcnt.
    destruct (u8 c =? u8 sep) eqn:Es.
    + (* a separator *)
      apply u8_eqb in Es. subst c.
      destruct (Z.geb_spec j max_idx) as [Hcap | Hroom].
      * injection H as <- <- <-.
        split; [reflexivity |]. split; [lia |].
        exists []. rewrite app_nil_r.
        split; [reflexivity |]. split; [cbn [length]; lia |].
        split; [constructor |]. intros Q. exfalso. lia.
      * destruct (str_chop_loop rest (i + 1) (j + 1) (u8 sep) max_idx
                    (idx ++ [i + 1])) as [[n' r'] a'] eqn:E.
        injection H as <- <- <-.
        destruct (IH _ _ _ _ _ _ E ltac:(lia))
          as (Hlen & Hn & new & Ha & Hnew & Hall & Hjoin).
        split; [cbn; now rewrite Hlen |]. split; [lia |].
        exists ((i + 1) :: new).
        split; [rewrite Ha, <- app_assoc; reflexivity |].
        split; [cbn [length]; lia |].
        split.
        { constructor; [cbn [length]; lia |].
          eapply Forall_impl; [| exact Hall].
          cbn [length]. intros e He. lia. }
        intros Hroom'.
        rewrite Hjoin by lia.
        cbn [map].
        rewrite c_str_cons. change (u8 x00 =? 0) with true. cbn iota.
        rewrite join_nil_cons. f_equal.
        rewrite token_cons by lia.
        replace (i + 1 - i - 1) with 0 by lia.
        change (token r' 0) with (c_str r').
        f_equal. f_equal.
        apply map_ext_in. intros e He.
        rewrite Forall_forall in Hall. specialize (Hall e He).
        rewrite token_cons by lia. f_equal. lia.
    + (* any other character *)
      destruct (str_chop_loop rest (i + 1) j (u8 sep) max_idx idx)
        as [[n' r'] a'] eqn:E.
      injection H as <- <- <-.
      destruct (IH _ _ _ _ _ _ E Hj)
        as (Hlen & Hn & new & Ha & Hnew & Hall & Hjoin).
      split; [cbn; now rewrite Hlen |]. split; [lia |].
      exists new.
      split; [exact Ha |]. split; [exact Hnew |].
      split.
      { eapply Forall_impl; [| exact Hall].
        cbn [length]. intros e He. lia. }
      intros Hroom'.
      rewrite Hjoin by lia.
      rewrite c_str_cons, E0, join_cons_cons. f_equal. f_equal. f_equal.
      apply map_ext_in. intros e He.
      rewrite Forall_forall in Hall. specialize (Hall e He).
      rewrite token_cons by lia. f_equal. lia.
Qed.

Lemma c_str_store_end (s : list byte) :
  forall k : nat,
    (k < length s)%nat -> c_str (store s k x00) = c_str (firstn k s).
Proof.
  induction s as [| c s IH]; intros k Hk; [cbn in Hk; lia |].
  destruct k as [| k].
  - reflexivity.
  - cbn [store firstn]. rewrite !c_str_cons.
    destruct (u8 c =? 0); [reflexivity |].
    f_equal. apply IH. cbn in Hk. lia.
Qed.

Lemma length_c_str (s : list byte) : (length (c_str s) <= length s)%nat.
Proof.
  induction s as [| c s IH]; [reflexivity |].
  rewrite c_str_cons. destruct (u8 c =? 0); cbn [length]; lia.
Qed.

(** [str_chop] on a buffer of [buff_size] characters or more. *)
Lemma str_chop_spec
  (s : list byte) (buff_size max_idx : Z) (sep : byte)
  (n : Z) (s' : list byte) (idx : list Z) :
  0 < buff_size <= Z.of_nat (length s) ->
  u8 sep <> 0 ->
  0 < max_idx ->
  str_chop s buff_size (u8 sep) max_idx = (n, s', idx) ->
  let str := c_str (firstn (Z.to_nat (buff_size - 1)) s) in
  length s' = length s
  /\ n = Z.min max_idx (1 + count_sep sep str)
  /\ exists new,
       idx = 0 :: new
       /\ Z.of_nat (length new) = n - 1
       /\ Forall (fun e => 0 < e < buff_size) new
       /\ (1 + count_sep sep str <= max_idx ->
           str = join sep (map (token s') idx)).
Proof.
  intros Hb Hsep Hmax H str. subst str. unfold str_chop in H.
  destruct (Z.ltb_spec buff_size 0); [lia |].
  destruct (Z.eqb_spec (u8 sep) 0); [contradiction |].
  destruct (Z.ltb_spec max_idx 0); [lia |].
  destruct (Z.eqb_spec buff_size 0); [lia |].
  destruct (Z.eqb_spec max_idx 0); [lia |].
  cbn [orb] in H.
  destruct (str_chop_loop_spec sep max_idx Hsep _ _ _ _ _ _ _ H ltac:(lia))
    as (Hlen & Hn & new & Ha & Hnew & Hall & Hjoin).
  rewrite c_str_store_end in Hn, Hall, Hjoin by lia.
  rewrite length_store in Hlen.
  split; [exact Hlen |]. split; [exact Hn |].
  exists new. split; [exact Ha |]. split; [exact Hnew |].
  split.
  - eapply Forall_impl; [| exact Hall].
    intros e He. cbv beta in He.
    pose proof (length_c_str (firstn (Z.to_nat (buff_size - 1)) s)) as L1.
    rewrite length_firstn in L1. lia.
  - intros Hroom. rewrite (Hjoin Hroom), Ha.
    cbn [map app]. f_equal. f_equal.
    apply map_ext. intros e. f_equal. lia.
Qed.

Lemma str_chop_indexes
  (s : list byte) (buff_size max_idx : Z) (sep : byte)
  (n : Z) (s' : list byte) (idx : list Z) :
  0 < buff_size <= Z.of_nat (length s) ->
  u8 sep <> 0 ->
  0 < max_idx ->
  str_chop s buff_size (u8 sep) max_idx = (n, s', idx) ->
  n = Z.min max_idx
        (1 + count_sep sep (c_str (firstn (Z.to_nat (buff_size - 1)) s)))
  /\ Forall (fun e => 0 <= e < buff_size) idx
  /\ length s' = length s.
Proof.
  intros Hb Hsep Hmax H.
  destruct (str_chop_spec s buff_size max_idx sep n s' idx Hb Hsep Hmax H)
    as (Hlen & Hn & new & Ha & Hnew & Hall & _).
  split; [exact Hn |].
  split; [| exact Hlen].
  rewrite Ha. constructor; [lia |].
  eapply Forall_impl; [| exact Hall]. cbv beta. intros e He. lia.
Qed.

(** X8. On a buffer of at least [buff_size] characters, with a separator
    other than the null character, [str_chop] returns one more than the
    number of separators of the string (the buffer cut at [buff_size - 1]
    and at its first null character), at most [max_idx]; it fills that many
    indexes, all within the first [buff_size] characters, and keeps the
    length of the buffer. *)
Theorem str_chop_count
  (s : list byte) (buff_size max_idx : Z) (sep : byte)
  (n : Z) (s' : list byte) (idx : list Z) :
  0 < buff_size <= Z.of_nat (length s) ->
  u8 sep <> 0 ->
  0 < max_idx ->
  str_chop s buff_size (u8 sep) max_idx = (n, s', idx) ->
  n = Z.min max_idx
        (1 + count_sep sep (c_str (firstn (Z.to_nat (buff_size - 1)) s)))
  /\ Z.of_nat (length idx) = n
  /\ Forall (fun e => 0 <= e < buff_size) idx
  /\ length s' = length s.
Proof.
  intros Hb Hsep Hmax H.
  destruct (str_chop_spec s buff_size max_idx sep n s' idx Hb Hsep Hmax H)
    as (_ & _ & new & Ha & Hnew & _).
  destruct (str_chop_indexes s buff_size max_idx sep n s' idx Hb Hsep Hmax H)
    as (Hn & Hall & Hlen).
  split; [exact Hn |].
  split; [rewrite Ha; cbn [length]; lia |].
  split; assumption.
Qed.

Lemma str_chop_count_witness :
  2 = Z.min 30 (1 + count_sep ","
                      (c_str (firstn (Z.to_nat (5 - 1))
                                ["a"; ","; "b"; "c"; "d"]%byte)))
  /\ Z.of_nat (length [0; 2]) = 2
  /\ Forall (fun e => 0 <= e < 5) [0; 2]
  /\ length ["a"; x00; "b"; "c"; x00]%byte
     = length ["a"; ","; "b"; "c"; "d"]%byte.
Proof.
  apply (str_chop_count ["a"; ","; "b"; "c"; "d"]%byte 5 30 ","%byte
           2 ["a"; x00; "b"; "c"; x00]%byte [0; 2]).
  - cbn. lia.
  - discriminate.
  - lia.
  - reflexivity.
Defined.

(** X9. When the index array has room for every token, the tokens
    [str_chop] leaves in the buffer, put together again with the separator
    between them, are the string it was given: the buffer cut at
    [buff_size - 1] and at its first null character. *)
Theorem str_chop_join
  (s : list byte) (buff_size max_idx : Z) (sep : byte)
  (n : Z) (s' : list byte) (idx : list Z) :
  0 < buff_size <= Z.of_nat (length s) ->
  u8 sep <> 0 ->
  0 < max_idx ->
  str_chop s buff_size (u8 sep) max_idx = (n, s', idx) ->
  1 + count_sep sep (c_str (firstn (Z.to_nat (buff_size - 1)) s)) <= max_idx ->
  join sep (map (token s') idx)
  = c_str (firstn (Z.to_nat (buff_size - 1)) s).
Proof.
  intros Hb Hsep Hmax H Hroom.
  destruct (str_chop_spec s buff_size max_idx sep n s' idx Hb Hsep Hmax H)
    as (_ & _ & new & _ & _ & _ & Hjoin).
  symmetry. apply Hjoin, Hroom.
Qed.

Lemma str_chop_join_witness :
  join "," (map (token ["a"; x00; "b"; "c"; x00]%byte) [0; 2])
  = c_str (firstn (Z.to_nat (5 - 1)) ["a"; ","; "b"; "c"; "d"]%byte).
Proof.
  apply (str_chop_join ["a"; ","; "b"; "c"; "d"]%byte 5 30 ","%byte
           2 ["a"; x00; "b"; "c"; x00]%byte [0; 2]).
  - cbn. lia.
  - discriminate.
  - lia.
  - reflexivity.
  - vm_compute. congruence.
Defined.

(* ------------------------------------------------------------------------- *)
(** ** [match_label] *)

Lemma match_label_spec (s : list byte) (wildcard : Z) :
  forall (label : list byte) (i : Z),
    0 <= i ->
    i + Z.of_nat (length label) <= Z.of_nat (length s) ->
    exists b,
      match_label s label i wildcard = Ret b
      /\ (b = true
          <-> forall (k : nat) (l : byte),
                nth_error label k = Some l ->
                u8 l = wildcard \/ u8 l = byte_at s (i + Z.of_nat k)).
Proof.
  induction label as [| l label IH]; intros i Hi Hlen.
  - exists true. split; [reflexivity |].
    split; [| reflexivity]. intros _ [| k] c; discriminate.
  - cbn [length] in Hlen.
    destruct (IH (i + 1) ltac:(lia) ltac:(lia)) as (b & Hb & Hiff).
    assert ((forall (k : nat) (c : byte),
               nth_error (l :: label) k = Some c ->
               u8 c = wildcard \/ u8 c = byte_at s (i + Z.of_nat k))
            <-> (u8 l = wildcard \/ u8 l = byte_at s i) /\ b = true) as Hstep.
    { rewrite Hiff. split.
      - intros H. split.
        + specialize (H 0%nat l eq_refl).
          now rewrite Z.add_0_r in H.
        + intros k c Hk. specialize (H (S k) c Hk).
          now replace (i + 1 + Z.of_nat k) with (i + Z.of_nat (S k)) by lia.
      - intros [H0 H] [| k] c Hk.
        + injection Hk as <-. now rewrite Z.add_0_r.
        + replace (i + Z.of_nat (S k)) with (i + 1 + Z.of_nat k) by lia.
          apply H, Hk. }
    cbn [match_label].
    destruct (Z.eqb_spec (u8 l) wildcard) as [Ew | Nw].
    + exists b. split; [exact Hb |]. rewrite Hstep. tauto.
    + rewrite rd_in_range by lia. cbn [bind].
      destruct (Z.eqb_spec (u8 l) (byte_at s i)) as [Es | Ns].
      * exists b. split; [exact Hb |]. rewrite Hstep. tauto.
      * exists false. split; [reflexivity |]. rewrite Hstep.
        split; [discriminate | tauto].
Qed.

Lemma match_label_G (buf : list byte) (a b c : byte) :
  6 <= Z.of_nat (length buf) ->
  u8 a <> u8 "?" -> u8 b <> u8 "?" -> u8 c <> u8 "?" ->
  exists r,
    match_label buf ["$"; "G"; "?"; a; b; c]%byte 0 (u8 "?") = Ret r
    /\ (r = true <-> has_label buf a b c).
Proof.
  intros Hlen Ha Hb Hc.
  destruct (match_label_spec buf (u8 "?") ["$"; "G"; "?"; a; b; c]%byte 0
              ltac:(lia) ltac:(cbn [length]; lia)) as (r & Hr & Hiff).
  exists r. split; [exact Hr |]. rewrite Hiff. unfold has_label.
  split.
  - intros H.
    pose proof (H 0%nat _ eq_refl) as H0.
    pose proof (H 1%nat _ eq_refl) as H1.
    pose proof (H 3%nat _ eq_refl) as H3.
    pose proof (H 4%nat _ eq_refl) as H4.
    pose proof (H 5%nat _ eq_refl) as H5.
    cbn in H0, H1, H3, H4, H5.
    repeat split.
    + destruct H0 as [H0 | H0]; [discriminate H0 | now rewrite <- H0].
    + destruct H1 as [H1 | H1]; [discriminate H1 | now rewrite <- H1].
    + destruct H3 as [H3 | H3]; [contradiction | now rewrite <- H3].
    + destruct H4 as [H4 | H4]; [contradiction | now rewrite <- H4].
    + destruct H5 as [H5 | H5]; [contradiction | now rewrite <- H5].
  - intros (H0 & H1 & H3 & H4 & H5) k l Hk.
    do 6 (destruct k as [| k];
          [injection Hk as <-; cbn; auto |]).
    destruct k; discriminate.
Qed.

(** X10. When the string has at least as many characters as the label,
    [match_label] answers true exactly when every character of the label is
    the wildcard or the character of the string at the same place. *)
Theorem match_label_iff (s label : list byte) (wildcard : Z) :
  (length label <= length s)%nat ->
  match_label s label 0 wildcard = Ret true
  <-> forall (k : nat) (l : byte),
        nth_error label k = Some l ->
        u8 l = wildcard \/ u8 l = byte_at s (Z.of_nat k).
Proof.
  intros Hlen.
  destruct (match_label_spec s wildcard label 0 ltac:(lia) ltac:(lia))
    as (b & Hb & Hiff).
  rewrite Hb, <- Hiff. split; [now intros [= ->] | now intros ->].
Qed.

Lemma match_label_iff_witness :
  match_label gga_sentence label_GGA 0 (u8 "?") = Ret true
  <-> forall (k : nat) (l : byte),
        nth_error label_GGA k = Some l ->
        u8 l = u8 "?" \/ u8 l = byte_at gga_sentence (Z.of_nat k).
Proof.
  apply (match_label_iff gga_sentence label_GGA (u8 "?")).
  vm_compute. repeat constructor.
Defined.

(* ------------------------------------------------------------------------- *)
(** ** Further properties of [lgw_parse_nmea] *)

Lemma validate_total (buf : list byte) :
  exists b, validate_nmea_checksum buf = Ret b.
Proof.
  destruct (Z.lt_ge_cases (Z.of_nat (length buf)) 2) as [Hshort | Hlen].
  - exists false. unfold validate_nmea_checksum, nmea_checksum.
    destruct (Z.leb_spec (Z.of_nat (length buf)) 1); [reflexivity | lia].
  - destruct (first_star_dec buf) as [[p Hp] | Hno].
    + eexists. apply (validate_spec buf p); [lia | exact Hp].
    + exists false. apply validate_no_star, Hno.
Qed.

Lemma str_index_range (idx : list Z) (b : Z) (k : nat) :
  0 < b -> Forall (fun e => 0 <= e < b) idx -> 0 <= str_index idx k < b.
Proof.
  intros Hb Hall. unfold str_index.
  destruct (nth_in_or_default k idx 0) as [Hin | ->]; [| lia].
  rewrite Forall_forall in Hall. apply (Hall _ Hin).
Qed.

Lemma commas_parser_buf (buf : list byte) :
  count_sep ","
    (c_str (firstn (Z.to_nat (Z.of_nat (length buf) - 1)) (buf ++ [x00])))
  = commas buf.
Proof.
  unfold commas.
  replace (Z.to_nat (Z.of_nat (length buf) - 1)) with (length buf - 1)%nat
    by lia.
  rewrite firstn_app.
  replace (length buf - 1 - length buf)%nat with 0%nat by lia.
  cbn [firstn]. now rewrite app_nil_r.
Qed.

Section NmeaParsing.

Variable sscanf_time :
  list byte -> Z * Z * Z * float -> Z * (Z * Z * Z * float).
Variable sscanf_date : list byte -> Z * Z * Z -> Z * (Z * Z * Z).
Variable sscanf_hd : list byte -> Z -> Z * Z.
Variable sscanf_lat : list byte -> Z * float -> Z * (Z * float).
Variable sscanf_lon : list byte -> Z * float -> Z * (Z * float).

(** The two outcomes of the RMC branch. *)
Lemma parse_rmc_result (buf : list byte) (g : gps_vars) :
  0 < Z.of_nat (length buf) ->
  (parse_rmc sscanf_time sscanf_date buf g = Ret (IGNORED, g)
   /\ commas buf <> 12 /\ commas buf <> 13)
  \/ exists mode hms dmy ok,
       parse_rmc sscanf_time sscanf_date buf g
       = Ret (NMEA_RMC, set_rmc g mode hms dmy ok)
       /\ (commas buf = 12 \/ commas buf = 13)
       /\ (mode = u8 "N" \/ mode = u8 "A" \/ mode = u8 "D")
       /\ (ok = true -> mode = u8 "A" \/ mode = u8 "D").
Proof.
  intros Hlen. unfold parse_rmc.
  destruct (str_chop (buf ++ [x00]) (Z.of_nat (length buf)) (u8 ",") 30)
    as [[n s'] idx] eqn:E.
  assert (0 < Z.of_nat (length buf) <= Z.of_nat (length (buf ++ [x00])))
    as Hb by (rewrite length_app; cbn [length]; lia).
  destruct (str_chop_indexes (buf ++ [x00]) (Z.of_nat (length buf)) 30
              ","%byte n s' idx Hb ltac:(discriminate) ltac:(lia) E)
    as (Hn & Hall & Hlen').
  rewrite commas_parser_buf in Hn.
  pose proof (count_sep_nonneg ","
                (c_str (firstn (length buf - 1) buf))) as Hc.
  fold (commas buf) in Hc.
  destruct (Z.eqb_spec n 13) as [E13 | N13];
    [| destruct (Z.eqb_spec n 14) as [E14 | N14]]; cbn [negb andb].
  3: { left. split; [reflexivity | lia]. }
  all: right.
  all: pose proof (str_index_range idx (Z.of_nat (length buf)) 12 Hlen Hall)
         as H12.
  all: rewrite rd_in_range
         by (rewrite Hlen', length_app; cbn [length]; lia).
  all: cbn [bind].
  all: destruct (sscanf_time _ _) as [i hms].
  all: destruct (sscanf_date _ _) as [j dmy].
  all: do 4 eexists; split; [reflexivity |].
  all: split; [lia |].
  all: set (m := byte_at s' (str_index idx 12)).
  all: clearbody m.
  all: destruct (Z.eqb_spec m (u8 "N")) as [EN | NN];
         destruct (Z.eqb_spec m (u8 "A")) as [EA | NA];
         destruct (Z.eqb_spec m (u8 "D")) as [ED | ND];
         cbn [negb andb];
         (split; [auto |]);
         destruct ((i =? 4) && (j =? 3)); cbn; intros Q;
         try discriminate Q; auto;
         try (apply orb_prop in Q;
              destruct Q as [Q | Q]; apply Z.eqb_eq in Q; auto).
Qed.

(** The two outcomes of the GGA branch. *)
Lemma parse_gga_result (buf : list byte) (g : gps_vars) :
  0 < Z.of_nat (length buf) ->
  (parse_gga sscanf_hd sscanf_lat sscanf_lon buf g = Ret (IGNORED, g)
   /\ commas buf <> 14)
  \/ exists sat la ola lo olo alt ok,
       parse_gga sscanf_hd sscanf_lat sscanf_lon buf g
       = Ret (NMEA_GGA, set_gga g sat la ola lo olo alt ok)
       /\ commas buf = 14
       /\ (ok = true ->
           (ola = u8 "N" \/ ola = u8 "S") /\ (olo = u8 "E" \/ olo = u8 "W")).
Proof.
  intros Hlen. unfold parse_gga.
  destruct (str_chop (buf ++ [x00]) (Z.of_nat (length buf)) (u8 ",") 30)
    as [[n s'] idx] eqn:E.
  assert (0 < Z.of_nat (length buf) <= Z.of_nat (length (buf ++ [x00])))
    as Hb by (rewrite length_app; cbn [length]; lia).
  destruct (str_chop_indexes (buf ++ [x00]) (Z.of_nat (length buf)) 30
              ","%byte n s' idx Hb ltac:(discriminate) ltac:(lia) E)
    as (Hn & Hall & Hlen').
  rewrite commas_parser_buf in Hn.
  pose proof (count_sep_nonneg ","
                (c_str (firstn (length buf - 1) buf))) as Hc.
  fold (commas buf) in Hc.
  destruct (Z.eqb_spec n 15) as [E15 | N15]; cbn [negb].
  2: { left. split; [reflexivity | lia]. }
  right.
  pose proof (str_index_range idx (Z.of_nat (length buf)) 3 Hlen Hall) as H3.
  pose proof (str_index_range idx (Z.of_nat (length buf)) 5 Hlen Hall) as H5.
  destruct (sscanf_hd (token s' (str_index idx 7)) (gps_sat g)) as [k0 sat].
  destruct (sscanf_lat _ _) as [i la].
  rewrite rd_in_range by (rewrite Hlen', length_app; cbn [length]; lia).
  cbn [bind].
  destruct (sscanf_lon _ _) as [j lo].
  rewrite rd_in_range by (rewrite Hlen', length_app; cbn [length]; lia).
  cbn [bind].
  destruct (sscanf_hd (token s' (str_index idx 9)) (gps_alt g)) as [k alt].
  do 7 eexists. split; [reflexivity |]. split; [lia |].
  intros Q.
  apply andb_prop in Q. destruct Q as [Q Qlo].
  apply andb_prop in Q. destruct Q as [_ Qla].
  apply orb_prop in Qla. apply orb_prop in Qlo.
  split; [destruct Qla as [Q | Q] | destruct Qlo as [Q | Q]];
    apply Z.eqb_eq in Q; auto.
Qed.

(** [lgw_parse_nmea] on a buffer of 8 to 255 characters: the checksum, then
    the two labels. *)
Lemma parse_nmea_eq (buf : list byte) (g : gps_vars) :
  8 <= Z.of_nat (length buf) <= 255 ->
  exists v rmc gga,
    validate_nmea_checksum buf = Ret v
    /\ (rmc = true <-> has_label buf "R" "M" "C")
    /\ (gga = true <-> has_label buf "G" "G" "A")
    /\ lgw_parse_nmea sscanf_time sscanf_date sscanf_hd sscanf_lat sscanf_lon
         (Some buf) g
       = if negb v then Ret (INVALID, g)
         else if rmc then parse_rmc sscanf_time sscanf_date buf g
         else if gga then parse_gga sscanf_hd sscanf_lat sscanf_lon buf g
         else Ret (IGNORED, g).
Proof.
  intros Hlen.
  destruct (validate_total buf) as [v Hv].
  destruct (match_label_G buf "R" "M" "C" ltac:(lia))
    as (rmc & Hrmc & Irmc); try discriminate.
  destruct (match_label_G buf "G" "G" "A" ltac:(lia))
    as (gga & Hgga & Igga); try discriminate.
  exists v, rmc, gga.
  split; [exact Hv |]. split; [exact Irmc |]. split; [exact Igga |].
  unfold lgw_parse_nmea.
  destruct (Z.gtb_spec (Z.of_nat (length buf)) 255); [lia |].
  destruct (Z.ltb_spec (Z.of_nat (length buf)) 8); [lia |].
  rewrite Hv. cbn [bind].
  destruct v; cbn [negb]; [| reflexivity].
  unfold label_RMC, label_GGA.
  rewrite Hrmc. cbn [bind].
  destruct rmc; [reflexivity |].
  rewrite Hgga. reflexivity.
Qed.

(** X11. [lgw_parse_nmea] reads no character outside [serial_buff] or
    outside its copy [parser_buf]: whatever the buffer and whatever the
    conversions of [sscanf] give, the characters it reads itself (those of
    the checksum and of the label, the mode and the two hemispheres) are at
    indexes within bounds, and the call returns a kind. *)
Theorem parse_nmea_within_buffer
  (serial_buff : option (list byte)) (g : gps_vars) :
  exists kind g',
    lgw_parse_nmea sscanf_time sscanf_date sscanf_hd sscanf_lat sscanf_lon
      serial_buff g
    = Ret (kind, g').
Proof.
  destruct serial_buff as [buf |]; [| cbn; eauto].
  destruct (Z.lt_ge_cases 255 (Z.of_nat (length buf))) as [Hbig | Hle].
  { unfold lgw_parse_nmea.
    destruct (Z.gtb_spec (Z.of_nat (length buf)) 255); [eauto | lia]. }
  destruct (Z.lt_ge_cases (Z.of_nat (length buf)) 8) as [Hshort | Hge].
  { unfold lgw_parse_nmea.
    destruct (Z.gtb_spec (Z.of_nat (length buf)) 255); [lia |].
    destruct (Z.ltb_spec (Z.of_nat (length buf)) 8); [eauto | lia]. }
  destruct (parse_nmea_eq buf g ltac:(lia)) as (v & rmc & gga & _ & _ & _ & ->).
  destruct v; cbn [negb]; [| eauto].
  destruct rmc.
  - destruct (parse_rmc_result buf g ltac:(lia))
      as [[-> _] | (mode & hms & dmy & ok & -> & _)]; eauto.
  - destruct gga; [| eauto].
    destruct (parse_gga_result buf g ltac:(lia))
      as [[-> _] | (sat & la & ola & lo & olo & alt & ok & -> & _)]; eauto.
Qed.

(** X12. [lgw_parse_nmea] never answers INCOMPLETE or UBX_NAV_TIMEGPS, and
    it leaves every fix variable as it was unless it answers NMEA_RMC or
    NMEA_GGA. *)
Theorem parse_nmea_other_kinds
  (serial_buff : option (list byte)) (g g' : gps_vars) (kind : gps_msg) :
  lgw_parse_nmea sscanf_time sscanf_date sscanf_hd sscanf_lat sscanf_lon
    serial_buff g
  = Ret (kind, g') ->
  kind <> INCOMPLETE /\ kind <> UBX_NAV_TIMEGPS
  /\ (kind <> NMEA_RMC -> kind <> NMEA_GGA -> g' = g).
Proof.
  intros H.
  assert (forall k, k = UNKNOWN \/ k = INVALID \/ k = IGNORED ->
                    Ret (k, g) = Ret (kind, g') ->
                    kind <> INCOMPLETE /\ kind <> UBX_NAV_TIMEGPS
                    /\ (kind <> NMEA_RMC -> kind <> NMEA_GGA -> g' = g))
    as Hplain.
  { intros k Hk [= <- <-].
    destruct Hk as [-> | [-> | ->]]; repeat split; discriminate. }
  destruct serial_buff as [buf |];
    [| cbn in H; (eapply Hplain; [| exact H]; auto)].
  destruct (Z.lt_ge_cases 255 (Z.of_nat (length buf))) as [Hbig | Hle].
  { unfold lgw_parse_nmea in H.
    destruct (Z.gtb_spec (Z.of_nat (length buf)) 255); [| lia].
    (eapply Hplain; [| exact H]; auto). }
  destruct (Z.lt_ge_cases (Z.of_nat (length buf)) 8) as [Hshort | Hge].
  { unfold lgw_parse_nmea in H.
    destruct (Z.gtb_spec (Z.of_nat (length buf)) 255); [lia |].
    destruct (Z.ltb_spec (Z.of_nat (length buf)) 8); [| lia].
    (eapply Hplain; [| exact H]; auto). }
  destruct (parse_nmea_eq buf g ltac:(lia)) as (v & rmc & gga & _ & _ & _ & E).
  rewrite E in H. clear E.
  destruct v; cbn [negb] in H; [| (eapply Hplain; [| exact H]; auto)].
  destruct rmc.
  - destruct (parse_rmc_result buf g ltac:(lia))
      as [[E _] | (mode & hms & dmy & ok & E & _)]; rewrite E in H.
    + (eapply Hplain; [| exact H]; auto).
    + injection H as <- <-. repeat split; try discriminate. congruence.
  - destruct gga; [| (eapply Hplain; [| exact H]; auto)].
    destruct (parse_gga_result buf g ltac:(lia))
      as [[E _] | (sat & la & ola & lo & olo & alt & ok & E & _)];
      rewrite E in H.
    + (eapply Hplain; [| exact H]; auto).
    + injection H as <- <-. repeat split; try discriminate. congruence.
Qed.

(** X13. The answer NMEA_RMC is given only for a buffer of 8 to 255
    characters with a matching checksum, the label [$G?RMC] and 12 or 13
    commas. The position, the satellite count and the NAV-TIMEGPS variables
    are then as before, [gps_mod] is one of N, A and D, and [gps_time_ok] is
    set only with the mode A or D. *)
Theorem parse_nmea_rmc (buf : list byte) (g g' : gps_vars) :
  lgw_parse_nmea sscanf_time sscanf_date sscanf_hd sscanf_lat sscanf_lon
    (Some buf) g
  = Ret (NMEA_RMC, g') ->
  8 <= Z.of_nat (length buf) <= 255
  /\ validate_nmea_checksum buf = Ret true
  /\ has_label buf "R" "M" "C"
  /\ (commas buf = 12 \/ commas buf = 13)
  /\ same_position g g' /\ same_timegps g g'
  /\ (gps_mod g' = u8 "N" \/ gps_mod g' = u8 "A" \/ gps_mod g' = u8 "D")
  /\ (gps_time_ok g' = true -> gps_mod g' = u8 "A" \/ gps_mod g' = u8 "D").
Proof.
  intros H.
  assert (8 <= Z.of_nat (length buf) <= 255) as Hlen.
  { unfold lgw_parse_nmea in H.
    destruct (Z.gtb_spec (Z.of_nat (length buf)) 255); [discriminate |].
    destruct (Z.ltb_spec (Z.of_nat (length buf)) 8); [discriminate | lia]. }
  split; [exact Hlen |].
  destruct (parse_nmea_eq buf g Hlen)
    as (v & rmc & gga & Hv & Irmc & Igga & E).
  rewrite E in H. clear E.
  destruct v; cbn [negb] in H; [| discriminate].
  split; [exact Hv |].
  destruct rmc.
  - split; [now apply Irmc |].
    destruct (parse_rmc_result buf g ltac:(lia))
      as [[E _] | (mode & hms & dmy & ok & E & Hc & Hm & Hok)];
      rewrite E in H; [discriminate |].
    injection H as <-.
    destruct hms as [[[hou mi] sec] fra]. destruct dmy as [[day mon] yea].
    split; [exact Hc |].
    split; [repeat split |]. split; [repeat split |].
    split; [exact Hm | exact Hok].
  - destruct gga; [| discriminate].
    destruct (parse_gga_result buf g ltac:(lia))
      as [[E _] | (sat & la & ola & lo & olo & alt & ok & E & _)];
      rewrite E in H; discriminate.
Qed.

(** X14. The answer NMEA_GGA is given only for a buffer of 8 to 255
    characters with a matching checksum, the label [$G?GGA] and 14 commas.
    The date, the time of day, [gps_time_ok], [gps_mod] and the NAV-TIMEGPS
    variables are then as before, and [gps_pos_ok] is set only with a
    latitude marked N or S and a longitude marked E or W. *)
Theorem parse_nmea_gga (buf : list byte) (g g' : gps_vars) :
  lgw_parse_nmea sscanf_time sscanf_date sscanf_hd sscanf_lat sscanf_lon
    (Some buf) g
  = Ret (NMEA_GGA, g') ->
  8 <= Z.of_nat (length buf) <= 255
  /\ validate_nmea_checksum buf = Ret true
  /\ has_label buf "G" "G" "A"
  /\ commas buf = 14
  /\ same_date g g' /\ same_timegps g g'
  /\ gps_time_ok g' = gps_time_ok g /\ gps_mod g' = gps_mod g
  /\ (gps_pos_ok g' = true ->
      (gps_ola g' = u8 "N" \/ gps_ola g' = u8 "S")
      /\ (gps_olo g' = u8 "E" \/ gps_olo g' = u8 "W")).
Proof.
  intros H.
  assert (8 <= Z.of_nat (length buf) <= 255) as Hlen.
  { unfold lgw_parse_nmea in H.
    destruct (Z.gtb_spec (Z.of_nat (length buf)) 255); [discriminate |].
    destruct (Z.ltb_spec (Z.of_nat (length buf)) 8); [discriminate | lia]. }
  split; [exact Hlen |].
  destruct (parse_nmea_eq buf g Hlen)
    as (v & rmc & gga & Hv & Irmc & Igga & E).
  rewrite E in H. clear E.
  destruct v; cbn [negb] in H; [| discriminate].
  split; [exact Hv |].
  destruct rmc.
  - destruct (parse_rmc_result buf g ltac:(lia))
      as [[E _] | (mode & hms & dmy & ok & E & _)];
      rewrite E in H; discriminate.
  - destruct gga; [| discriminate].
    split; [now apply Igga |].
    destruct (parse_gga_result buf g ltac:(lia))
      as [[E _] | (sat & la & ola & lo & olo & alt & ok & E & Hc & Hok)];
      rewrite E in H; [discriminate |].
    injection H as <-.
    split; [exact Hc |].
    split; [repeat split |]. split; [repeat split |].
    split; [reflexivity |]. split; [reflexivity |].
    exact Hok.
Qed.

(** X15. A buffer of 8 to 255 characters without any ['*'] is INVALID and
    leaves the fix variables untouched. *)
Theorem parse_nmea_no_star (buf : list byte) (g : gps_vars) :
  8 <= Z.of_nat (length buf) <= 255 ->
  (forall q, nth_error buf q <> Some "*"%byte) ->
  lgw_parse_nmea sscanf_time sscanf_date sscanf_hd sscanf_lat sscanf_lon
    (Some buf) g
  = Ret (INVALID, g).
Proof.
  intros Hlen Hno.
  destruct (parse_nmea_eq buf g Hlen) as (v & rmc & gga & Hv & _ & _ & ->).
  rewrite (validate_no_star buf Hno) in Hv. injection Hv as <-.
  reflexivity.
Qed.

(** X16. The checksum catches every change of one character: when a buffer
    of 8 to 255 characters has a matching checksum, giving another value
    (other than ['*']) to one character between the first character and the
    first ['*'], or another value to one of the two checksum characters,
    makes the sentence INVALID and leaves the fix variables untouched. *)
Theorem parse_nmea_detects_changed_byte
  (buf : list byte) (g : gps_vars) (p k : nat) (x y : byte) :
  8 <= Z.of_nat (length buf) <= 255 ->
  first_star buf p ->
  validate_nmea_checksum buf = Ret true ->
  ((1 <= k < p)%nat /\ y <> "*"%byte) \/ k = S p \/ k = S (S p) ->
  nth_error buf k = Some x ->
  y <> x ->
  lgw_parse_nmea sscanf_time sscanf_date sscanf_hd sscanf_lat sscanf_lon
    (Some (store buf k y)) g
  = Ret (INVALID, g).
Proof.
  intros Hlen Hfs Hv Hk Hx Hy.
  destruct (parse_nmea_eq (store buf k y) g)
    as (v & rmc & gga & Hv' & _ & _ & ->);
    [rewrite length_store; exact Hlen |].
  rewrite (validate_detects_changed_byte buf p k x y) in Hv'
    by (assumption || lia).
  injection Hv' as <-. reflexivity.
Qed.

(** X17. No buffer is taken both as an RMC or GGA sentence and as a UBX
    frame: when [lgw_parse_nmea] answers NMEA_RMC or NMEA_GGA, the buffer
    starts with ['$'] and [lgw_parse_ubx] answers IGNORED with the size 0,
    without touching the fix variables. *)
Theorem nmea_sentence_is_not_ubx
  (buf : list byte) (g g' g0 : gps_vars) (kind : gps_msg) :
  lgw_parse_nmea sscanf_time sscanf_date sscanf_hd sscanf_lat sscanf_lon
    (Some buf) g
  = Ret (kind, g') ->
  kind = NMEA_RMC \/ kind = NMEA_GGA ->
  lgw_parse_ubx (Some buf) g0 = Ret (IGNORED, 0, g0).
Proof.
  intros H Hk.
  assert (8 <= Z.of_nat (length buf) <= 255) as Hlen.
  { unfold lgw_parse_nmea in H.
    destruct (Z.gtb_spec (Z.of_nat (length buf)) 255);
      [destruct Hk; congruence |].
    destruct (Z.ltb_spec (Z.of_nat (length buf)) 8);
      [destruct Hk; congruence | lia]. }
  assert (byte_at buf 0 = u8 "$") as H0.
  { destruct (parse_nmea_eq buf g Hlen)
      as (v & rmc & gga & Hv & Irmc & Igga & E).
    rewrite E in H. clear E.
    destruct v; cbn [negb] in H; [| destruct Hk; congruence].
    destruct rmc; [apply Irmc; reflexivity |].
    destruct gga; [apply Igga; reflexivity |].
    destruct Hk; congruence. }
  rewrite parse_ubx_eq by lia. cbv zeta.
  rewrite H0. reflexivity.
Qed.

End NmeaParsing.

Lemma parse_nmea_other_kinds_witness :
  UNKNOWN <> INCOMPLETE /\ UNKNOWN <> UBX_NAV_TIMEGPS
  /\ (UNKNOWN <> NMEA_RMC -> UNKNOWN <> NMEA_GGA ->
      gps_vars_init = gps_vars_init).
Proof.
  apply (parse_nmea_other_kinds (sscanf_none 0) (sscanf_none 0)
           (sscanf_none 0) (sscanf_none 0) (sscanf_none 0)
           (Some short_sentence) gps_vars_init gps_vars_init UNKNOWN).
  reflexivity.
Defined.

Lemma parse_nmea_rmc_witness :
  let g' := set_rmc gps_vars_init (u8 "A") (0, 0, 0, 0%float) (0, 0, 0) true in
  8 <= Z.of_nat (length rmc_sentence_crlf) <= 255
  /\ validate_nmea_checksum rmc_sentence_crlf = Ret true
  /\ has_label rmc_sentence_crlf "R" "M" "C"
  /\ (commas rmc_sentence_crlf = 12 \/ commas rmc_sentence_crlf = 13)
  /\ same_position gps_vars_init g' /\ same_timegps gps_vars_init g'
  /\ (gps_mod g' = u8 "N" \/ gps_mod g' = u8 "A" \/ gps_mod g' = u8 "D")
  /\ (gps_time_ok g' = true -> gps_mod g' = u8 "A" \/ gps_mod g' = u8 "D").
Proof.
  apply (parse_nmea_rmc (sscanf_none 4) (sscanf_none 3) (sscanf_none 0)
           (sscanf_none 0) (sscanf_none 0) rmc_sentence_crlf gps_vars_init).
  vm_compute. reflexivity.
Defined.

Lemma parse_nmea_gga_witness :
  let g' := set_gga gps_vars_init 0 (0, 0%float) (u8 "N") (0, 0%float)
              (u8 "E") 0 true in
  8 <= Z.of_nat (length gga_sentence_crlf) <= 255
  /\ validate_nmea_checksum gga_sentence_crlf = Ret true
  /\ has_label gga_sentence_crlf "G" "G" "A"
  /\ commas gga_sentence_crlf = 14
  /\ same_date gps_vars_init g' /\ same_timegps gps_vars_init g'
  /\ gps_time_ok g' = gps_time_ok gps_vars_init
  /\ gps_mod g' = gps_mod gps_vars_init
  /\ (gps_pos_ok g' = true ->
      (gps_ola g' = u8 "N" \/ gps_ola g' = u8 "S")
      /\ (gps_olo g' = u8 "E" \/ gps_olo g' = u8 "W")).
Proof.
  apply (parse_nmea_gga (sscanf_none 0) (sscanf_none 0) (sscanf_none 1)
           (sscanf_none 2) (sscanf_none 2) gga_sentence_crlf gps_vars_init).
  vm_compute. reflexivity.
Defined.

Lemma parse_nmea_no_star_witness :
  lgw_parse_nmea (sscanf_none 0) (sscanf_none 0) (sscanf_none 0)
    (sscanf_none 0) (sscanf_none 0)
    (Some (repeat "A"%byte 8)) gps_vars_init
  = Ret (INVALID, gps_vars_init).
Proof.
  apply (parse_nmea_no_star (sscanf_none 0) (sscanf_none 0) (sscanf_none 0)
           (sscanf_none 0) (sscanf_none 0) (repeat "A"%byte 8)
           gps_vars_init).
  - vm_compute. split; congruence.
  - intros q. do 8 (destruct q as [| q]; [discriminate |]).
    destruct q; discriminate.
Defined.

Lemma first_star_gga_crlf : first_star gga_sentence_crlf 70.
Proof.
  split; [reflexivity |].
  intros q Hq.
  do 70 (destruct q as [| q]; [discriminate |]).
  lia.
Qed.

Lemma parse_nmea_detects_changed_byte_witness :
  lgw_parse_nmea (sscanf_none 0) (sscanf_none 0) (sscanf_none 1)
    (sscanf_none 2) (sscanf_none 2)
    (Some (store gga_sentence_crlf 10 "8")) gps_vars_init
  = Ret (INVALID, gps_vars_init).
Proof.
  apply (parse_nmea_detects_changed_byte (sscanf_none 0) (sscanf_none 0)
           (sscanf_none 1) (sscanf_none 2) (sscanf_none 2)
           gga_sentence_crlf gps_vars_init 70 10 "7" "8").
  - vm_compute. split; congruence.
  - exact first_star_gga_crlf.
  - vm_compute. reflexivity.
  - left. split; [lia | discriminate].
  - reflexivity.
  - discriminate.
Defined.

(** X18. With the first ['*'] of the buffer at index [p], the checksum is
    accepted exactly when at least one character follows the two characters
    after the ['*'] and these two are upper-case hexadecimal digits giving
    the XOR of the characters before the ['*'], a leading ['$'] left out. *)
Theorem validate_nmea_checksum_iff (buf : list byte) (p : nat) :
  first_star buf p ->
  validate_nmea_checksum buf = Ret true
  <-> Z.of_nat p + 3 < Z.of_nat (length buf)
      /\ hex_value (byte_at buf (Z.of_nat p + 1)) < 16
      /\ hex_value (byte_at buf (Z.of_nat p + 2)) < 16
      /\ 16 * hex_value (byte_at buf (Z.of_nat p + 1))
         + hex_value (byte_at buf (Z.of_nat p + 2))
         = xor_all (nmea_body buf p) 0.
Proof.
  intros Hfs.
  destruct (Z.lt_ge_cases (Z.of_nat (length buf)) 2) as [Hshort | Hlen].
  { split; [| lia].
    unfold validate_nmea_checksum, nmea_checksum.
    destruct (Z.leb_spec (Z.of_nat (length buf)) 1); [discriminate | lia]. }
  rewrite (validate_spec buf p) by (lia || assumption).
  replace (Z.of_nat p + 1 + 1) with (Z.of_nat p + 2) by lia.
  set (X := xor_all (nmea_body buf p) 0).
  assert (0 <= X < 256) as RX by (apply xor_all_range; lia).
  assert (0 <= X / 16 < 16) as Rhi.
  { split; [apply Z.div_pos; lia | apply Z.div_lt_upper_bound; lia]. }
  assert (0 <= X mod 16 < 16) as Rlo by (apply Z.mod_pos_bound; lia).
  pose proof (Z.div_mod X 16 ltac:(lia)) as HX.
  pose proof (hex_value_range (byte_at buf (Z.of_nat p + 1))
                (proj1 (byte_at_range _ _))) as V1.
  pose proof (hex_value_range (byte_at buf (Z.of_nat p + 2))
                (proj1 (byte_at_range _ _))) as V2.
  split.
  - intros [= H].
    apply andb_prop in H. destruct H as [H H2].
    apply andb_prop in H. destruct H as [H0 H1].
    apply Z.ltb_lt in H0. apply Z.eqb_eq in H1, H2.
    rewrite H1, H2, !hex_value_nibble by assumption. lia.
  - intros (H0 & H1 & H2 & HV).
    assert (hex_value (byte_at buf (Z.of_nat p + 1)) = X / 16
            /\ hex_value (byte_at buf (Z.of_nat p + 2)) = X mod 16)
      as [E1 E2].
    { split.
      - apply (Z.div_unique X 16 _ (hex_value (byte_at buf (Z.of_nat p + 2))));
          lia.
      - apply (Z.mod_unique X 16 (hex_value (byte_at buf (Z.of_nat p + 1))));
          lia. }
    f_equal.
    rewrite <- E1, <- E2, !nibble_hex_value by assumption.
    rewrite !Z.eqb_refl.
    destruct (Z.ltb_spec (Z.of_nat p + 3) (Z.of_nat (length buf)));
      [reflexivity | lia].
Qed.

Lemma validate_nmea_checksum_iff_witness :
  validate_nmea_checksum gga_sentence_crlf = Ret true
  <-> 70 + 3 < 75
      /\ hex_value (u8 "5") < 16
      /\ hex_value (u8 "B") < 16
      /\ 16 * hex_value (u8 "5") + hex_value (u8 "B")
         = xor_all (nmea_body gga_sentence_crlf 70) 0.
Proof.
  apply (validate_nmea_checksum_iff gga_sentence_crlf 70).
  exact first_star_gga_crlf.
Defined.

Lemma nmea_sentence_is_not_ubx_witness :
  lgw_parse_ubx (Some gga_sentence_crlf) gps_vars_init
  = Ret (IGNORED, 0, gps_vars_init).
Proof.
  apply (nmea_sentence_is_not_ubx (sscanf_none 0) (sscanf_none 0)
           (sscanf_none 1) (sscanf_none 2) (sscanf_none 2)
           gga_sentence_crlf gps_vars_init
           (set_gga gps_vars_init 0 (0, 0%float) (u8 "N") (0, 0%float)
              (u8 "E") 0 true)
           gps_vars_init NMEA_GGA).
  - vm_compute. reflexivity.
  - right. reflexivity.
Defined.

(* ------------------------------------------------------------------------- *)
(** ** Further properties of [lgw_gps_sync] *)

Lemma sync_error_inv
  (now : Z) (ref : tref) (cnt : Z) (t gt : timespec) (h : aber_hist)
  (r : option tref) (h' : aber_hist) :
  lgw_gps_sync now (Some ref) cnt t gt h = (LGW_GPS_ERROR, r, h') ->
  r = Some ref /\ h' = mk_aber_hist true (aber_min1 h).
Proof.
  unfold lgw_gps_sync.
  destruct (sync_aber_n0 ref cnt t); cbn [negb andb]; [| discriminate].
  destruct (aber_min1 h && aber_min2 h); [discriminate |].
  intros [= <- <-]. split; reflexivity.
Qed.

Lemma sync_after_two_aberrant
  (now : Z) (ref : tref) (cnt : Z) (t gt : timespec) :
  fst (fst (lgw_gps_sync now (Some ref) cnt t gt (mk_aber_hist true true)))
  = LGW_GPS_SUCCESS.
Proof.
  unfold lgw_gps_sync.
  destruct (sync_aber_n0 ref cnt t); reflexivity.
Qed.

(** X19. [lgw_gps_sync] never fails three times in a row on a reference:
    when two calls in a row have returned the error value, the next call
    returns success, whatever its sample. *)
Theorem sync_no_three_errors
  (now1 now2 now3 : Z) (ref : tref) (cnt1 cnt2 cnt3 : Z)
  (t1 t2 t3 gt1 gt2 gt3 : timespec) (h : aber_hist)
  (r1 r2 : option tref) (h1 h2 : aber_hist) :
  lgw_gps_sync now1 (Some ref) cnt1 t1 gt1 h = (LGW_GPS_ERROR, r1, h1) ->
  lgw_gps_sync now2 r1 cnt2 t2 gt2 h1 = (LGW_GPS_ERROR, r2, h2) ->
  fst (fst (lgw_gps_sync now3 r2 cnt3 t3 gt3 h2)) = LGW_GPS_SUCCESS.
Proof.
  intros H1 H2.
  apply sync_error_inv in H1. destruct H1 as [-> ->].
  apply sync_error_inv in H2. destruct H2 as [-> ->].
  cbn [aber_min1]. apply sync_after_two_aberrant.
Qed.

Lemma sync_no_three_errors_witness :
  fst (fst (lgw_gps_sync 1700000000 (Some tref_zero) 1000000
              (mk_timespec 100 0) (mk_timespec 200 0)
              (mk_aber_hist true true)))
  = LGW_GPS_SUCCESS.
Proof.
  apply (sync_no_three_errors 1700000000 1700000000 1700000000 tref_zero
           1000000 1000000 1000000
           (mk_timespec 100 0) (mk_timespec 100 0) (mk_timespec 100 0)
           (mk_timespec 200 0) (mk_timespec 200 0) (mk_timespec 200 0)
           aber_hist_init (Some tref_zero) (Some tref_zero)
           (mk_aber_hist true false) (mk_aber_hist true true));
    vm_compute; reflexivity.
Defined.

Lemma out_of_range_one : out_of_range 1 = false.
Proof. vm_compute. reflexivity. Qed.

(** X20. A call of [lgw_gps_sync] that returns success leaves a reference
    holding the sample ([systime] the system time, [count_us], [utc] and
    [gps] those of the call) with an [xtal_err] that passes the test of the
    conversions: with a system time other than 0, the four conversions
    accept the new reference. *)
Theorem sync_success_gives_usable_ref
  (now : Z) (ref ref' : tref) (cnt : Z) (t gt : timespec)
  (h h' : aber_hist) :
  lgw_gps_sync now (Some ref) cnt t gt h = (LGW_GPS_SUCCESS, Some ref', h') ->
  systime ref' = now /\ count_us ref' = cnt /\ utc ref' = t /\ gps ref' = gt
  /\ (now <> 0 ->
      forall (c : Z) (tm out_t : timespec) (out_c : Z),
        fst (lgw_cnt2utc ref' c (Some out_t)) = LGW_GPS_SUCCESS
        /\ fst (lgw_utc2cnt ref' tm (Some out_c)) = LGW_GPS_SUCCESS
        /\ fst (lgw_cnt2gps ref' c (Some out_t)) = LGW_GPS_SUCCESS
        /\ fst (lgw_gps2cnt ref' tm (Some out_c)) = LGW_GPS_SUCCESS).
Proof.
  intros H.
  assert (systime ref' = now /\ count_us ref' = cnt /\ utc ref' = t
          /\ gps ref' = gt /\ out_of_range (xtal_err ref') = false)
    as (Hs & Hc & Hu & Hg & Hx).
  { unfold lgw_gps_sync in H.
    destruct (sync_aber_n0 ref cnt t) eqn:E; cbn [negb andb] in H.
    - destruct (aber_min1 h && aber_min2 h); [| discriminate].
      injection H as <- <-. cbn.
      repeat split.
      destruct (out_of_range (xtal_err ref)) eqn:Eo;
        [exact out_of_range_one | exact Eo].
    - injection H as <- <-. cbn.
      repeat split.
      unfold sync_aber_n0 in E.
      destruct (negb (sync_utc_diff ref t =? 0)%float);
        [exact E | discriminate]. }
  repeat (split; [assumption |]).
  intros Hnow.
  assert (ref_refused ref' = false) as Hr.
  { unfold ref_refused. rewrite Hx, Hs.
    destruct (Z.eqb_spec now 0); [contradiction | reflexivity]. }
  intros c tm out_t out_c.
  unfold lgw_cnt2utc, lgw_utc2cnt, lgw_cnt2gps, lgw_gps2cnt.
  rewrite Hr. repeat split.
Qed.

Lemma sync_success_gives_usable_ref_witness :
  let ref' := mk_tref 1700000001 500000 (mk_timespec 1700000001 0)
                (mk_timespec 1384035219 0)
                (sync_slope tref_before_wrap 500000
                   (mk_timespec 1700000001 0)) in
  systime ref' = 1700000001 /\ count_us ref' = 500000
  /\ utc ref' = mk_timespec 1700000001 0
  /\ gps ref' = mk_timespec 1384035219 0
  /\ (1700000001 <> 0 ->
      forall (c : Z) (tm out_t : timespec) (out_c : Z),
        fst (lgw_cnt2utc ref' c (Some out_t)) = LGW_GPS_SUCCESS
        /\ fst (lgw_utc2cnt ref' tm (Some out_c)) = LGW_GPS_SUCCESS
        /\ fst (lgw_cnt2gps ref' c (Some out_t)) = LGW_GPS_SUCCESS
        /\ fst (lgw_gps2cnt ref' tm (Some out_c)) = LGW_GPS_SUCCESS).
Proof.
  apply (sync_success_gives_usable_ref 1700000001 tref_before_wrap _ 500000
           (mk_timespec 1700000001 0) (mk_timespec 1384035219 0)
           aber_hist_init (mk_aber_hist false false)).
  vm_compute. reflexivity.
Defined.

(* ------------------------------------------------------------------------- *)
(** ** Further properties of the conversions *)

Section ConversionBounds.

Local Open Scope R_scope.

(** The two parts of the time difference computed by [lgw_cnt2utc] and
    [lgw_cnt2gps] from a counter difference [d]: at most 4295 seconds and
    at most 10^9 nanoseconds, none negative. *)
Lemma cnt2time_parts (x : float) (d : Z) :
  in_window x = true ->
  (0 <= d < 4294967296)%Z ->
  let delta := (double_of_Z d / (TS_CPS * x))%float in
  (0 <= Z_of_double (snd (modf delta)) <= 4295)%Z
  /\ (0 <= Z_of_double (fst (modf delta) * 1E9)%float <= 1000000000)%Z.
Proof.
  intros Hwin Hd delta. unfold modf. cbn [fst snd].
  set (ip := double_of_Z (Z_of_double delta)).
  destruct (in_window_R x Hwin) as [Fx HX].
  destruct fval_TS_CPS as [FT VT].
  destruct fval_1E9 as [F9 V9].
  destruct (mul_R 33 53 TS_CPS x FT Fx) as [FA EA]; try lia.
  rewrite VT in EA. apply rel_pos in EA; [| lra].
  cbn [Z.add] in FA.
  assert (HApos : 0 < fval (TS_CPS * x)) by (unfold eps in EA; lra).
  destruct (double_of_Z_R d) as [FD VD].
  { change (2 ^ 53)%Z with 9007199254740992%Z. lia. }
  destruct (div_R 52 140 (double_of_Z d) (TS_CPS * x) FD FA) as [Fdl Edl];
    try lia.
  { lra. }
  fold delta in Fdl, Edl. rewrite VD in Edl. cbn [Z.add] in Fdl.
  assert (HD : 0 <= IZR d) by (apply IZR_le; lia).
  assert (Hquot : 0 <= IZR d / fval (TS_CPS * x)).
  { apply Rmult_le_pos; [lra | left; apply Rinv_0_lt_compat; lra]. }
  apply rel_pos in Edl; [| exact Hquot].
  assert (Hdl0 : 0 <= fval delta).
  { assert (0 <= IZR d / fval (TS_CPS * x) * (1 - eps)).
    { apply Rmult_le_pos; [exact Hquot | unfold eps; lra]. }
    lra. }
  destruct (Z_of_double_R 246 delta Fdl Hdl0) as [Hip0 Hip].
  assert (Hdlmax : fval delta < 4296).
  { assert (HDmax : IZR d <= 4294967295) by (apply IZR_le; lia).
    set (r := IZR d / fval (TS_CPS * x)) in *.
    assert (HrA : r * fval (TS_CPS * x) = IZR d) by (unfold r; field; lra).
    assert (r * 999979 <= r * fval (TS_CPS * x)).
    { apply Rmult_le_compat_l; [exact Hquot | unfold eps in EA; lra]. }
    unfold eps in Edl. lra. }
  assert (Hipmax : (Z_of_double delta <= 4295)%Z).
  { assert (H : IZR (Z_of_double delta) < IZR 4296) by lra.
    apply lt_IZR in H. lia. }
  destruct (double_of_Z_R (Z_of_double delta)) as [Fip Vip].
  { change (2 ^ 53)%Z with 9007199254740992%Z. lia. }
  fold ip in Fip, Vip.
  assert (Hipt : Z_of_double ip = Z_of_double delta).
  { destruct (Z_of_double_R 52 ip Fip) as [_ H];
      [rewrite Vip; apply IZR_le; lia |].
    rewrite Vip in H. apply IZR_floor_unique. exact H. }
  split; [rewrite Hipt; lia |].
  destruct (sub_R 246 delta ip Fdl (fl_bounded_weaken 52 246 ip ltac:(lia) Fip))
    as [Ffp Efp]; try lia.
  rewrite Vip in Efp. cbn [Z.add] in Ffp.
  apply rel_pos in Efp; [| lra].
  assert (Hfp0 : 0 <= fval (delta - ip)).
  { assert (0 <= (fval delta - IZR (Z_of_double delta)) * (1 - eps)).
    { apply Rmult_le_pos; [lra | unfold eps; lra]. }
    lra. }
  destruct (mul_R 299 33 (delta - ip) 1E9 Ffp F9) as [Fg Eg]; try lia.
  rewrite V9 in Eg. cbn [Z.add] in Fg.
  apply rel_pos in Eg; [| lra].
  assert (Hg0 : 0 <= fval ((delta - ip) * 1E9)).
  { assert (0 <= fval (delta - ip) * 1000000000 * (1 - eps)).
    { apply Rmult_le_pos; [lra | unfold eps; lra]. }
    lra. }
  destruct (Z_of_double_R 386 _ Fg Hg0) as [Hn0 Hn].
  split; [exact Hn0 |].
  assert (H : IZR (Z_of_double ((delta - ip) * 1E9)) < IZR 1000000001).
  { unfold eps in Efp, Eg. lra. }
  apply lt_IZR in H. lia.
Qed.

(** On the reference count itself the time difference is zero. *)
Lemma cnt2time_zero (x : float) :
  in_window x = true ->
  (double_of_Z 0 / (TS_CPS * x))%float = 0%float.
Proof.
  intros Hwin.
  destruct (in_window_R x Hwin) as [Fx HX].
  destruct fval_TS_CPS as [FT VT].
  destruct (mul_R 33 53 TS_CPS x FT Fx) as [FA EA]; try lia.
  rewrite VT in EA. apply rel_pos in EA; [| lra].
  change (double_of_Z 0) with 0%float.
  apply (zero_div_pos _ _ FA). unfold eps in EA. lra.
Qed.

Lemma time2cnt_zero (x : float) :
  in_window x = true ->
  Z_of_double ((double_of_Z 0 + 1E-9 * double_of_Z 0) * TS_CPS * x)%float
  = 0%Z.
Proof.
  intros Hwin.
  destruct (in_window_R x Hwin) as [Fx HX].
  apply (Z_of_double_zero_mul 53); [vm_compute; reflexivity | exact Fx | lra].
Qed.

End ConversionBounds.

Lemma cnt2time_bounds (ref : tref) (cnt : Z) (t0 : timespec) :
  in_window (xtal_err ref) = true ->
  0 <= tv_nsec t0 < 1000000000 ->
  tv_sec t0 <= tv_sec (cnt2time ref cnt t0) <= tv_sec t0 + 4296
  /\ 0 <= tv_nsec (cnt2time ref cnt t0) < 1000000000
  /\ (tv_sec (cnt2time ref cnt t0) = tv_sec t0 ->
      tv_nsec t0 <= tv_nsec (cnt2time ref cnt t0)).
Proof.
  intros Hwin Hns. unfold cnt2time.
  pose proof (cnt2time_parts (xtal_err ref) (wrap32 (cnt - count_us ref))
                Hwin (wrap32_range _)) as H.
  cbv zeta in H.
  destruct (modf (double_of_Z (wrap32 (cnt - count_us ref))
                  / (TS_CPS * xtal_err ref))) as [fractpart intpart].
  cbn [fst snd] in H. destruct H as [Hi Hn].
  destruct (Z.ltb_spec (tv_nsec t0 + Z_of_double (fractpart * 1E9))
              1000000000); cbn [tv_sec tv_nsec]; lia.
Qed.

Lemma cnt2time_ref (ref : tref) (t0 : timespec) :
  in_window (xtal_err ref) = true ->
  tv_nsec t0 < 1000000000 ->
  cnt2time ref (count_us ref) t0 = t0.
Proof.
  intros Hwin Hns. unfold cnt2time.
  rewrite Z.sub_diag. change (wrap32 0) with 0.
  rewrite (cnt2time_zero _ Hwin).
  change (modf 0) with (0%float, 0%float).
  cbv iota beta.
  change (Z_of_double (0 * 1E9)) with 0. change (Z_of_double 0) with 0.
  rewrite !Z.add_0_r.
  destruct (Z.ltb_spec (tv_nsec t0) 1000000000); [| lia].
  destruct t0; reflexivity.
Qed.

Lemma time2cnt_ref (ref : tref) (t0 : timespec) :
  in_window (xtal_err ref) = true ->
  0 <= count_us ref < 4294967296 ->
  time2cnt ref t0 t0 = count_us ref.
Proof.
  intros Hwin Hc. unfold time2cnt, uint32_of_double.
  rewrite !Z.sub_diag.
  rewrite (time2cnt_zero _ Hwin).
  change (wrap32 0) with 0. rewrite Z.add_0_r.
  unfold wrap32. apply Z.mod_small.
  change (2 ^ 32) with 4294967296. lia.
Qed.

(** X21. With a valid reference whose two times have their nanoseconds in
    [0, 10^9), the times given by [lgw_cnt2utc] and [lgw_cnt2gps] are never
    before the reference time (in seconds, and in nanoseconds when the
    seconds are those of the reference) and at most 4296 seconds after it,
    and their nanoseconds are in [0, 10^9): a counter value below
    [ref.count_us] is taken as a later value that has wrapped, never as an
    earlier time. *)
Theorem cnt2time_after_reference
  (ref : tref) (cnt : Z) (out_t : timespec) :
  systime ref <> 0 ->
  in_window (xtal_err ref) = true ->
  0 <= tv_nsec (utc ref) < 1000000000 ->
  0 <= tv_nsec (gps ref) < 1000000000 ->
  exists t_utc t_gps,
    lgw_cnt2utc ref cnt (Some out_t) = (LGW_GPS_SUCCESS, Some t_utc)
    /\ lgw_cnt2gps ref cnt (Some out_t) = (LGW_GPS_SUCCESS, Some t_gps)
    /\ tv_sec (utc ref) <= tv_sec t_utc <= tv_sec (utc ref) + 4296
    /\ 0 <= tv_nsec t_utc < 1000000000
    /\ (tv_sec t_utc = tv_sec (utc ref) ->
        tv_nsec (utc ref) <= tv_nsec t_utc)
    /\ tv_sec (gps ref) <= tv_sec t_gps <= tv_sec (gps ref) + 4296
    /\ 0 <= tv_nsec t_gps < 1000000000
    /\ (tv_sec t_gps = tv_sec (gps ref) ->
        tv_nsec (gps ref) <= tv_nsec t_gps).
Proof.
  intros Hs Hwin Hu Hg.
  pose proof (valid_ref_not_refused ref Hs Hwin) as Hr.
  unfold lgw_cnt2utc, lgw_cnt2gps. rewrite Hr.
  do 2 eexists. split; [reflexivity |]. split; [reflexivity |].
  pose proof (cnt2time_bounds ref cnt (utc ref) Hwin Hu).
  pose proof (cnt2time_bounds ref cnt (gps ref) Hwin Hg).
  tauto.
Qed.

Lemma cnt2time_after_reference_witness :
  exists t_utc t_gps,
    lgw_cnt2utc tref_after_wrap 0 (Some (mk_timespec 0 0))
    = (LGW_GPS_SUCCESS, Some t_utc)
    /\ lgw_cnt2gps tref_after_wrap 0 (Some (mk_timespec 0 0))
       = (LGW_GPS_SUCCESS, Some t_gps)
    /\ 1700000000 <= tv_sec t_utc <= 1700000000 + 4296
    /\ 0 <= tv_nsec t_utc < 1000000000
    /\ (tv_sec t_utc = 1700000000 -> 0 <= tv_nsec t_utc)
    /\ 1384035218 <= tv_sec t_gps <= 1384035218 + 4296
    /\ 0 <= tv_nsec t_gps < 1000000000
    /\ (tv_sec t_gps = 1384035218 -> 0 <= tv_nsec t_gps).
Proof.
  apply (cnt2time_after_reference tref_after_wrap 0 (mk_timespec 0 0)).
  - discriminate.
  - vm_compute. reflexivity.
  - vm_compute. split; congruence.
  - vm_compute. split; congruence.
Defined.

(** X22. With a valid reference, the reference point is converted to
    itself: the count [ref.count_us] gives the times [ref.utc] and
    [ref.gps] (their nanoseconds being below 10^9), and these times give
    the count [ref.count_us] back. *)
Theorem conversions_at_reference
  (ref : tref) (out_t : timespec) (out_c : Z) :
  systime ref <> 0 ->
  in_window (xtal_err ref) = true ->
  0 <= count_us ref < 2 ^ 32 ->
  tv_nsec (utc ref) < 1000000000 ->
  tv_nsec (gps ref) < 1000000000 ->
  lgw_cnt2utc ref (count_us ref) (Some out_t)
  = (LGW_GPS_SUCCESS, Some (utc ref))
  /\ lgw_utc2cnt ref (utc ref) (Some out_c)
     = (LGW_GPS_SUCCESS, Some (count_us ref))
  /\ lgw_cnt2gps ref (count_us ref) (Some out_t)
     = (LGW_GPS_SUCCESS, Some (gps ref))
  /\ lgw_gps2cnt ref (gps ref) (Some out_c)
     = (LGW_GPS_SUCCESS, Some (count_us ref)).
Proof.
  intros Hs Hwin Hc Hu Hg.
  change (2 ^ 32) with 4294967296 in Hc.
  pose proof (valid_ref_not_refused ref Hs Hwin) as Hr.
  unfold lgw_cnt2utc, lgw_utc2cnt, lgw_cnt2gps, lgw_gps2cnt. rewrite Hr.
  rewrite !cnt2time_ref, !time2cnt_ref by assumption.
  repeat split.
Qed.

Lemma conversions_at_reference_witness :
  lgw_cnt2utc tref_after_wrap 1000000 (Some (mk_timespec 0 0))
  = (LGW_GPS_SUCCESS, Some (mk_timespec 1700000000 0))
  /\ lgw_utc2cnt tref_after_wrap (mk_timespec 1700000000 0) (Some 0)
     = (LGW_GPS_SUCCESS, Some 1000000)
  /\ lgw_cnt2gps tref_after_wrap 1000000 (Some (mk_timespec 0 0))
     = (LGW_GPS_SUCCESS, Some (mk_timespec 1384035218 0))
  /\ lgw_gps2cnt tref_after_wrap (mk_timespec 1384035218 0) (Some 0)
     = (LGW_GPS_SUCCESS, Some 1000000).
Proof.
  apply (conversions_at_reference tref_after_wrap (mk_timespec 0 0) 0).
  - discriminate.
  - vm_compute. reflexivity.
  - vm_compute. split; congruence.
  - vm_compute. reflexivity.
  - vm_compute. reflexivity.
Defined.

(* ------------------------------------------------------------------------- *)
(** ** [lgw_gps_get] and [lgw_gps_enable] *)

Section GpsGetProperties.

Variable mktime : tm -> Z.
Variable timezone : Z.

(** X23. Without a valid time, a call that asks for the UTC time or for the
    GPS time returns the error value and writes nothing, whatever else it
    asks for. *)
Theorem gps_get_without_time
  (g : gps_vars) (utc gps_time : option timespec) (loc err : option coord_s) :
  gps_time_ok g = false ->
  utc <> None \/ gps_time <> None ->
  lgw_gps_get mktime timezone g utc gps_time loc err
  = Conv (LGW_GPS_ERROR, utc, gps_time, loc, err).
Proof.
  intros Hok Hreq. unfold lgw_gps_get, get_utc, get_gps_time.
  rewrite Hok. cbn [negb].
  destruct utc as [u |]; [reflexivity |].
  destruct gps_time as [t |]; [reflexivity |].
  destruct Hreq as [H | H]; contradiction.
Qed.


(** X25. A year below 100 is read as a year of this century: the call gives
    the same results with the year [yy] and with the year [2000 + yy]. *)
Theorem gps_get_two_digit_year
  (g : gps_vars) (utc gps_time : option timespec) (loc err : option coord_s) :
  0 <= gps_yea g < 100 ->
  lgw_gps_get mktime timezone (with_year g (2000 + gps_yea g))
    utc gps_time loc err
  = lgw_gps_get mktime timezone g utc gps_time loc err.
Proof.
  intros Hy.
  assert (get_tm (with_year g (2000 + gps_yea g)) = get_tm g) as Htm.
  { unfold get_tm, with_year.
    cbn [gps_yea gps_mon gps_day gps_hou gps_min gps_sec].
    destruct (Z.ltb_spec (2000 + gps_yea g) 100); [lia |].
    destruct (Z.ltb_spec (gps_yea g) 100); [| lia].
    f_equal. lia. }
  unfold lgw_gps_get, get_utc. rewrite Htm. reflexivity.
Qed.

(** X26. After a call of [lgw_gps_enable] that returned success, the
    descriptor stored is the positive one given by [open], and a call of
    [lgw_gps_get] that asks for a time or for the position returns the
    error value and writes nothing: what was parsed before the call is no
    longer reported. *)
Theorem gps_get_after_enable
  (tty_path : option (list byte)) (fd_ptr fd : option Z) (sys : tty_calls)
  (g g' : gps_vars) (written : list byte)
  (utc gps_time : option timespec) (loc err : option coord_s) :
  lgw_gps_enable tty_path fd_ptr sys g = (LGW_GPS_SUCCESS, fd, written, g') ->
  utc <> None \/ gps_time <> None \/ loc <> None ->
  fd = Some (open_ret sys) /\ 0 < open_ret sys
  /\ lgw_gps_get mktime timezone g' utc gps_time loc err
     = Conv (LGW_GPS_ERROR, utc, gps_time, loc, err).
Proof.
  intros H Hreq. unfold lgw_gps_enable in H.
  destruct tty_path as [p |]; [| discriminate].
  destruct fd_ptr as [f |]; [| discriminate].
  destruct (Z.leb_spec (open_ret sys) 0); [discriminate |].
  destruct (negb (tcgetattr_ret sys =? 0)); [discriminate |].
  destruct (negb (tcsetattr_ret sys =? 0)); [discriminate |].
  injection H as <- <- <-.
  split; [reflexivity |]. split; [assumption |].
  unfold lgw_gps_get, get_utc, get_gps_time, get_loc. cbn.
  destruct utc as [u |]; [reflexivity |].
  destruct gps_time as [t |]; [reflexivity |].
  destruct loc as [l |]; [reflexivity |].
  destruct Hreq as [H | [H | H]]; contradiction.
Qed.

End GpsGetProperties.

Lemma gps_get_without_time_witness :
  lgw_gps_get (fun _ => 0) 0 gps_vars_init (Some (mk_timespec 0 0)) None
    None None
  = Conv (LGW_GPS_ERROR, Some (mk_timespec 0 0), None, None, None).
Proof.
  apply (gps_get_without_time (fun _ => 0) 0 gps_vars_init
           (Some (mk_timespec 0 0)) None None None).
  - reflexivity.
  - left. discriminate.
Defined.


Lemma gps_get_two_digit_year_witness :
  lgw_gps_get (fun x => tm_year x) 0
    (with_year (set_time_ok gps_vars_init true) 2000)
    (Some (mk_timespec 0 0)) None None None
  = lgw_gps_get (fun x => tm_year x) 0 (set_time_ok gps_vars_init true)
      (Some (mk_timespec 0 0)) None None None.
Proof.
  apply (gps_get_two_digit_year (fun x => tm_year x) 0
           (set_time_ok gps_vars_init true)
           (Some (mk_timespec 0 0)) None None None).
  vm_compute. split; congruence.
Defined.

Lemma gps_get_after_enable_witness :
  Some 3 = Some (open_ret (mk_tty_calls 3 0 0))
  /\ 0 < open_ret (mk_tty_calls 3 0 0)
  /\ lgw_gps_get (fun _ => 0) 0 (set_enabled (set_time_ok gps_vars_init true))
       (Some (mk_timespec 0 0)) None None None
     = Conv (LGW_GPS_ERROR, Some (mk_timespec 0 0), None, None, None).
Proof.
  apply (gps_get_after_enable (fun _ => 0) 0 (Some []) (Some 0) (Some 3)
           (mk_tty_calls 3 0 0) (set_time_ok gps_vars_init true)
           (set_enabled (set_time_ok gps_vars_init true)) ubx_cmd_timegps
           (Some (mk_timespec 0 0)) None None None).
  - reflexivity.
  - left. discriminate.
Defined.

(** X27. The command that [lgw_gps_enable] hands to [write] on success is
    the 16 bytes of a complete UBX frame whose checksum is the one
    [lgw_parse_ubx] computes: read back by the parser, it is answered
    IGNORED, as a frame of another class, with its full size. *)
Theorem enable_command_is_ubx_frame
  (tty_path : option (list byte)) (fd_ptr fd : option Z) (sys : tty_calls)
  (g g' g0 : gps_vars) (written : list byte) :
  lgw_gps_enable tty_path fd_ptr sys g = (LGW_GPS_SUCCESS, fd, written, g') ->
  Z.of_nat (length written) = UBX_MSG_NAVTIMEGPS_LEN
  /\ ubx_frame_ok written = true
  /\ lgw_parse_ubx (Some written) g0
     = Ret (IGNORED, UBX_MSG_NAVTIMEGPS_LEN, g0).
Proof.
  intros H. unfold lgw_gps_enable in H.
  destruct tty_path as [p |]; [| discriminate].
  destruct fd_ptr as [f |]; [| discriminate].
  destruct (open_ret sys <=? 0); [discriminate |].
  destruct (negb (tcgetattr_ret sys =? 0)); [discriminate |].
  destruct (negb (tcsetattr_ret sys =? 0)); [discriminate |].
  injection H as <- <- <-.
  split; [reflexivity |]. split; [reflexivity |].
  rewrite parse_ubx_frame_ok by reflexivity. reflexivity.
Qed.

Lemma enable_command_is_ubx_frame_witness :
  Z.of_nat (length ubx_cmd_timegps) = UBX_MSG_NAVTIMEGPS_LEN
  /\ ubx_frame_ok ubx_cmd_timegps = true
  /\ lgw_parse_ubx (Some ubx_cmd_timegps) gps_vars_init
     = Ret (IGNORED, UBX_MSG_NAVTIMEGPS_LEN, gps_vars_init).
Proof.
  apply (enable_command_is_ubx_frame (Some []) (Some 0) (Some 3)
           (mk_tty_calls 3 0 0) gps_vars_init (set_enabled gps_vars_init)
           gps_vars_init ubx_cmd_timegps).
  reflexivity.
Defined.

(* ------------------------------------------------------------------------- *)
(** ** The GPS time given by [lgw_gps_get] *)

Section GpsTimeValue.

Local Open Scope R_scope.

Lemma fval_1E3 : fl_bounded 43 1E3 /\ fval 1E3 = 1000.
Proof.
  unfold fl_bounded, fval.
  assert (E : Prim2SF 1E3 = S754_finite false 8796093022208000 (-43))
    by (vm_compute; reflexivity).
  rewrite E. cbn [sf_bounded SF2R sgn].
  split; [split; [reflexivity | lia] |].
  rewrite (bpow_neg 43). change (2 ^ 43)%Z with 8796093022208%Z. lra.
Qed.

(** The arithmetic of the GPS time, over the reals: [I] milliseconds and
    [F] nanoseconds are added as seconds, then cut into [ip] seconds and
    [n] nanoseconds. *)
Lemma gps_time_real (I F a b s fpv g : R) (ip n : Z) :
  0 <= I <= 604800000 ->
  -500000 <= F <= 500000 ->
  I / 1000 * (1 - eps) <= a <= I / 1000 * (1 + eps) ->
  Rabs (b - F / 1000000000) <= eps * Rabs (F / 1000000000) ->
  (a + b) * (1 - eps) <= s <= (a + b) * (1 + eps) ->
  IZR ip <= s < IZR ip + 1 ->
  (s - IZR ip) * (1 - eps) <= fpv <= (s - IZR ip) * (1 + eps) ->
  fpv * 1000000000 * (1 - eps) <= g <= fpv * 1000000000 * (1 + eps) ->
  IZR n <= g < IZR n + 1 ->
  I * 1000000 + F - 2 < IZR ip * 1000000000 + IZR n < I * 1000000 + F + 1.
Proof.
  intros HI HF Ha Hb Hs Hip Hfp Hg Hn.
  assert (F / 1000000000 - eps * (5 / 10000) <= b
          <= F / 1000000000 + eps * (5 / 10000)) as Hb'.
  { destruct (Rle_lt_dec 0 F) as [Hpos | Hneg].
    - apply rel_pos in Hb; [| lra]. unfold eps in *. lra.
    - apply rel_neg in Hb; [| lra]. unfold eps in *. lra. }
  clear Hb. unfold eps in *. lra.
Qed.

(** The seconds and nanoseconds cut from a time of week. *)
Lemma gps_time_parts (I F : Z) :
  (0 <= I < 604800000)%Z ->
  (-500000 <= F <= 500000)%Z ->
  (1 <= I \/ 0 <= F)%Z ->
  let s := (double_of_Z I / 1E3 + double_of_Z F / 1E9)%float in
  let ns := (Z_of_double (snd (modf s)) * 1000000000
             + Z_of_double (fst (modf s) * 1E9)%float)%Z in
  (ns = I * 1000000 + F \/ ns = I * 1000000 + F - 1)%Z
  /\ (0 <= Z_of_double (snd (modf s)))%Z
  /\ (0 <= Z_of_double (fst (modf s) * 1E9)%float)%Z.
Proof.
  intros HI HF Hsign s ns. subst ns. unfold modf. cbn [fst snd].
  set (ip := double_of_Z (Z_of_double s)).
  destruct fval_1E3 as [F3 V3].
  destruct fval_1E9 as [F9 V9].
  assert (RI : 0 <= IZR I <= 604800000).
  { split; apply IZR_le; lia. }
  assert (RF : -500000 <= IZR F <= 500000).
  { split; apply IZR_le; lia. }
  (* a = (double)iTOW / 1E3 *)
  destruct (double_of_Z_R I) as [FI VI].
  { change (2 ^ 53)%Z with 9007199254740992%Z. lia. }
  destruct (div_R 52 43 (double_of_Z I) 1E3 FI F3) as [Fa Ea]; try lia.
  { lra. }
  rewrite VI, V3 in Ea. cbn [Z.add] in Fa.
  apply rel_pos in Ea; [| lra].
  (* b = (double)fTOW / 1E9 *)
  destruct (double_of_Z_R F) as [FF VF].
  { change (2 ^ 53)%Z with 9007199254740992%Z. lia. }
  destruct (div_R 52 33 (double_of_Z F) 1E9 FF F9) as [Fb Eb]; try lia.
  { lra. }
  rewrite VF, V9 in Eb. cbn [Z.add] in Fb.
  assert (Hb' : IZR F / 1000000000 - eps * (5 / 10000)
                <= fval (double_of_Z F / 1E9)
                <= IZR F / 1000000000 + eps * (5 / 10000)).
  { destruct (Rle_lt_dec 0 (IZR F)) as [Hpos | Hneg].
    - pose proof Eb as Eb'. apply rel_pos in Eb'; [| lra].
      unfold eps in *. lra.
    - pose proof Eb as Eb'. apply rel_neg in Eb'; [| lra].
      unfold eps in *. lra. }
  (* the sum is not negative *)
  assert (Hsum0 : 0 <= fval (double_of_Z I / 1E3)
                       + fval (double_of_Z F / 1E9)).
  { destruct Hsign as [H1 | H0].
    - assert (1 <= IZR I) by (apply IZR_le; lia).
      unfold eps in *. lra.
    - assert (0 <= IZR F) by (apply IZR_le; lia).
      pose proof Eb as Eb'. apply rel_pos in Eb'; [| lra].
      unfold eps in *. lra. }
  destruct (add_R 149 (double_of_Z I / 1E3) (double_of_Z F / 1E9)
              (fl_bounded_weaken 149 149 _ ltac:(lia) Fa)
              (fl_bounded_weaken 139 149 _ ltac:(lia) Fb)) as [Fs Es];
    try lia.
  fold s in Fs, Es. cbn [Z.add] in Fs.
  apply rel_pos in Es; [| exact Hsum0].
  assert (Hs0 : 0 <= fval s).
  { assert (0 <= (fval (double_of_Z I / 1E3) + fval (double_of_Z F / 1E9))
                 * (1 - eps)).
    { apply Rmult_le_pos; [exact Hsum0 | unfold eps; lra]. }
    lra. }
  destruct (Z_of_double_R 202 s Fs Hs0) as [Hip0 Hip].
  assert (Hipmax : (Z_of_double s <= 604801)%Z).
  { assert (H : IZR (Z_of_double s) < IZR 604802).
    { unfold eps in *. lra. }
    apply lt_IZR in H. lia. }
  destruct (double_of_Z_R (Z_of_double s)) as [Fip Vip].
  { change (2 ^ 53)%Z with 9007199254740992%Z. lia. }
  fold ip in Fip, Vip.
  assert (Hipt : Z_of_double ip = Z_of_double s).
  { destruct (Z_of_double_R 52 ip Fip) as [_ H];
      [rewrite Vip; apply IZR_le; lia |].
    rewrite Vip in H. apply IZR_floor_unique. exact H. }
  (* fractional part *)
  destruct (sub_R 202 s ip Fs (fl_bounded_weaken 52 202 ip ltac:(lia) Fip))
    as [Ffp Efp]; try lia.
  rewrite Vip in Efp. cbn [Z.add] in Ffp.
  apply rel_pos in Efp; [| lra].
  assert (Hfp0 : 0 <= fval (s - ip)).
  { assert (0 <= (fval s - IZR (Z_of_double s)) * (1 - eps)).
    { apply Rmult_le_pos; [lra | unfold eps; lra]. }
    lra. }
  destruct (mul_R 255 33 (s - ip) 1E9 Ffp F9) as [Fg Eg]; try lia.
  rewrite V9 in Eg. cbn [Z.add] in Fg.
  apply rel_pos in Eg; [| lra].
  assert (Hg0 : 0 <= fval ((s - ip) * 1E9)).
  { assert (0 <= fval (s - ip) * 1000000000 * (1 - eps)).
    { apply Rmult_le_pos; [lra | unfold eps; lra]. }
    lra. }
  destruct (Z_of_double_R 342 _ Fg Hg0) as [Hn0 Hn].
  rewrite Hipt.
  split; [| split; assumption].
  pose proof (gps_time_real (IZR I) (IZR F) _ _ _ _ _ _ _
                RI RF Ea Eb Es Hip Efp Eg Hn) as [Hlo Hhi].
  set (n := Z_of_double ((s - ip) * 1E9)) in *.
  set (k := Z_of_double s) in *.
  assert (H1 : IZR (I * 1000000 + F - 2) < IZR (k * 1000000000 + n)).
  { rewrite minus_IZR, !plus_IZR, !mult_IZR. lra. }
  assert (H2 : IZR (k * 1000000000 + n) < IZR (I * 1000000 + F + 1)).
  { rewrite !plus_IZR, !mult_IZR. lra. }
  apply lt_IZR in H1, H2. lia.
Qed.

End GpsTimeValue.

Section GpsGetTime.

Variable mktime : tm -> Z.
Variable timezone : Z.

(** X28. For a valid time of week ([gps_iTOW] below 604800000 ms,
    [gps_fTOW] within 500000 ns of zero, and not a negative [gps_fTOW] with
    [gps_iTOW] = 0) the GPS time given by [lgw_gps_get], counted in
    nanoseconds, is [gps_week] weeks plus [gps_iTOW] milliseconds plus
    [gps_fTOW] nanoseconds, or one nanosecond less; its nanoseconds are not
    negative. *)
Theorem gps_get_gps_time_value (g : gps_vars) (out : timespec) :
  gps_time_ok g = true ->
  0 <= gps_iTOW g < 604800000 ->
  -500000 <= gps_fTOW g <= 500000 ->
  1 <= gps_iTOW g \/ 0 <= gps_fTOW g ->
  exists t,
    lgw_gps_get mktime timezone g None (Some out) None None
    = Conv (LGW_GPS_SUCCESS, None, Some t, None, None)
    /\ (let ns := tv_sec t * 1000000000 + tv_nsec t in
        let exact := gps_week g * 604800 * 1000000000
                     + gps_iTOW g * 1000000 + gps_fTOW g in
        ns = exact \/ ns = exact - 1)
    /\ 0 <= tv_nsec t.
Proof.
  intros Hok HI HF Hs.
  pose proof (gps_time_parts (gps_iTOW g) (gps_fTOW g) HI HF Hs) as H.
  cbv zeta in H.
  unfold lgw_gps_get, get_utc, get_gps_time, get_loc, get_err.
  rewrite Hok. cbn [negb].
  destruct (modf (double_of_Z (gps_iTOW g) / 1E3
                  + double_of_Z (gps_fTOW g) / 1E9)) as [fractpart intpart].
  cbn [fst snd] in H. destruct H as (Hv & Hi & Hn).
  eexists. split; [reflexivity |].
  cbn [tv_sec tv_nsec]. split; [lia | exact Hn].
Qed.

End GpsGetTime.

Lemma gps_get_gps_time_value_witness :
  exists t,
    lgw_gps_get (fun _ => 0) 0
      (set_time_ok (set_timegps gps_vars_init 180149760 0 2200) true)
      None (Some (mk_timespec 0 0)) None None
    = Conv (LGW_GPS_SUCCESS, None, Some t, None, None)
    /\ (let ns := tv_sec t * 1000000000 + tv_nsec t in
        let exact := 2200 * 604800 * 1000000000 + 180149760 * 1000000 + 0 in
        ns = exact \/ ns = exact - 1)
    /\ 0 <= tv_nsec t.
Proof.
  apply (gps_get_gps_time_value (fun _ => 0) 0
           (set_time_ok (set_timegps gps_vars_init 180149760 0 2200) true)
           (mk_timespec 0 0)).
  - reflexivity.
  - vm_compute. split; congruence.
  - vm_compute. split; congruence.
  - left. vm_compute. congruence.
Defined.
